(** * another-mongo-odm: the field codecs, the document graph, the change
      compiler (CommandMaker) and the identity cache (NiceCollection) of
      [core.py], embedded over an explicit Python heap.

    Python objects that can be shared and mutated in place (lists, sets,
    dicts, NiceNesting / NiceDocument instances) live in a heap and are
    referred to by location; everything else is an immutable value.  Code
    that can raise runs in a state-and-exception monad whose heap survives
    an exception, as Python's does. *)

From Stdlib Require Import QArith.
From stdpp Require Import base option list strings gmap pretty.

Local Open Scope Z_scope.
Local Open Scope string_scope.
Local Open Scope list_scope.

(** ** Values and objects *)

Abbreviation loc := nat (only parsing).

(** The fragment of Python values the model covers: [None], [...]
    (Ellipsis), integers, strings and references to heap objects. *)
Inductive pyval :=
| VNone
| VEllipsis
| VInt (n : Z)
| VStr (s : string)
| VRef (l : loc).

#[global] Instance pyval_eq_dec : EqDecision pyval.
Proof. solve_decision. Defined.

Definition pyval_encode (v : pyval) : (bool + Z) + (string + nat) :=
  match v with
  | VNone => inl (inl false)
  | VEllipsis => inl (inl true)
  | VInt n => inl (inr n)
  | VStr s => inr (inl s)
  | VRef l => inr (inr l)
  end.

Definition pyval_decode (x : (bool + Z) + (string + nat)) : pyval :=
  match x with
  | inl (inl false) => VNone
  | inl (inl true) => VEllipsis
  | inl (inr n) => VInt n
  | inr (inl s) => VStr s
  | inr (inr l) => VRef l
  end.

#[global] Instance pyval_countable : Countable pyval.
Proof.
  refine (inj_countable' pyval_encode pyval_decode _).
  by intros [].
Defined.

(** A NiceNesting instance.  [is_document] is [isinstance(self, NiceDocument)];
    [attrs] holds the attributes the constructor assigns from the class's
    [_fields] and [_nice_nestings]; [id] and [_last_used_at] are meaningful
    on documents only. *)
Record Nesting := mkNesting {
  cls_name : string;
  is_document : bool;
  _parent : option loc;
  _name : string;
  _alias : option string;
  attrs : gmap string pyval;
  id : pyval;
  _last_used_at : Q
}.

Inductive pyobj :=
| OList (xs : list pyval)
| OSet (xs : list pyval)
| ODict (kvs : list (pyval * pyval))
| ONode (n : Nesting).

Abbreviation heap := (list pyobj) (only parsing).

(** ** Exceptions and the interpreter monad *)

(** Python's exceptions, a failure reported by the store driver, and
    [Unmodelled]: the step leaves the fragment of Python this development
    covers (each use says what Python does there). *)
Inductive exn :=
| AttributeError
| KeyError
| TypeError
| ValueError
| SyntaxError
| IndexError
| NotImplementedError
| RecursionError
| NameError
| ReferenceError
| StoreFailure (code : Z)
| Unmodelled.

Inductive outcome (A : Type) :=
| Ok (a : A)
| Raise (e : exn).
Arguments Ok {A} a.
Arguments Raise {A} e.

Definition Py (A : Type) : Type := heap → heap * outcome A.

#[global] Instance Py_ret : MRet Py := λ A a h, (h, Ok a).
#[global] Instance Py_bind : MBind Py := λ A B f m h,
  match m h with
  | (h', Ok a) => f a h'
  | (h', Raise e) => (h', Raise e)
  end.

Definition raise {A} (e : exn) : Py A := λ h, (h, Raise e).
Definition get_heap : Py heap := λ h, (h, Ok h).

(** [for x in xs: f x] *)
Definition for_each {A} (f : A → Py unit) : list A → Py unit :=
  fix go (xs : list A) : Py unit :=
    match xs with
    | [] => mret tt
    | x :: xs' => f x ;; go xs'
    end.

(** ** Heap primitives *)

(** A new object gets the next free location; nothing is ever freed. *)
Definition alloc (o : pyobj) : Py loc := λ h, (h ++ [o], Ok (length h)).

Definition load (l : loc) : Py pyobj := λ h,
  match h !! l with
  | Some o => (h, Ok o)
  | None => (h, Raise ReferenceError)
  end.

Definition store (l : loc) (o : pyobj) : Py unit := λ h, (<[l := o]> h, Ok tt).

Definition load_node (l : loc) : Py Nesting :=
  o ← load l;
  match o with
  | ONode n => mret n
  | _ => raise AttributeError
  end.

(** [x or y] on an optional string: [None] and [""] are both falsy. *)
Definition or_else (x : option string) (y : string) : string :=
  match x with
  | Some s => if decide (s = "") then y else s
  | None => y
  end.

(** ** Python dicts and sets as insertion-ordered lists *)

Fixpoint dict_get (k : pyval) (d : list (pyval * pyval)) : option pyval :=
  match d with
  | [] => None
  | (k', v) :: d' => if decide (k = k') then Some v else dict_get k d'
  end.

Fixpoint dict_set (k v : pyval) (d : list (pyval * pyval)) : list (pyval * pyval) :=
  match d with
  | [] => [(k, v)]
  | (k', v') :: d' =>
      if decide (k = k') then (k', v) :: d' else (k', v') :: dict_set k v d'
  end.

Fixpoint dict_pop (k : pyval) (d : list (pyval * pyval)) : list (pyval * pyval) :=
  match d with
  | [] => []
  | (k', v') :: d' => if decide (k = k') then d' else (k', v') :: dict_pop k d'
  end.

Definition set_add (x : pyval) (s : list pyval) : list pyval :=
  if decide (x ∈ s) then s else s ++ [x].

(** Lists, sets and dicts are unhashable; instances hash by identity. *)
Definition hashable (h : heap) (v : pyval) : bool :=
  match v with
  | VRef l => match h !! l with Some (ONode _) => true | _ => false end
  | _ => true
  end.

Definition check_hashable (v : pyval) : Py unit :=
  h ← get_heap;
  if hashable h v then mret tt else raise TypeError.

(** [list(xs)] / [set(xs)] / [dict(kvs)]: a new object each time. *)
Definition new_list (xs : list pyval) : Py pyval :=
  l ← alloc (OList xs); mret (VRef l).

Definition new_set (xs : list pyval) : Py pyval :=
  for_each check_hashable xs;;
  l ← alloc (OSet (foldl (λ s x, set_add x s) [] xs)); mret (VRef l).

Definition new_dict (kvs : list (pyval * pyval)) : Py pyval :=
  for_each (λ kv, check_hashable kv.1) kvs;;
  l ← alloc (ODict (foldl (λ d kv, dict_set kv.1 kv.2 d) [] kvs)); mret (VRef l).

(** [copy.copy]: immutable values are returned as they are; a container or
    an instance is duplicated one level deep, its elements being the very
    same values (and so the very same references). *)
Definition copy (v : pyval) : Py pyval :=
  match v with
  | VRef l => o ← load l; l' ← alloc o; mret (VRef l')
  | _ => mret v
  end.

(** [iter(v)]: the elements of a list or set, the keys of a dict, the
    characters of a string. *)
Definition py_iter (v : pyval) : Py (list pyval) :=
  match v with
  | VStr s => mret ((λ c, VStr (String c "")) <$> String.list_ascii_of_string s)
  | VRef l =>
      o ← load l;
      match o with
      | OList xs | OSet xs => mret xs
      | ODict kvs => mret (kvs.*1)
      | ONode _ => raise TypeError
      end
  | _ => raise TypeError
  end.

(** [v.items()] *)
Definition py_items (v : pyval) : Py (list (pyval * pyval)) :=
  match v with
  | VRef l =>
      o ← load l;
      match o with
      | ODict kvs => mret kvs
      | _ => raise AttributeError
      end
  | _ => raise AttributeError
  end.

(** [v.get(k)] *)
Definition py_get (v k : pyval) : Py pyval :=
  kvs ← py_items v;
  check_hashable k;;
  mret (default VNone (dict_get k kvs)).

(** [str(v)] as an f-string formats it.  A reference is rendered as an
    opaque token: Python prints a container's contents and an instance's
    address. *)
Definition py_str (v : pyval) : string :=
  match v with
  | VNone => "None"
  | VEllipsis => "Ellipsis"
  | VInt n => pretty n
  | VStr s => s
  | VRef l => "<object " +:+ pretty l +:+ ">"
  end.

(** [a == b].  Containers compare by contents, instances by identity; an
    object is equal to itself without looking inside.  The recursion
    descends into nested containers, so it is bounded by [fuel]. *)
Fixpoint all2 (f : pyval → pyval → option bool) (xs ys : list pyval) : option bool :=
  match xs, ys with
  | [], [] => Some true
  | x :: xs', y :: ys' =>
      match f x y with
      | Some true => all2 f xs' ys'
      | r => r
      end
  | _, _ => Some false
  end.

Fixpoint all_items (f : pyval → pyval → option bool)
    (d1 d2 : list (pyval * pyval)) : option bool :=
  match d1 with
  | [] => Some true
  | (k, v) :: d1' =>
      match dict_get k d2 with
      | None => Some false
      | Some v' =>
          match f v v' with
          | Some true => all_items f d1' d2
          | r => r
          end
      end
  end.

Fixpoint py_eq_fuel (fuel : nat) (h : heap) (a b : pyval) : option bool :=
  match a, b with
  | VRef la, VRef lb =>
      if decide (la = lb) then Some true else
      match fuel with
      | O => None
      | S fuel' =>
          match h !! la, h !! lb with
          | Some (OList xs), Some (OList ys) => all2 (py_eq_fuel fuel' h) xs ys
          | Some (OSet xs), Some (OSet ys) =>
              Some (bool_decide (length xs = length ys ∧ Forall (λ x, x ∈ ys) xs))
          | Some (ODict d1), Some (ODict d2) =>
              if decide (length d1 = length d2)
              then all_items (py_eq_fuel fuel' h) d1 d2
              else Some false
          | _, _ => Some false
          end
      end
  | _, _ => Some (bool_decide (a = b))
  end.

(** Running out of fuel is Python's recursion limit. *)
Definition py_eq (a b : pyval) : Py bool := λ h,
  match py_eq_fuel (S (length h)) h a b with
  | Some r => (h, Ok r)
  | None => (h, Raise RecursionError)
  end.

(** [a + b] on integers, strings and lists. *)
Definition py_add (a b : pyval) : Py pyval :=
  match a, b with
  | VInt x, VInt y => mret (VInt (x + y))
  | VStr x, VStr y => mret (VStr (x +:+ y))
  | VRef la, VRef lb =>
      oa ← load la; ob ← load lb;
      match oa, ob with
      | OList xs, OList ys => new_list (xs ++ ys)
      | _, _ => raise TypeError
      end
  | _, _ => raise TypeError
  end.

(** [getattr(obj, name)] and [setattr(obj, name, v)].  Only the attributes
    that the constructor assigns from the declared fields are modelled:
    any other name, and any attribute of a value that is not an instance,
    raises [AttributeError]. *)
Definition getattr (obj : pyval) (name : string) : Py pyval :=
  match obj with
  | VRef l =>
      n ← load_node l;
      match attrs n !! name with
      | Some v => mret v
      | None => raise AttributeError
      end
  | _ => raise AttributeError
  end.

Definition with_attrs (f : gmap string pyval → gmap string pyval) (n : Nesting) : Nesting :=
  {| cls_name := cls_name n; is_document := is_document n; _parent := _parent n;
     _name := _name n; _alias := _alias n; attrs := f (attrs n);
     id := id n; _last_used_at := _last_used_at n |}.

Definition setattr (l : loc) (name : string) (v : pyval) : Py unit :=
  n ← load_node l;
  store l (ONode (with_attrs (insert name v) n)).

(** ** Field descriptors *)

Inductive sized_iterable := list_ | set_.

(** The five descriptor classes.  [_default] is the stored default (a
    reference when the default is a container); [real_name] is the wire-name
    override.  User-supplied converters are pure functions on values. *)
Inductive FieldBase :=
| Field (_default : pyval) (_from_raw _to_raw : pyval → pyval)
    (real_name : option string)
| FieldWithContainer (_sized_iterable : sized_iterable) (_default : pyval)
    (from_raw_element to_raw_element : pyval → pyval) (real_name : option string)
| FieldWithDict (_default : pyval)
    (from_raw_item to_raw_item : pyval → pyval → pyval * pyval)
    (real_name : option string)
| FieldWithNestings (cls : string) (_default : pyval)
    (from_raw_key to_raw_key : pyval → pyval) (real_name : option string)
| NestingFactory (cls : string) (real_name : option string).

Definition _default (f : FieldBase) : pyval :=
  match f with
  | Field d _ _ _ | FieldWithContainer _ d _ _ _ | FieldWithDict d _ _ _
  | FieldWithNestings _ d _ _ _ => d
  | NestingFactory _ _ => VEllipsis
  end.

Definition real_name (f : FieldBase) : option string :=
  match f with
  | Field _ _ _ r | FieldWithContainer _ _ _ _ r | FieldWithDict _ _ _ r
  | FieldWithNestings _ _ _ _ r | NestingFactory _ r => r
  end.

(** [FieldBase.default]: [copy(self._default)]. *)
Definition default (f : FieldBase) : Py pyval := copy (_default f).

Definition new_sized (k : sized_iterable) (xs : list pyval) : Py pyval :=
  match k with
  | list_ => new_list xs
  | set_ => new_set xs
  end.

(** [field.from_raw(value)] of the plain descriptors. *)
Definition from_raw (f : FieldBase) (value : pyval) : Py pyval :=
  match f with
  | Field _ fr _ _ =>
      match value with
      | VNone => default f
      | _ => mret (fr value)
      end
  | FieldWithContainer k _ fe _ _ =>
      match value with
      | VNone => default f
      | _ => xs ← py_iter value; new_sized k (fe <$> xs)
      end
  | FieldWithDict _ fi _ _ =>
      match value with
      | VNone => default f
      | _ => kvs ← py_items value; new_dict ((λ kv, fi kv.1 kv.2) <$> kvs)
      end
  | FieldWithNestings _ _ _ _ _ | NestingFactory _ _ => raise TypeError
  end.

(** [field.to_raw(value)] *)
Definition to_raw (f : FieldBase) (value : pyval) : Py pyval :=
  match f with
  | Field d _ tr _ =>
      eq ← py_eq value d;
      if eq : bool then mret VNone else mret (tr value)
  | FieldWithContainer k _ _ te _ =>
      xs ← py_iter value; new_sized k (te <$> xs)
  | FieldWithDict _ _ ti _ =>
      kvs ← py_items value; new_dict ((λ kv, ti kv.1 kv.2) <$> kvs)
  | FieldWithNestings _ _ _ _ _ | NestingFactory _ _ => raise NotImplementedError
  end.

(** ** Classes *)

(** What [FieldExtractingMeta] leaves on a class: the plain descriptors in
    [_fields], the nesting descriptors in [_nice_nestings]. *)
Record NiceClass := mkClass {
  document_class : bool;
  _fields : list (string * FieldBase);
  _nice_nestings : list (string * FieldBase)
}.

Definition is_nesting_field (f : FieldBase) : bool :=
  match f with
  | FieldWithNestings _ _ _ _ _ | NestingFactory _ _ => true
  | _ => false
  end.

(** [FieldExtractingMeta.__new__] on a class body. *)
Definition FieldExtractingMeta (doc : bool) (body : list (string * FieldBase)) : NiceClass :=
  {| document_class := doc;
     _fields := filter (λ nf, is_nesting_field nf.2 = false) body;
     _nice_nestings := filter (λ nf, is_nesting_field nf.2 = true) body |}.

(** [d.get(k)] and [d[k] = x] on an insertion-ordered dict of the program
    itself (class-level dicts, the proxies' dicts). *)
Fixpoint assoc {K} `{EqDecision K} {A} (k : K) (d : list (K * A)) : option A :=
  match d with
  | [] => None
  | (k', x) :: d' => if decide (k = k') then Some x else assoc k d'
  end.

Fixpoint assoc_set {K} `{EqDecision K} {A} (k : K) (x : A) (d : list (K * A)) : list (K * A) :=
  match d with
  | [] => [(k, x)]
  | (k', x') :: d' =>
      if decide (k = k') then (k', x) :: d' else (k', x') :: assoc_set k x d'
  end.

(** ** The document graph: NiceNesting and NiceDocument *)

Section Graph.
(** The classes of the program, by name. *)
Context (classes : gmap string NiceClass).

Definition lookup_class (cls : string) : Py NiceClass :=
  match classes !! cls with
  | Some c => mret c
  | None => raise NameError
  end.

(** [data.get(use_name)] in the constructor, where a [None] record was
    replaced by the empty dict. *)
Definition data_get (data : pyval) (use_name : string) : Py pyval :=
  match data with
  | VNone => mret VNone
  | _ => py_get data (VStr use_name)
  end.

(** [field.from_raw(data, attr_name, parent)] of the two nesting
    descriptors, given the constructor [mk] of nested instances. *)
Definition nesting_from_raw
    (mk : string → string → pyval → option loc → option string → Py loc)
    (f : FieldBase) (data : pyval) (attr_name : string) (parent : loc) : Py pyval :=
  match f with
  | FieldWithNestings cls _ frk _ rn =>
      match data with
      | VNone => default f
      | _ =>
          items ← py_items data;
          d ← alloc (ODict []);
          for_each (λ kv,
            child ← mk cls "" kv.2 (Some parent)
                       (Some (or_else rn attr_name +:+ "." +:+ py_str kv.1));
            check_hashable (frk kv.1);;
            kvs ← py_items (VRef d);
            store d (ODict (dict_set (frk kv.1) (VRef child) kvs))) items;;
          mret (VRef d)
      end
  | NestingFactory cls rn =>
      child ← mk cls attr_name data (Some parent) rn;
      mret (VRef child)
  | _ => raise TypeError
  end.

(** [NiceNesting.__init__], entered through [cls(...)]: the instance is
    allocated, then every plain field and every nesting field is
    converted from the record and assigned.  [as_document] tells whether
    the call comes from [NiceDocument.__init__]; a document class cannot be
    instantiated as a nesting, nor the reverse.  Nested instances recurse
    on the record, hence the fuel. *)
Fixpoint NiceNesting__init__ (fuel : nat) (as_document : bool) (cls : string)
    (attr_name : string) (data : pyval) (parent : option loc)
    (alias : option string) : Py loc :=
  match fuel with
  | O => raise RecursionError
  | S fuel' =>
      c ← lookup_class cls;
      if negb (eqb (document_class c) as_document) then raise TypeError else
      self ← alloc (ONode {| cls_name := cls; is_document := as_document;
                             _parent := parent; _name := attr_name;
                             _alias := alias; attrs := ∅;
                             id := VNone; _last_used_at := 0%Q |});
      for_each (λ nf,
        raw ← data_get data (or_else (real_name nf.2) nf.1);
        v ← from_raw nf.2 raw;
        setattr self nf.1 v) (_fields c);;
      for_each (λ nf,
        raw ← data_get data (or_else (real_name nf.2) nf.1);
        v ← nesting_from_raw (NiceNesting__init__ fuel' false) nf.2 raw nf.1 self;
        setattr self nf.1 v) (_nice_nestings c);;
      mret self
  end.

(** [data["_id"]] *)
Definition py_getitem (data key : pyval) : Py pyval :=
  match data with
  | VRef l =>
      o ← load l;
      match o with
      | ODict kvs =>
          match dict_get key kvs with
          | Some v => mret v
          | None => raise KeyError
          end
      | _ => raise TypeError
      end
  | _ => raise TypeError
  end.

Definition set_document_info (self : loc) (i : pyval) (now : Q) : Py unit :=
  n ← load_node self;
  store self (ONode {| cls_name := cls_name n; is_document := is_document n;
                       _parent := _parent n; _name := _name n;
                       _alias := _alias n; attrs := attrs n;
                       id := i; _last_used_at := now |}).

(** [NiceDocument.__init__(data, collection)]; [now] is what [time()]
    returns. *)
Definition NiceDocument__init__ (fuel : nat) (cls : string) (data : pyval)
    (now : Q) : Py loc :=
  self ← NiceNesting__init__ fuel true cls "" data None None;
  i ← py_getitem data (VStr "_id");
  set_document_info self i now;;
  mret self.

(** [NiceDocument.minimal(id, collection)] *)
Definition minimal (fuel : nat) (cls : string) (i : pyval) (now : Q) : Py loc :=
  c ← lookup_class cls;
  self ← alloc (ONode {| cls_name := cls; is_document := true;
                         _parent := None; _name := ""; _alias := None;
                         attrs := ∅; id := i; _last_used_at := 0%Q |});
  for_each (λ nf, v ← default nf.2; setattr self nf.1 v) (_fields c);;
  for_each (λ nf,
    v ← nesting_from_raw (NiceNesting__init__ fuel false) nf.2 VNone nf.1 self;
    setattr self nf.1 v) (_nice_nestings c);;
  set_document_info self i now;;
  mret self.

(** [mongo_name]: [self._alias or self._name]. *)
Definition mongo_name (n : Nesting) : string := or_else (_alias n) (_name n).

(** [route_prefix]: the property of [NiceDocument] on a document, the
    one of [NiceNesting] otherwise.  The recursion climbs the parents; it
    runs out of fuel only on a chain of parents that never ends.  The source
    keeps the result on the node ([cached_property]); since no code changes
    a node's parent, name or alias after construction, computing it again
    gives the same string, and the cache is left out. *)
Fixpoint route_prefix_fuel (fuel : nat) (self : loc) : Py string :=
  n ← load_node self;
  if is_document n then mret "" else
  match _parent n with
  | None => raise ValueError
  | Some p =>
      o ← load p;
      match o with
      | ONode pn =>
          if is_document pn then mret (mongo_name n +:+ ".") else
          match fuel with
          | O => raise RecursionError
          | S fuel' =>
              pre ← route_prefix_fuel fuel' p;
              mret (pre +:+ mongo_name n +:+ ".")
          end
      | _ => raise ValueError
      end
  end.

Definition route_prefix (self : loc) : Py string :=
  h ← get_heap; route_prefix_fuel (length h) self.

(** [document]: the root a node hangs from. *)
Fixpoint document_fuel (fuel : nat) (self : loc) : Py loc :=
  n ← load_node self;
  if is_document n then mret self else
  match _parent n with
  | None => raise ValueError
  | Some p =>
      o ← load p;
      match o with
      | ONode pn =>
          if is_document pn then mret p else
          match fuel with
          | O => raise RecursionError
          | S fuel' => document_fuel fuel' p
          end
      | _ => raise ValueError
      end
  end.

Definition document (self : loc) : Py loc :=
  h ← get_heap; document_fuel (length h) self.

End Graph.

(** [attached h l d]: climbing the parents from the node [l] reaches a
    document after [d] steps. *)
Inductive attached (h : heap) : loc → nat → Prop :=
| attached_document l n :
    h !! l = Some (ONode n) → is_document n = true → attached h l 0
| attached_child l n p d :
    h !! l = Some (ONode n) → is_document n = false → _parent n = Some p →
    attached h p d → attached h l (S d).

(** ** Operations on containers that the change compiler applies *)

(** [xs.remove(el)] on a list: drops the first element equal to [el]. *)
Fixpoint list_remove (el : pyval) (xs : list pyval) : Py (list pyval) :=
  match xs with
  | [] => raise ValueError
  | x :: xs' =>
      eq ← py_eq x el;
      if eq : bool then mret xs' else r ← list_remove el xs'; mret (x :: r)
  end.

(** [container.remove(el)] *)
Definition py_remove (container el : pyval) : Py unit :=
  match container with
  | VRef l =>
      o ← load l;
      match o with
      | OList xs => xs' ← list_remove el xs; store l (OList xs')
      | OSet xs =>
          check_hashable el;;
          if decide (el ∈ xs) then store l (OSet (filter (λ x, x ≠ el) xs))
          else raise KeyError
      | _ => raise AttributeError
      end
  | _ => raise AttributeError
  end.

(** [container.extend(els)] when it is a list, [container.update(els)] when
    it is a set, nothing otherwise. *)
Definition py_extend_or_update (container : pyval) (els : list pyval) : Py unit :=
  match container with
  | VRef l =>
      o ← load l;
      match o with
      | OList xs => store l (OList (xs ++ els))
      | OSet _ =>
          for_each (λ el,
            check_hashable el;;
            o' ← load l;
            match o' with
            | OSet xs => store l (OSet (set_add el xs))
            | _ => raise ReferenceError
            end) els
      | _ => mret tt
      end
  | _ => mret tt
  end.

(** [obj[key] = val] *)
Definition py_setitem (obj key val : pyval) : Py unit :=
  match obj with
  | VRef l =>
      o ← load l;
      match o with
      | ODict kvs => check_hashable key;; store l (ODict (dict_set key val kvs))
      | OList xs =>
          match key with
          | VInt i =>
              let j := if decide (i < 0) then i + Z.of_nat (length xs) else i in
              if decide (0 ≤ j < Z.of_nat (length xs))
              then store l (OList (<[Z.to_nat j := val]> xs))
              else raise IndexError
          | _ => raise TypeError
          end
      | _ => raise TypeError
      end
  | _ => raise TypeError
  end.

(** [key in obj].  Substring search in a string is not modelled. *)
Fixpoint list_contains (key : pyval) (xs : list pyval) : Py bool :=
  match xs with
  | [] => mret false
  | x :: xs' => eq ← py_eq x key; if eq : bool then mret true else list_contains key xs'
  end.

Definition py_contains (key obj : pyval) : Py bool :=
  match obj with
  | VStr _ => raise Unmodelled
  | VRef l =>
      o ← load l;
      match o with
      | ODict kvs => check_hashable key;; mret (bool_decide (is_Some (dict_get key kvs)))
      | OSet xs => check_hashable key;; mret (bool_decide (key ∈ xs))
      | OList xs => list_contains key xs
      | ONode _ => raise TypeError
      end
  | _ => raise TypeError
  end.

(** [obj.pop(key, None)] *)
Definition py_pop (obj key : pyval) : Py unit :=
  match obj with
  | VRef l =>
      o ← load l;
      match o with
      | ODict kvs => check_hashable key;; store l (ODict (dict_pop key kvs))
      | OList _ | OSet _ => raise TypeError
      | ONode _ => raise AttributeError
      end
  | _ => raise AttributeError
  end.

(** [isinstance(v, NiceNesting)] *)
Definition as_nesting (v : pyval) : Py (option (loc * Nesting)) :=
  match v with
  | VRef l =>
      o ← load l;
      match o with
      | ONode n => mret (Some (l, n))
      | _ => mret None
      end
  | _ => mret None
  end.

(** ** The store driver (AsyncCollection) *)

(** One operand of [$addToSet] / [$pull]: the element itself, or the list
    wrapped in [{"$each": ...}] / [{"$in": ...}]. *)
Inductive operand :=
| One (v : pyval)
| Many (vs : list pyval).

(** The update command: a dict with up to four sections. *)
Record mongo_command := mkCommand {
  set_section : option (gmap string pyval);
  unset_section : option (gmap string pyval);
  addToSet_section : option (gmap string operand);
  pull_section : option (gmap string operand)
}.

(** The requests the program sends, as the driver sees them. *)
Inductive request :=
| update_one (doc_id : pyval) (command : mongo_command) (upsert : bool)
| find_one (doc_id : pyval)
| delete_one (doc_id : pyval).

(** The driver is an external collaborator: all the model knows of it is
    how it answers each request, by a value or by a failure.  The record
    [find_one] returns is a dict already decoded into the heap, or
    [None]. *)
Record AsyncCollection := mkStore {
  answer_update_one : pyval → mongo_command → bool → outcome unit;
  answer_find_one : pyval → outcome pyval;
  answer_delete_one : pyval → outcome unit
}.

(** What an operation that talks to the store leaves behind: the heap, the
    requests it sent, and its own outcome. *)
Record run (A : Type) := mkRun {
  heap_after : heap;
  requests : list request;
  result : outcome A
}.
Arguments mkRun {A} _ _ _.
Arguments heap_after {A} _.
Arguments requests {A} _.
Arguments result {A} _.

(** ** The change compiler: CommandMaker *)

Module CommandMaker.

(** A proxy.  [_value = None] is the [MISSING] sentinel; [_to_inc = VNone]
    is "no increment staged".  The lists the proxy owns are kept as plain
    lists; the child proxies are kept in the order they were created. *)
#[local] Unset Elimination Schemes.
Inductive t := mk {
  _underlying : pyval;
  _underlying_owner : pyval;
  _name : string;
  _value : option pyval;
  _to_inc : pyval;
  _to_add : list pyval;
  _to_remove : list pyval;
  _to_update : list (pyval * pyval);
  _to_pop : list pyval;
  _pseudo_nestings : list (pyval * t);
  _pseudo_attrs : list (string * t)
}.
#[local] Set Elimination Schemes.

Definition __slots__ : list string :=
  ["_underlying"; "_underlying_owner"; "_name"; "_value"; "_to_inc"; "_to_add";
   "_to_remove"; "_to_update"; "_to_pop"; "_pseudo_nestings"; "_pseudo_attrs"].

Definition methods : list string :=
  ["_iter_leaves"; "_inject_nesting_branches"; "append"; "extend"; "add";
   "update"; "remove"; "pop"].

(** [CommandMaker(name, value, underlying=..., underlying_owner=...)] *)
Definition __init__ (name : string) (value : option pyval)
    (underlying underlying_owner : pyval) : t :=
  {| _underlying := underlying; _underlying_owner := underlying_owner;
     _name := name; _value := value; _to_inc := VNone; _to_add := [];
     _to_remove := []; _to_update := []; _to_pop := [];
     _pseudo_nestings := []; _pseudo_attrs := [] |}.

Definition with_value (v : option pyval) (p : t) : t :=
  {| _underlying := _underlying p; _underlying_owner := _underlying_owner p;
     _name := _name p; _value := v; _to_inc := _to_inc p; _to_add := _to_add p;
     _to_remove := _to_remove p; _to_update := _to_update p; _to_pop := _to_pop p;
     _pseudo_nestings := _pseudo_nestings p; _pseudo_attrs := _pseudo_attrs p |}.

Definition with_inc (v : pyval) (p : t) : t :=
  {| _underlying := _underlying p; _underlying_owner := _underlying_owner p;
     _name := _name p; _value := _value p; _to_inc := v; _to_add := _to_add p;
     _to_remove := _to_remove p; _to_update := _to_update p; _to_pop := _to_pop p;
     _pseudo_nestings := _pseudo_nestings p; _pseudo_attrs := _pseudo_attrs p |}.

Definition with_add (xs : list pyval) (p : t) : t :=
  {| _underlying := _underlying p; _underlying_owner := _underlying_owner p;
     _name := _name p; _value := _value p; _to_inc := _to_inc p; _to_add := xs;
     _to_remove := _to_remove p; _to_update := _to_update p; _to_pop := _to_pop p;
     _pseudo_nestings := _pseudo_nestings p; _pseudo_attrs := _pseudo_attrs p |}.

Definition with_remove (xs : list pyval) (p : t) : t :=
  {| _underlying := _underlying p; _underlying_owner := _underlying_owner p;
     _name := _name p; _value := _value p; _to_inc := _to_inc p; _to_add := _to_add p;
     _to_remove := xs; _to_update := _to_update p; _to_pop := _to_pop p;
     _pseudo_nestings := _pseudo_nestings p; _pseudo_attrs := _pseudo_attrs p |}.

Definition with_update (d : list (pyval * pyval)) (p : t) : t :=
  {| _underlying := _underlying p; _underlying_owner := _underlying_owner p;
     _name := _name p; _value := _value p; _to_inc := _to_inc p; _to_add := _to_add p;
     _to_remove := _to_remove p; _to_update := d; _to_pop := _to_pop p;
     _pseudo_nestings := _pseudo_nestings p; _pseudo_attrs := _pseudo_attrs p |}.

Definition with_pop (xs : list pyval) (p : t) : t :=
  {| _underlying := _underlying p; _underlying_owner := _underlying_owner p;
     _name := _name p; _value := _value p; _to_inc := _to_inc p; _to_add := _to_add p;
     _to_remove := _to_remove p; _to_update := _to_update p; _to_pop := xs;
     _pseudo_nestings := _pseudo_nestings p; _pseudo_attrs := _pseudo_attrs p |}.

Definition with_pseudo_nestings (d : list (pyval * t)) (p : t) : t :=
  {| _underlying := _underlying p; _underlying_owner := _underlying_owner p;
     _name := _name p; _value := _value p; _to_inc := _to_inc p; _to_add := _to_add p;
     _to_remove := _to_remove p; _to_update := _to_update p; _to_pop := _to_pop p;
     _pseudo_nestings := d; _pseudo_attrs := _pseudo_attrs p |}.

Definition with_pseudo_attrs (d : list (string * t)) (p : t) : t :=
  {| _underlying := _underlying p; _underlying_owner := _underlying_owner p;
     _name := _name p; _value := _value p; _to_inc := _to_inc p; _to_add := _to_add p;
     _to_remove := _to_remove p; _to_update := _to_update p; _to_pop := _to_pop p;
     _pseudo_nestings := _pseudo_nestings p; _pseudo_attrs := d |}.

Section Methods.
Context (classes : gmap string NiceClass).
(** The recursion budget of the nested constructors a scope may run. *)
Context (fuel : nat).

(** *** Inside the scope: the proxies record what is asked of them *)

(** [self.name]: the child proxy of that name, made on first use.  The
    proxy's own slots and methods are found before [__getattr__] is
    tried, and are no proxies. *)
Definition __getattr__ (self : t) (name : string) : Py t :=
  if decide (name ∈ __slots__ ++ methods) then raise Unmodelled else
  match assoc name (_pseudo_attrs self) with
  | Some sub => mret sub
  | None =>
      sub_underlying ← getattr (_underlying self) name;
      mret (__init__ name None sub_underlying (_underlying self))
  end.

(** [self.name = value], for a [value] that is no proxy.  Assigning to a
    slot name overwrites the proxy's own state. *)
Definition __setattr__ (self : t) (name : string) (value : pyval) : Py t :=
  if decide (name ∈ __slots__) then raise Unmodelled else
  match assoc name (_pseudo_attrs self) with
  | Some sub_magic =>
      mret (with_pseudo_attrs
              (assoc_set name (with_value (Some value) sub_magic) (_pseudo_attrs self)) self)
  | None =>
      sub_underlying ← getattr (_underlying self) name;
      mret (with_pseudo_attrs
              (assoc_set name (__init__ name (Some value) sub_underlying (_underlying self))
                 (_pseudo_attrs self)) self)
  end.

(** [self[key]] *)
Definition __getitem__ (self : t) (key : pyval) : Py t :=
  owner ← as_nesting (_underlying_owner self);
  match owner with
  | None => raise SyntaxError
  | Some (owner_loc, owner_node) =>
      c ← lookup_class classes (cls_name owner_node);
      match assoc (_name self) (_nice_nestings c) with
      | Some (FieldWithNestings cls d frk trk rn as _field) =>
          check_hashable key;;
          match assoc key (_pseudo_nestings self) with
          | Some sub => mret sub
          | None =>
              found ← py_get (_underlying self) key;
              sub_underlying ←
                match found with
                | VNone =>
                    child ← NiceNesting__init__ classes fuel false cls "" VNone
                              (Some owner_loc)
                              (Some (or_else rn (_name self) +:+ "." +:+ py_str (trk key)));
                    mret (VRef child)
                | _ => mret found
                end;
              mret (__init__ (py_str key) None sub_underlying (_underlying self))
          end
      | _ => raise SyntaxError
      end
  end.

(** [self[key] = value] *)
Definition __setitem__ (self : t) (key value : pyval) : Py t :=
  is_nesting ← as_nesting value;
  match is_nesting with
  | Some _ => raise ValueError
  | None =>
      check_hashable key;;
      mret (with_update (dict_set key value (_to_update self)) self)
  end.

(** [self += value] *)
Definition __iadd__ (self : t) (value : pyval) : t := with_inc value self.

Definition append (self : t) (obj : pyval) : t := with_add (_to_add self ++ [obj]) self.
Definition extend (self : t) (obj : list pyval) : t := with_add (_to_add self ++ obj) self.
Definition add (self : t) (obj : pyval) : t := with_add (_to_add self ++ [obj]) self.
Definition update (self : t) (obj : list pyval) : t := with_add (_to_add self ++ obj) self.
Definition remove (self : t) (obj : pyval) : t := with_remove (_to_remove self ++ [obj]) self.
Definition pop (self : t) (key : pyval) : t := with_pop (_to_pop self ++ [key]) self.

(** *** The statements of a scope body *)

(** How a statement reaches the proxy it acts on: [cmd.a], [cmd.a[k]],
    [cmd.a[k].b], ... *)
Inductive step :=
| Attr (name : string)
| Item (key : pyval).

Inductive action :=
| Touch                                   (* the bare expression *)
| SetAttr (name : string) (value : pyval) (* p.name = value *)
| IAdd (name : string) (value : pyval)    (* p.name += value *)
| SetItem (key value : pyval)             (* p[key] = value *)
| Append (obj : pyval)                    (* p.append(obj) *)
| Extend (obj : list pyval)               (* p.extend(obj) *)
| Add (obj : pyval)                       (* p.add(obj) *)
| Update (obj : list pyval)               (* p.update(obj) *)
| Remove (obj : pyval)                    (* p.remove(obj) *)
| Pop (key : pyval).                      (* p.pop(key) *)

Inductive stmt :=
| Do (path : list step) (a : action)
| RaiseStmt (e : exn).

(** Evaluates the path from [self]; each proxy met on the way is the one
    its parent holds under that name or key (created, and kept by the
    parent, on first use), so acting on it acts on the tree. *)
Fixpoint at_path (path : list step) (f : t → Py t) (self : t) : Py t :=
  match path with
  | [] => f self
  | Attr name :: path' =>
      sub ← __getattr__ self name;
      sub' ← at_path path' f sub;
      mret (with_pseudo_attrs (assoc_set name sub' (_pseudo_attrs self)) self)
  | Item key :: path' =>
      sub ← __getitem__ self key;
      sub' ← at_path path' f sub;
      mret (with_pseudo_nestings (assoc_set key sub' (_pseudo_nestings self)) self)
  end.

Definition perform (a : action) (p : t) : Py t :=
  match a with
  | Touch => mret p
  | SetAttr name value => __setattr__ p name value
  | IAdd name value =>
      (* tmp = p.name; tmp = tmp.__iadd__(value); p.name = tmp, the
         last being ignored by __setattr__ since tmp is a proxy *)
      if decide (name ∈ __slots__) then raise Unmodelled else
      tmp ← __getattr__ p name;
      mret (with_pseudo_attrs
              (assoc_set name (__iadd__ tmp value) (_pseudo_attrs p)) p)
  | SetItem key value => __setitem__ p key value
  | Append obj => mret (append p obj)
  | Extend obj => mret (extend p obj)
  | Add obj => mret (add p obj)
  | Update obj => mret (update p obj)
  | Remove obj => mret (remove p obj)
  | Pop key => mret (pop p key)
  end.

Definition exec (s : stmt) (cmd : t) : Py t :=
  match s with
  | Do path a => at_path path (perform a) cmd
  | RaiseStmt e => raise e
  end.

(** Runs the body to its end or to the first statement that raises;
    returns the proxy tree and the exception, if any. *)
Fixpoint exec_body (body : list stmt) (cmd : t) (h : heap) : heap * t * option exn :=
  match body with
  | [] => (h, cmd, None)
  | s :: body' =>
      match exec s cmd h with
      | (h', Ok cmd') => exec_body body' cmd' h'
      | (h', Raise e) => (h', cmd, Some e)
      end
  end.

(** *** Leaving the scope: [__aexit__] *)

(** The four buckets the leaves are compiled into. *)
Record buckets := mkBuckets {
  setters : gmap string pyval;
  unsetters : gmap string pyval;
  adders : gmap string (list pyval);
  removers : gmap string (list pyval)
}.

Definition no_buckets : buckets :=
  {| setters := ∅; unsetters := ∅; adders := ∅; removers := ∅ |}.

Definition set_setter (route : string) (v : pyval) (b : buckets) : buckets :=
  {| setters := <[route := v]> (setters b); unsetters := unsetters b;
     adders := adders b; removers := removers b |}.

Definition set_unsetter (route : string) (b : buckets) : buckets :=
  {| setters := setters b; unsetters := <[route := VStr ""]> (unsetters b);
     adders := adders b; removers := removers b |}.

(** [d[route]] on a [defaultdict(list)] *)
Definition defaultdict_get (d : gmap string (list pyval)) (route : string) : list pyval :=
  match d !! route with
  | Some value => value
  | None => []
  end.

(** [adders[route].extend(els)] *)
Definition extend_adder (route : string) (els : list pyval) (b : buckets) : buckets :=
  {| setters := setters b; unsetters := unsetters b;
     adders := <[route := defaultdict_get (adders b) route ++ els]> (adders b);
     removers := removers b |}.

Definition extend_remover (route : string) (els : list pyval) (b : buckets) : buckets :=
  {| setters := setters b; unsetters := unsetters b; adders := adders b;
     removers := <[route := defaultdict_get (removers b) route ++ els]> (removers b) |}.

(** A loop that threads an accumulator. *)
Definition fold_py {A B} (f : A → B → Py B) : list A → B → Py B :=
  fix go (xs : list A) (b : B) : Py B :=
    match xs with
    | [] => mret b
    | x :: xs' => b' ← f x b; go xs' b'
    end.

(** [_iter_leaves]: the proxies without child proxies, below [self]. *)
Fixpoint _iter_leaves (self : t) : list t :=
  let visit (magic : t) : list t :=
    match _pseudo_attrs magic, _pseudo_nestings magic with
    | [], [] => [magic]
    | _, _ => _iter_leaves magic
    end in
  flat_map (λ kv, visit kv.2) (_pseudo_attrs self)
  ++ flat_map (λ kv, visit kv.2) (_pseudo_nestings self).

(** [_inject_nesting_branches] *)
Fixpoint _inject_nesting_branches (self : t) : Py unit :=
  for_each (λ kv : pyval * t,
    present ← py_contains kv.1 (_underlying self);
    if present : bool then mret tt
    else py_setitem (_underlying self) kv.1 (_underlying kv.2)) (_pseudo_nestings self);;
  for_each (λ kv : string * t, _inject_nesting_branches kv.2) (_pseudo_attrs self);;
  for_each (λ kv : pyval * t, _inject_nesting_branches kv.2) (_pseudo_nestings self).

(** The body of the loop over the leaves, one block of the source per
    definition.  [owner] is [underlying_owner], [name] is [magic._name]. *)

Definition apply_to_set (owner : loc) (name : string) (field : FieldBase)
    (route : string) (to_set : option pyval) (b : buckets) : Py buckets :=
  match to_set with
  | Some VEllipsis =>
      d ← default field;
      setattr owner name d;;
      mret (set_unsetter route b)
  | Some v =>
      raw ← to_raw field v;
      setattr owner name v;;
      mret (set_setter route raw b)
  | None => mret b
  end.

Definition apply_to_inc (owner : loc) (name : string) (field : FieldBase)
    (route : string) (to_inc : pyval) (b : buckets) : Py buckets :=
  match to_inc with
  | VNone => mret b
  | _ =>
      cur ← getattr (VRef owner) name;
      new_value ← py_add cur to_inc;
      raw ← to_raw field new_value;
      setattr owner name new_value;;
      mret (set_setter route raw b)
  end.

(** The proxy's own list is handed to [field.to_raw] as a list object. *)
Definition apply_to_add (owner : loc) (name : string) (field : FieldBase)
    (route : string) (to_add : list pyval) (b : buckets) : Py buckets :=
  match to_add with
  | [] => mret b
  | _ =>
      staged ← new_list to_add;
      raw ← to_raw field staged;
      els ← py_iter raw;
      containter ← getattr (VRef owner) name;
      py_extend_or_update containter to_add;;
      mret (extend_adder route els b)
  end.

Definition apply_to_remove (owner : loc) (name : string) (field : FieldBase)
    (route : string) (to_remove : list pyval) (b : buckets) : Py buckets :=
  match to_remove with
  | [] => mret b
  | _ =>
      containter ← getattr (VRef owner) name;
      staged ← new_list to_remove;
      raw ← to_raw field staged;
      els ← py_iter raw;
      for_each (py_remove containter) to_remove;;
      mret (extend_remover route els b)
  end.

Definition apply_to_update (owner : loc) (name : string) (field : FieldBase)
    (route : string) (to_update : list (pyval * pyval)) (b : buckets) : Py buckets :=
  match to_update with
  | [] => mret b
  | _ =>
      match field with
      | FieldWithDict _ _ to_raw_item _ =>
          dict_attr ← getattr (VRef owner) name;
          fold_py (λ kv b,
            py_setitem dict_attr kv.1 kv.2;;
            let raw := to_raw_item kv.1 kv.2 in
            mret (set_setter (route +:+ "." +:+ py_str raw.1) raw.2 b)) to_update b
      | _ => raise SyntaxError
      end
  end.

Definition apply_to_pop (owner : loc) (name : string) (field : FieldBase)
    (route : string) (to_pop : list pyval) (b : buckets) : Py buckets :=
  match to_pop with
  | [] => mret b
  | _ =>
      dict_attr ← getattr (VRef owner) name;
      to_raw_key ←
        match field with
        | FieldWithDict _ _ to_raw_item _ =>
            mret (λ x, v ← py_get dict_attr x; mret (to_raw_item x v).1)
        | FieldWithNestings _ _ _ to_raw_key _ => mret (λ x, mret (to_raw_key x))
        | _ => raise SyntaxError
        end;
      fold_py (λ key b,
        raw_key ← (to_raw_key : pyval → Py pyval) key;
        py_pop dict_attr key;;
        mret (set_unsetter (route +:+ "." +:+ py_str raw_key) b)) to_pop b
  end.

Definition compile_leaf (magic : t) (b : buckets) : Py buckets :=
  underlying_owner ← as_nesting (_underlying_owner magic);
  match underlying_owner with
  | None => raise ValueError
  | Some (owner, owner_node) =>
      c ← lookup_class classes (cls_name owner_node);
      field ←
        match assoc (_name magic) (_fields c) with
        | Some f => mret f
        | None =>
            match assoc (_name magic) (_nice_nestings c) with
            | Some f => mret f
            | None => raise KeyError
            end
        end;
      prefix ← route_prefix owner;
      let route := prefix +:+ or_else (real_name field) (_name magic) in
      b ← apply_to_set owner (_name magic) field route (_value magic) b;
      b ← apply_to_inc owner (_name magic) field route (_to_inc magic) b;
      b ← apply_to_add owner (_name magic) field route (_to_add magic) b;
      b ← apply_to_remove owner (_name magic) field route (_to_remove magic) b;
      b ← apply_to_update owner (_name magic) field route (_to_update magic) b;
      apply_to_pop owner (_name magic) field route (_to_pop magic) b
  end.

(** [{"$each": value} if len(value) > 1 else value[0]], for every route. *)
Definition collapse (value : list pyval) : operand :=
  match value with
  | [v] => One v
  | _ => Many value
  end.

Definition collapse_all (m : gmap string (list pyval)) : Py (gmap string operand) :=
  if decide (map_Forall (λ _ value, value ≠ []) m) then mret (collapse <$> m)
  else raise IndexError.

(** The assembly of [mongo_command] and of the [upsert] flag. *)
Definition build_command (b : buckets) : Py (mongo_command * bool) :=
  let set_ := if decide (setters b = ∅) then None else Some (setters b) in
  let unset_ := if decide (unsetters b = ∅) then None else Some (unsetters b) in
  add_ ← (if decide (adders b = ∅) then mret None
          else m ← collapse_all (adders b); mret (Some m));
  pull_ ← (if decide (removers b = ∅) then mret None
           else m ← collapse_all (removers b); mret (Some m));
  mret ({| set_section := set_; unset_section := unset_;
           addToSet_section := add_; pull_section := pull_ |},
        bool_decide (setters b ≠ ∅) || bool_decide (adders b ≠ ∅)).

Definition empty_command (c : mongo_command) : bool :=
  match set_section c, unset_section c, addToSet_section c, pull_section c with
  | None, None, None, None => true
  | _, _, _, _ => false
  end.

(** Everything [__aexit__] does before it awaits the store; the result
    is the arguments of the [update_one] to send (the document's id, the
    command, the upsert flag), or [None] when the command is empty. *)
Definition compile (self : t) : Py (option (pyval * mongo_command * bool)) :=
  b ← fold_py compile_leaf (_iter_leaves self) no_buckets;
  _inject_nesting_branches self;;
  cu ← build_command b;
  if empty_command cu.1 then mret None else
  match _underlying self with
  | VNone => raise ValueError
  | VRef l =>
      doc ← document l;
      n ← load_node doc;
      mret (Some (id n, cu.1, cu.2))
  | _ => raise AttributeError
  end.

(** [__aexit__(exc, ...)].  With an exception it returns at once (and
    so does not suppress it); otherwise it compiles, sends the one
    request, and a failure of the store is its own outcome. *)
Definition __aexit__ (mongo_col : AsyncCollection) (self : t) (exc : option exn)
    (h : heap) : run unit :=
  match exc with
  | Some _ => mkRun h [] (Ok tt)
  | None =>
      match compile self h with
      | (h', Raise e) => mkRun h' [] (Raise e)
      | (h', Ok None) => mkRun h' [] (Ok tt)
      | (h', Ok (Some (i, c, u))) =>
          mkRun h' [update_one i c u] (answer_update_one mongo_col i c u)
      end
  end.

(** [NiceNesting.command_maker] *)
Definition command_maker (self : loc) : Py t :=
  prefix ← route_prefix self;
  mret (__init__ prefix None (VRef self) VNone).

(** [async with node.command_maker() as cmd: body] *)
Definition async_with (mongo_col : AsyncCollection) (node : loc) (body : list stmt)
    (h : heap) : run unit :=
  match command_maker node h with
  | (h0, Raise e) => mkRun h0 [] (Raise e)
  | (h0, Ok cmd) =>
      match exec_body body cmd h0 with
      | (h1, cmd', None) => __aexit__ mongo_col cmd' None h1
      | (h1, cmd', Some e) =>
          let r := __aexit__ mongo_col cmd' (Some e) h1 in
          match result r with
          | Ok _ => mkRun (heap_after r) (requests r) (Raise e)
          | Raise e' => r
          end
      end
  end.

(** What [async with] does once the body has run. *)
Definition finish (mongo_col : AsyncCollection) (r : heap * t * option exn) : run unit :=
  match r with
  | (h1, cmd', None) => __aexit__ mongo_col cmd' None h1
  | (h1, cmd', Some e) => mkRun h1 [] (Raise e)
  end.

End Methods.

(** *** Vocabulary for the properties *)

(** Nothing is staged on the proxy itself. *)
Definition unstaged (p : t) : Prop :=
  _value p = None ∧ _to_inc p = VNone ∧ _to_add p = [] ∧ _to_remove p = []
  ∧ _to_update p = [] ∧ _to_pop p = [].

Definition has_children (p : t) : bool :=
  match _pseudo_attrs p, _pseudo_nestings p with
  | [], [] => false
  | _, _ => true
  end.

(** What the loop of [_iter_leaves] does with one child proxy. *)
Definition visit (magic : t) : list t :=
  match _pseudo_attrs magic, _pseudo_nestings magic with
  | [], [] => [magic]
  | _, _ => _iter_leaves magic
  end.

(** The same proxy tree, where every proxy that has child proxies has lost
    what was staged on itself. *)
Fixpoint discard_inner (p : t) : t :=
  {| _underlying := _underlying p;
     _underlying_owner := _underlying_owner p;
     _name := _name p;
     _value := if has_children p then None else _value p;
     _to_inc := if has_children p then VNone else _to_inc p;
     _to_add := if has_children p then [] else _to_add p;
     _to_remove := if has_children p then [] else _to_remove p;
     _to_update := if has_children p then [] else _to_update p;
     _to_pop := if has_children p then [] else _to_pop p;
     _pseudo_nestings := map (λ kv, (kv.1, discard_inner kv.2)) (_pseudo_nestings p);
     _pseudo_attrs := map (λ kv, (kv.1, discard_inner kv.2)) (_pseudo_attrs p) |}.

End CommandMaker.

(** ** The identity cache: NiceCollection

    Clock readings ([time()]) and the lifetime are rationals; the source
    compares floats, and the comparisons below are the same ones. *)

Definition Qlt_bool (a b : Q) : bool := negb (Qle_bool b a).

Module NiceCollection.

Record t := mk {
  mongo_col : AsyncCollection;
  cache : gmap pyval loc;
  document_wrapper : string;
  cache_lifetime : option Q;
  _last_cache_check : Q
}.

(** [NiceCollection(collection, document_wrapper, cache_lifetime)], at
    clock reading [now]. *)
Definition __init__ (collection : AsyncCollection) (wrapper : string)
    (lifetime : option Q) (now : Q) : t :=
  {| mongo_col := collection; cache := ∅; document_wrapper := wrapper;
     cache_lifetime := lifetime; _last_cache_check := now |}.

Definition with_cache (c : gmap pyval loc) (self : t) : t :=
  {| mongo_col := mongo_col self; cache := c;
     document_wrapper := document_wrapper self;
     cache_lifetime := cache_lifetime self;
     _last_cache_check := _last_cache_check self |}.

(** [doc._last_used_at], when [doc] is a document of the heap. *)
Definition last_used (h : heap) (doc : loc) : option Q :=
  match h !! doc with
  | Some (ONode n) => Some (_last_used_at n)
  | _ => None
  end.

(** [now - doc._last_used_at > lifetime] *)
Definition expired (h : heap) (now lifetime : Q) (doc : loc) : bool :=
  match last_used h doc with
  | Some used => Qlt_bool lifetime (now - used)
  | None => false
  end.

(** [_verify_cache_integrity], [now] being what [time()] returns.  A
    cached value that is no instance has no [_last_used_at]. *)
Definition _verify_cache_integrity (self : t) (now : Q) : Py t :=
  match cache_lifetime self with
  | None => mret self
  | Some lifetime =>
      if Qeq_bool lifetime 0 then mret self else
      if Qlt_bool (now - _last_cache_check self) 60 then mret self else
      h ← get_heap;
      if decide (map_Forall (λ _ doc, is_Some (last_used h doc)) (cache self))
      then mret {| mongo_col := mongo_col self;
                   cache := filter (λ kd, expired h now lifetime kd.2 = false) (cache self);
                   document_wrapper := document_wrapper self;
                   cache_lifetime := cache_lifetime self;
                   _last_cache_check := now |}
      else raise AttributeError
  end.

(** [doc._last_used_at = now] *)
Definition touch (doc : loc) (now : Q) : Py unit :=
  n ← load_node doc;
  set_document_info doc (id n) now.

Section Methods.
Context (classes : gmap string NiceClass).
Context (fuel : nat).

(** [get_cached_or_minimal(id)].  [now_use] is the clock reading stored
    as the time of use, [now_check] the one the sweep takes. *)
Definition get_cached_or_minimal (self : t) (i : pyval) (now_use now_check : Q)
    : Py (t * loc) :=
  check_hashable i;;
  match cache self !! i with
  | Some doc =>
      touch doc now_use;;
      self' ← _verify_cache_integrity self now_check;
      mret (self', doc)
  | None =>
      doc ← minimal classes fuel (document_wrapper self) i now_use;
      mret (self, doc)
  end.

(** The part of [find] that follows the store's answer. *)
Definition wrap_and_cache (self : t) (i data : pyval) (now_use : Q) : Py (t * loc) :=
  data ← match data with
         | VNone => d ← alloc (ODict [(VStr "_id", i)]); mret (VRef d)
         | _ => mret data
         end;
  doc ← NiceDocument__init__ classes fuel (document_wrapper self) data now_use;
  n ← load_node doc;
  match cache_lifetime self with
  | Some lifetime =>
      if Qlt_bool 0 lifetime
      then check_hashable (id n);; mret (with_cache (<[id n := doc]> (cache self)) self, doc)
      else mret (self, doc)
  | None =>
      check_hashable (id n);; mret (with_cache (<[id n := doc]> (cache self)) self, doc)
  end.

(** [find(id)]: the collection as it is left, and the run. *)
Definition find (self : t) (i : pyval) (now_use now_check : Q) (h : heap)
    : t * run loc :=
  match check_hashable i h with
  | (h, Raise e) => (self, mkRun h [] (Raise e))
  | (h, Ok _) =>
      match cache self !! i with
      | Some doc =>
          match (touch doc now_use;; _verify_cache_integrity self now_check) h with
          | (h', Ok self') => (self', mkRun h' [] (Ok doc))
          | (h', Raise e) => (self, mkRun h' [] (Raise e))
          end
      | None =>
          match _verify_cache_integrity self now_check h with
          | (h', Raise e) => (self, mkRun h' [] (Raise e))
          | (h', Ok self') =>
              match answer_find_one (mongo_col self') i with
              | Raise e => (self', mkRun h' [find_one i] (Raise e))
              | Ok data =>
                  match wrap_and_cache self' i data now_use h' with
                  | (h'', Ok (self'', doc)) => (self'', mkRun h'' [find_one i] (Ok doc))
                  | (h'', Raise e) => (self', mkRun h'' [find_one i] (Raise e))
                  end
              end
          end
      end
  end.

(** [delete(id)] *)
Definition delete (self : t) (i : pyval) (h : heap) : t * run unit :=
  match answer_delete_one (mongo_col self) i with
  | Raise e => (self, mkRun h [delete_one i] (Raise e))
  | Ok _ =>
      match check_hashable i h with
      | (h', Ok _) => (with_cache (base.delete i (cache self)) self,
                       mkRun h' [delete_one i] (Ok tt))
      | (h', Raise e) => (self, mkRun h' [delete_one i] (Raise e))
      end
  end.

End Methods.
End NiceCollection.

(** ** A sample program

<<
    class Inner(NiceNesting):
        field = field()

    class Outer(NiceNesting):
        inner = field_with_nestings(Inner)

    class Profile(NiceNesting):
        bio = field("", alias_for="b")

    class User(NiceDocument):
        age = field(0)
        items = field_with_list()
        grid = field(default=[[1]])
        profile = nesting(Profile)
        outer = field_with_nestings(Outer)
>>
    The container defaults are objects made when the classes are defined;
    [heap0] is the heap at that point. *)

Module Sample.

Definition identity (x : pyval) : pyval := x.

Definition heap0 : heap :=
  [ ODict [];                 (* 0: default of Outer.inner *)
    OList [];                 (* 1: default of User.items *)
    OList [VInt 1];           (* 2: the inner list of the default of User.grid *)
    OList [VRef 2%nat];       (* 3: default of User.grid *)
    ODict [] ].               (* 4: default of User.outer *)

Definition Inner : NiceClass :=
  FieldExtractingMeta false [("field", Field VNone identity identity None)].

Definition Outer : NiceClass :=
  FieldExtractingMeta false
    [("inner", FieldWithNestings "Inner" (VRef 0%nat) identity identity None)].

Definition Profile : NiceClass :=
  FieldExtractingMeta false [("bio", Field (VStr "") identity identity (Some "b"))].

Definition User : NiceClass :=
  FieldExtractingMeta true
    [("age", Field (VInt 0) identity identity None);
     ("items", FieldWithContainer list_ (VRef 1%nat) identity identity None);
     ("grid", Field (VRef 3%nat) identity identity None);
     ("profile", NestingFactory "Profile" None);
     ("outer", FieldWithNestings "Outer" (VRef 4%nat) identity identity None)].

Definition classes : gmap string NiceClass :=
  list_to_map [("Inner", Inner); ("Outer", Outer); ("Profile", Profile); ("User", User)].

(** A store that acknowledges everything and holds no record. *)
Definition empty_store : AsyncCollection :=
  {| answer_update_one := λ _ _ _, Ok tt;
     answer_find_one := λ _, Ok VNone;
     answer_delete_one := λ _, Ok tt |}.

(** A store whose every request fails. *)
Definition failing_store : AsyncCollection :=
  {| answer_update_one := λ _ _ _, Raise (StoreFailure 1);
     answer_find_one := λ _, Raise (StoreFailure 1);
     answer_delete_one := λ _, Raise (StoreFailure 1) |}.

Definition fuel : nat := 8.

(** [User.minimal(7, collection)] on [heap0]: the document is object 5. *)
Definition heap1 : heap := (minimal classes fuel "User" (VInt 7) 0%Q heap0).1.
Definition user : loc := 5%nat.

(** The attribute [name] of the instance at [l], if any. *)
Definition attr (h : heap) (l : loc) (name : string) : option pyval :=
  match h !! l with
  | Some (ONode n) => attrs n !! name
  | _ => None
  end.

(** *** The cache scenario: lifetime 5, [A] and [B] found at time 0, [A]
    found again at time 70. *)

Definition users : NiceCollection.t :=
  NiceCollection.__init__ empty_store "User" (Some 5%Q) 0%Q.

Definition A : pyval := VInt 1.
Definition B : pyval := VInt 2.

Definition found_A := NiceCollection.find classes fuel users A 0%Q 0%Q heap0.
Definition found_B :=
  NiceCollection.find classes fuel found_A.1 B 0%Q 0%Q (heap_after found_A.2).
Definition found_A_again :=
  NiceCollection.find classes fuel found_B.1 A 70%Q 70%Q (heap_after found_B.2).

(** A collection whose store fails, with one cached document. *)
Definition users_offline : NiceCollection.t :=
  {| NiceCollection.mongo_col := failing_store;
     NiceCollection.cache := {[ VInt 7 := user ]};
     NiceCollection.document_wrapper := "User";
     NiceCollection.cache_lifetime := None;
     NiceCollection._last_cache_check := 0%Q |}.

(** *** A three-level graph: the record
    [{"_id": 7, "outer": {"k1": {"inner": {"k2": {"field": 1}}}}}], as
    the driver decodes it on top of [heap0], and the document made of it
    (object 10; its [Outer] is object 15, its [Inner] object 17). *)

Definition heap_wire : heap :=
  heap0 ++
  [ ODict [(VStr "field", VInt 1)];                         (* 5 *)
    ODict [(VStr "k2", VRef 5%nat)];                        (* 6 *)
    ODict [(VStr "inner", VRef 6%nat)];                     (* 7 *)
    ODict [(VStr "k1", VRef 7%nat)];                        (* 8 *)
    ODict [(VStr "_id", VInt 7); (VStr "outer", VRef 8%nat)] ].  (* 9 *)

Definition heap_nested : heap :=
  (NiceDocument__init__ classes fuel "User" (VRef 9%nat) 0%Q heap_wire).1.

(** *** Two placeholder documents: [User.minimal(7, ...)] (object 5) and
    then [User.minimal(8, ...)] (object 10). *)
Definition heap2 : heap := (minimal classes fuel "User" (VInt 8) 0%Q heap1).1.

(** [grid = field(default=[[1]])] *)
Definition grid : FieldBase := Field (VRef 3%nat) identity identity None.

(** *** Scopes on the sample documents *)

(** [cmd.profile = 5] and then [cmd.profile.bio = "x"]: the proxy of
    [profile] has a value staged and a child proxy. *)
Definition body_assign_then_child : list CommandMaker.stmt :=
  [ CommandMaker.Do [] (CommandMaker.SetAttr "profile" (VInt 5));
    CommandMaker.Do [CommandMaker.Attr "profile"] (CommandMaker.SetAttr "bio" (VStr "x")) ].

Definition body_child_only : list CommandMaker.stmt :=
  [ CommandMaker.Do [CommandMaker.Attr "profile"] (CommandMaker.SetAttr "bio" (VStr "x")) ].

(** [cmd.outer.pop("k1")] and then [cmd.outer["k9"].inner["z"].field = 3]:
    the proxy of [outer] has a key to pop and a child proxy. *)
Definition body_pop_then_child : list CommandMaker.stmt :=
  [ CommandMaker.Do [CommandMaker.Attr "outer"] (CommandMaker.Pop (VStr "k1"));
    CommandMaker.Do [CommandMaker.Attr "outer"; CommandMaker.Item (VStr "k9");
                     CommandMaker.Attr "inner"; CommandMaker.Item (VStr "z")]
      (CommandMaker.SetAttr "field" (VInt 3)) ].

(** [cmd.age = 0], the default of [age]; [cmd.age = ...]; [cmd.age = 21]. *)
Definition body_write_default : list CommandMaker.stmt :=
  [ CommandMaker.Do [] (CommandMaker.SetAttr "age" (VInt 0)) ].
Definition body_clear : list CommandMaker.stmt :=
  [ CommandMaker.Do [] (CommandMaker.SetAttr "age" VEllipsis) ].
Definition body_replace : list CommandMaker.stmt :=
  [ CommandMaker.Do [] (CommandMaker.SetAttr "age" (VInt 21)) ].

(** [cmd.age += 1] and then [cmd.age += 2]. *)
Definition body_increment_twice : list CommandMaker.stmt :=
  [ CommandMaker.Do [] (CommandMaker.IAdd "age" (VInt 1));
    CommandMaker.Do [] (CommandMaker.IAdd "age" (VInt 2)) ].

(** [cmd.age = 21] and then an exception. *)
Definition body_replace_then_raise : list CommandMaker.stmt :=
  [ CommandMaker.Do [] (CommandMaker.SetAttr "age" (VInt 21));
    CommandMaker.RaiseStmt ValueError ].

(** The proxy trees handed to [__aexit__]: what the body leaves of
    [node.command_maker()]. *)
Definition proxies_after (node : loc) (body : list CommandMaker.stmt) (h : heap)
    : CommandMaker.t :=
  match CommandMaker.command_maker node h with
  | (h0, Ok cmd) => (CommandMaker.exec_body classes fuel body cmd h0).1.2
  | (_, Raise _) => CommandMaker.__init__ "" None VNone VNone
  end.

End Sample.

(** ** A second sample: a document with a dict field and a dict of nestings

<<
    class Bin(NiceNesting):
        qty = field(default=0, alias_for="q")

    class Stock(NiceDocument):
        counts = field_with_dict(alias_for="c")
        label = field(default="")
        bins = field_with_nestings(Bin)
>>
*)

Module Inventory.

(** [lambda x, y: (x, y)], the converter of items that is used when none
    is given. *)
Definition id_ (x y : pyval) : pyval * pyval := (x, y).

(** The defaults of [counts] and of [bins], [{}], are object 0. *)
Definition heap0 : heap := [ ODict [] ].

Definition Bin : NiceClass :=
  FieldExtractingMeta false
    [("qty", Field (VInt 0) Sample.identity Sample.identity (Some "q"))].

Definition Stock : NiceClass :=
  FieldExtractingMeta true
    [("counts", FieldWithDict (VRef 0%nat) id_ id_ (Some "c"));
     ("label", Field (VStr "") Sample.identity Sample.identity None);
     ("bins", FieldWithNestings "Bin" (VRef 0%nat) Sample.identity Sample.identity None)].

Definition classes : gmap string NiceClass :=
  list_to_map [("Stock", Stock); ("Bin", Bin)].

Definition fuel : nat := 4.

(** [Stock.minimal("s1", ...)]: the document is object 1, its [counts]
    object 2, its [bins] object 3. *)
Definition heap1 : heap := (minimal classes fuel "Stock" (VStr "s1") 0%Q heap0).1.
Definition stock : loc := 1%nat.

End Inventory.

(** ** Vocabulary for the properties *)

(** [frame n m]: run on a heap of at least [n] objects, [m] leaves the
    first [n] objects as they are, and frees nothing. *)
Definition frame (n : nat) {A} (m : Py A) : Prop :=
  ∀ h h' r, m h = (h', r) → (n ≤ length h)%nat →
    take n h' = take n h ∧ (length h ≤ length h')%nat.

(** [keeps I m]: [m] leaves a heap that satisfies [I] whenever it starts
    from one. *)
Definition keeps (I : heap → Prop) {A} (m : Py A) : Prop :=
  ∀ h h' r, m h = (h', r) → I h → I h'.

(** The node at [self] is [n0] up to its attributes. *)
Definition same_header (n n0 : Nesting) : Prop :=
  cls_name n = cls_name n0 ∧ is_document n = is_document n0
  ∧ _parent n = _parent n0 ∧ _name n = _name n0 ∧ _alias n = _alias n0
  ∧ id n = id n0 ∧ _last_used_at n = _last_used_at n0.

Definition has_header (self : loc) (n0 : Nesting) (h : heap) : Prop :=
  ∃ n, h !! self = Some (ONode n) ∧ same_header n n0.

(** [grows h h']: every object of [h] is in [h'], where it was and as it
    was.  [grows_but self h h'] lets the object at [self] change. *)
Definition grows (h h' : heap) : Prop :=
  ∀ l o, h !! l = Some o → h' !! l = Some o.

Definition grows_but (self : loc) (h h' : heap) : Prop :=
  (length h ≤ length h')%nat ∧ ∀ l o, l ≠ self → h !! l = Some o → h' !! l = Some o.

(** [v] is what [copy(d)] gave at some point between [h] and [h']: [d]
    itself when it is immutable; otherwise a reference to an object that was
    not in [h] and that holds what [d] refers to in [h]. *)
Definition is_copy (h h' : heap) (d v : pyval) : Prop :=
  match d with
  | VRef l => ∀ o, h !! l = Some o → ∃ l', v = VRef l' ∧ h !! l' = None ∧ h' !! l' = Some o
  | _ => v = d
  end.

(** [nodes_kept h h']: every instance of [h] is an instance of [h'], at the
    same place and with the same header; its attributes may differ.
    [keeps_nodes m]: that holds of every run of [m]. *)
Definition nodes_kept (h h' : heap) : Prop :=
  ∀ l n, h !! l = Some (ONode n) → ∃ n', h' !! l = Some (ONode n') ∧ same_header n' n.

Definition keeps_nodes {A} (m : Py A) : Prop :=
  ∀ h h' r, m h = (h', r) → nodes_kept h h'.

(** * Properties *)

(** ** The monad *)

Lemma bind_Ok {A B} (m : Py A) (f : A → Py B) h h' a :
  m h = (h', Ok a) → (m ≫= f) h = f a h'.
Proof. intros E. unfold mbind, Py_bind. by rewrite E. Qed.

Lemma bind_Raise {A B} (m : Py A) (f : A → Py B) h h' e :
  m h = (h', Raise e) → (m ≫= f) h = (h', Raise e).
Proof. intros E. unfold mbind, Py_bind. by rewrite E. Qed.

Lemma bind_inv {A B} (m : Py A) (f : A → Py B) h h2 r :
  (m ≫= f) h = (h2, r) →
  (∃ h1 a, m h = (h1, Ok a) ∧ f a h1 = (h2, r))
  ∨ (∃ e, m h = (h2, Raise e) ∧ r = Raise e).
Proof.
  unfold mbind, Py_bind. destruct (m h) as [h1 [a|e]]; intros E.
  - left. eauto.
  - right. exists e. by simplify_eq.
Qed.

(** Splits the first bind of a hypothesis [H : (m ≫= f) h = (h', r)]. *)
Ltac bind_cases H :=
  let h1 := fresh "h" in let a := fresh "a" in let e := fresh "e" in
  let E := fresh "E" in let R := fresh "R" in
  apply bind_inv in H as [(h1 & a & E & H) | (e & E & R)];
  [| first [discriminate R | subst]].

(** ** The identity cache *)

Lemma Qlt_bool_iff (a b : Q) : Qlt_bool a b = true ↔ (a < b)%Q.
Proof.
  unfold Qlt_bool. rewrite negb_true_iff, <- not_true_iff_false, Qle_bool_iff.
  split; [apply Qnot_le_lt | apply Qlt_not_le].
Qed.

Section CacheFacts.
Import NiceCollection.

Lemma verify_unset self now h :
  cache_lifetime self = None → _verify_cache_integrity self now h = (h, Ok self).
Proof. intros E. unfold _verify_cache_integrity. by rewrite E. Qed.

Lemma verify_zero self now h lifetime :
  cache_lifetime self = Some lifetime → (lifetime == 0)%Q →
  _verify_cache_integrity self now h = (h, Ok self).
Proof.
  intros E Z0. unfold _verify_cache_integrity. rewrite E.
  apply Qeq_bool_iff in Z0. by rewrite Z0.
Qed.

Lemma verify_throttled self now h :
  (now - _last_cache_check self < 60)%Q →
  _verify_cache_integrity self now h = (h, Ok self).
Proof.
  intros L. unfold _verify_cache_integrity.
  destruct (cache_lifetime self) as [lifetime|]; [|done].
  destruct (Qeq_bool lifetime 0); [done|].
  apply Qlt_bool_iff in L. by rewrite L.
Qed.

Lemma verify_sweeps self now h lifetime :
  cache_lifetime self = Some lifetime → ¬ (lifetime == 0)%Q →
  ¬ (now - _last_cache_check self < 60)%Q →
  map_Forall (λ _ doc, is_Some (last_used h doc)) (cache self) →
  ∃ self', _verify_cache_integrity self now h = (h, Ok self')
    ∧ _last_cache_check self' = now
    ∧ cache_lifetime self' = cache_lifetime self
    ∧ ∀ k doc, cache self' !! k = Some doc ↔
        cache self !! k = Some doc
        ∧ ∃ used, last_used h doc = Some used ∧ ¬ (lifetime < now - used)%Q.
Proof.
  intros E NZ NT Hdocs. unfold _verify_cache_integrity. rewrite E.
  destruct (Qeq_bool lifetime 0) eqn:Z0; [by apply Qeq_bool_iff in Z0|].
  destruct (Qlt_bool _ 60) eqn:T; [by apply Qlt_bool_iff in T|].
  eexists. split.
  { unfold mbind, Py_bind, get_heap. rewrite decide_True by done. reflexivity. }
  simpl. split; [done|]. split; [done|].
  intros k doc. rewrite map_lookup_filter_Some. simpl.
  split.
  - intros [Hk Hx]. split; [done|].
    destruct (Hdocs k doc Hk) as [used Hu]. exists used. split; [done|].
    unfold expired in Hx. rewrite Hu in Hx.
    intros L. apply Qlt_bool_iff in L. congruence.
  - intros [Hk (used & Hu & Hn)]. split; [done|].
    unfold expired. rewrite Hu. apply not_true_iff_false.
    by rewrite Qlt_bool_iff.
Qed.
End CacheFacts.

(** C8.  With lifetime 5, [A] and [B] found at time 0 and [A] found again
    at time 70, the sweep runs on that last access and evicts [B] while [A]
    stays cached.  In general the sweep does nothing under the unset policy
    and under the policy 0 (of the documented policies, it runs under the
    positive ones only); it does nothing when less than 60 time-units have
    passed since the last sweep, and a sweep records its own time; and when
    it runs (every cached value being a document of the heap) it keeps
    exactly the entries whose time since last use does not exceed the
    lifetime. *)
Theorem expiry_sweep :
  (result Sample.found_A.2 = Ok 6%nat
   ∧ result Sample.found_B.2 = Ok 12%nat
   ∧ NiceCollection.cache Sample.found_B.1 !! Sample.A = Some 6%nat
   ∧ NiceCollection.cache Sample.found_B.1 !! Sample.B = Some 12%nat
   ∧ result Sample.found_A_again.2 = Ok 6%nat
   ∧ NiceCollection.cache Sample.found_A_again.1 !! Sample.A = Some 6%nat
   ∧ NiceCollection.cache Sample.found_A_again.1 !! Sample.B = None
   ∧ NiceCollection._last_cache_check Sample.found_A_again.1 = 70%Q)
  ∧ (∀ self now h,
       NiceCollection.cache_lifetime self = None
       ∨ (∃ lifetime, NiceCollection.cache_lifetime self = Some lifetime
                      ∧ (lifetime == 0)%Q) →
       NiceCollection._verify_cache_integrity self now h = (h, Ok self))
  ∧ (∀ self now h,
       (now - NiceCollection._last_cache_check self < 60)%Q →
       NiceCollection._verify_cache_integrity self now h = (h, Ok self))
  ∧ (∀ self now h lifetime,
       NiceCollection.cache_lifetime self = Some lifetime →
       (0 < lifetime)%Q →
       ¬ (now - NiceCollection._last_cache_check self < 60)%Q →
       map_Forall (λ _ doc, is_Some (NiceCollection.last_used h doc))
         (NiceCollection.cache self) →
       ∃ self',
         NiceCollection._verify_cache_integrity self now h = (h, Ok self')
         ∧ NiceCollection._last_cache_check self' = now
         ∧ ∀ k doc, NiceCollection.cache self' !! k = Some doc ↔
             NiceCollection.cache self !! k = Some doc
             ∧ ∃ used, NiceCollection.last_used h doc = Some used
                       ∧ ¬ (lifetime < now - used)%Q).
Proof.
  split; [by vm_compute|].
  split.
  { intros self now h [E | (lifetime & E & Z0)].
    - by apply verify_unset.
    - by eapply verify_zero. }
  split; [apply verify_throttled|].
  intros self now h lifetime E Pos NT Hdocs.
  destruct (verify_sweeps self now h lifetime E) as (self' & R & T & _ & C); try done.
  { intros Z0. rewrite Z0 in Pos. by apply Qlt_irrefl in Pos. }
  exists self'. done.
Qed.

(** C7, as the code has it.  [delete(id)] sends exactly one delete to the
    store.  When the store answers, whatever its acknowledgement and whether
    or not [id] was cached, [id] is evicted; when the store fails, the
    failure is the outcome of [delete] and the cache is left as it was. *)
Theorem delete_evicts_after_answer (self : NiceCollection.t) (i : pyval) (h : heap) :
  requests (NiceCollection.delete self i h).2 = [delete_one i]
  ∧ heap_after (NiceCollection.delete self i h).2 = h
  ∧ (∀ ack, answer_delete_one (NiceCollection.mongo_col self) i = Ok ack →
       hashable h i = true →
       result (NiceCollection.delete self i h).2 = Ok tt
       ∧ NiceCollection.cache (NiceCollection.delete self i h).1
         = delete i (NiceCollection.cache self)
       ∧ NiceCollection.cache (NiceCollection.delete self i h).1 !! i = None)
  ∧ (∀ e, answer_delete_one (NiceCollection.mongo_col self) i = Raise e →
       result (NiceCollection.delete self i h).2 = Raise e
       ∧ (NiceCollection.delete self i h).1 = self).
Proof.
  unfold NiceCollection.delete, check_hashable, mbind, Py_bind, get_heap.
  destruct (answer_delete_one _ i) as [ack|e]; simpl.
  - split; [by destruct (hashable h i)|]. split; [by destruct (hashable h i)|].
    split; [|intros e; discriminate].
    intros ack' _ Hh. rewrite Hh. simpl. repeat split. apply lookup_delete_eq.
  - split; [done|]. split; [done|]. split; [intros; discriminate|].
    by intros e' [= ->].
Qed.

Lemma delete_evicts_after_answer_witness :
  requests (NiceCollection.delete Sample.found_B.1 Sample.B
              (heap_after Sample.found_B.2)).2 = [delete_one Sample.B]
  ∧ NiceCollection.cache
      (NiceCollection.delete Sample.found_B.1 Sample.B
         (heap_after Sample.found_B.2)).1 !! Sample.B = None.
Proof.
  destruct (delete_evicts_after_answer Sample.found_B.1 Sample.B
              (heap_after Sample.found_B.2)) as (R & _ & Hok & _).
  split; [exact R|].
  destruct (Hok tt) as (_ & _ & E); [reflexivity | by vm_compute | exact E].
Defined.

(** C7 as stated fails when the store's delete raises: the eviction is
    never reached and the document stays cached. *)
Lemma delete_keeps_entry_on_store_failure :
  requests (NiceCollection.delete Sample.users_offline
              (VInt 7) Sample.heap1).2 = [delete_one (VInt 7)]
  ∧ result (NiceCollection.delete Sample.users_offline
              (VInt 7) Sample.heap1).2 = Raise (StoreFailure 1)
  ∧ NiceCollection.cache Sample.users_offline !! VInt 7 = Some Sample.user
  ∧ NiceCollection.cache
      (NiceCollection.delete Sample.users_offline
         (VInt 7) Sample.heap1).1 !! VInt 7 = Some Sample.user.
Proof. by vm_compute. Qed.

(** ** Path resolution *)


Lemma attached_functional h l d1 d2 :
  attached h l d1 → attached h l d2 → d1 = d2.
Proof.
  intros A1. revert d2. induction A1 as [l n Hl Hd | l n p d Hl Hd Hp A1 IH];
    intros d2 A2; inversion A2; simplify_eq; try congruence.
  f_equal. eauto.
Qed.

Lemma attached_chain h l d :
  attached h l d →
  ∃ c : list loc, length c = S d ∧ NoDup c
    ∧ ∀ x, x ∈ c → (x < length h)%nat ∧ ∃ j, (j ≤ d)%nat ∧ attached h x j.
Proof.
  induction 1 as [l n Hl Hd | l n p d Hl Hd Hp A IH].
  - exists [l]. split; [done|]. split; [apply NoDup_singleton|].
    intros x ->%list_elem_of_singleton. split; [by eapply lookup_lt_Some|].
    exists 0%nat. split; [done|]. by eapply attached_document.
  - destruct IH as (c & Hlen & Hnd & Hc).
    exists (l :: c). split; [simpl; by rewrite Hlen|]. split.
    + apply NoDup_cons. split; [|done]. intros Hin.
      destruct (Hc l Hin) as (_ & j & Hj & Aj).
      assert (j = S d) by (eapply attached_functional; [done|by eapply attached_child]).
      lia.
    + intros x [->|Hin]%elem_of_cons.
      * split; [by eapply lookup_lt_Some|]. exists (S d). split; [done|].
        by eapply attached_child.
      * destruct (Hc x Hin) as (? & j & ? & ?). split; [done|]. exists j. split; [lia|done].
Qed.

(** A chain of parents never repeats a node, so it is shorter than the heap. *)
Lemma attached_depth h l d : attached h l d → (d < length h)%nat.
Proof.
  intros (c & Hlen & Hnd & Hc)%attached_chain.
  assert (c ⊆+ seq 0 (length h)) as Hsub.
  { apply NoDup_submseteq; [done|]. intros x Hx. apply elem_of_seq.
    destruct (Hc x Hx). lia. }
  apply submseteq_length in Hsub. rewrite length_seq in Hsub. lia.
Qed.

Lemma load_node_Some h l n : h !! l = Some (ONode n) → load_node l h = (h, Ok n).
Proof. intros E. unfold load_node, load, mbind, Py_bind. by rewrite E. Qed.

Lemma load_Some h l o : h !! l = Some o → load l h = (h, Ok o).
Proof. intros E. unfold load. by rewrite E. Qed.

(** With enough fuel the climb succeeds, and more fuel changes nothing. *)
Lemma route_prefix_fuel_attached h l d :
  attached h l d →
  ∃ s, ∀ fuel, (d ≤ S fuel)%nat → route_prefix_fuel fuel l h = (h, Ok s).
Proof.
  induction 1 as [l n Hl Hd | l n p d Hl Hd Hp A IH].
  - exists "". intros fuel _. destruct fuel; simpl;
      (erewrite bind_Ok by (by apply load_node_Some)); by rewrite Hd.
  - destruct IH as (pre & IH). inversion A as [? pn Hpl Hpd | ? pn ? ? Hpl Hpd]; simplify_eq.
    + exists (mongo_name n +:+ "."). intros fuel _.
      destruct fuel; simpl;
        (erewrite bind_Ok by (by apply load_node_Some)); rewrite Hd, Hp;
        (erewrite bind_Ok by (by apply load_Some)); cbv beta iota; by rewrite Hpd.
    + exists (pre +:+ mongo_name n +:+ "."). intros fuel Hf.
      destruct fuel as [|fuel]; [lia|]. simpl.
      erewrite bind_Ok by (by apply load_node_Some). rewrite Hd, Hp.
      erewrite bind_Ok by (by apply load_Some). cbv beta iota. rewrite Hpd.
      erewrite bind_Ok by (apply IH; lia). done.
Qed.

Lemma route_prefix_unfold h l n p d :
  h !! l = Some (ONode n) → is_document n = false → _parent n = Some p →
  attached h p d →
  ∃ pre, route_prefix p h = (h, Ok pre)
         ∧ route_prefix l h = (h, Ok (pre +:+ mongo_name n +:+ ".")).
Proof.
  intros Hl Hd Hp A.
  assert (attached h l (S d)) as Al by (by eapply attached_child).
  pose proof (attached_depth _ _ _ Al) as Hlt.
  destruct (route_prefix_fuel_attached _ _ _ A) as (pre & Hpre).
  exists pre. unfold route_prefix, get_heap, mbind, Py_bind.
  split; [apply Hpre; lia|].
  destruct (length h) as [|fuel] eqn:Hlen; [lia|]. simpl.
  erewrite bind_Ok by (by apply load_node_Some). rewrite Hd, Hp.
  inversion A as [? pn Hpl Hpd | ? pn ? ? Hpl Hpd]; simplify_eq.
  - erewrite bind_Ok by (by apply load_Some). cbv beta iota.
    rewrite Hpd.
    specialize (Hpre 0%nat ltac:(lia)). simpl in Hpre.
    erewrite bind_Ok in Hpre by (by apply load_node_Some). rewrite Hpd in Hpre.
    unfold mret, Py_ret in *. by simplify_eq.
  - erewrite bind_Ok by (by apply load_Some). cbv beta iota.
    rewrite Hpd. erewrite bind_Ok by (apply Hpre; lia). done.
Qed.

Lemma route_prefix_document h l n :
  h !! l = Some (ONode n) → is_document n = true → route_prefix l h = (h, Ok "").
Proof.
  intros Hl Hd. unfold route_prefix, get_heap, mbind, Py_bind.
  destruct (length h); simpl;
    (erewrite bind_Ok by (by apply load_node_Some)); by rewrite Hd.
Qed.

Lemma route_prefix_detached h l n :
  h !! l = Some (ONode n) → is_document n = false → _parent n = None →
  route_prefix l h = (h, Raise ValueError).
Proof.
  intros Hl Hd Hp. unfold route_prefix, get_heap, mbind, Py_bind.
  destruct (length h); simpl;
    (erewrite bind_Ok by (by apply load_node_Some)); by rewrite Hd, Hp.
Qed.

Lemma append_cons x (a b : string) : String x a +:+ b = String x (a +:+ b).
Proof. reflexivity. Qed.

Lemma or_else_cons c s y : or_else (Some (String c s)) y = String c s.
Proof. unfold or_else. by rewrite decide_False. Qed.

Lemma append_assoc (a b c : string) : (a +:+ b) +:+ c = a +:+ b +:+ c.
Proof. induction a as [|x a IH]; [done|]. by rewrite !append_cons, IH. Qed.

(** C4.  The route prefix of a document is the empty string; that of a
    node whose parents lead to a document is its parent's route prefix, then
    its wire name, then "."; the wire name is the alias when one is set (to
    a non-empty string), the mount name when none is; on a node that is no
    document and has no parent the computation raises.  In a graph of a
    document, an [outer] nesting under key [key1] and, inside it, an [inner]
    nesting under key [key2], aliased as the nested-map descriptor aliases
    them, the dotted path of the leaf [field] is
    [outer.{key1}.inner.{key2}.field]. *)
Theorem route_prefix_resolution (h : heap) :
  (∀ l n, h !! l = Some (ONode n) → is_document n = true →
     route_prefix l h = (h, Ok ""))
  ∧ (∀ l n p d,
       h !! l = Some (ONode n) → is_document n = false → _parent n = Some p →
       attached h p d →
       ∃ pre, route_prefix p h = (h, Ok pre)
              ∧ route_prefix l h = (h, Ok (pre +:+ mongo_name n +:+ ".")))
  ∧ (∀ n, (∀ a, _alias n = Some a → a ≠ "" → mongo_name n = a)
          ∧ (_alias n = None → mongo_name n = _name n))
  ∧ (∀ l n, h !! l = Some (ONode n) → is_document n = false → _parent n = None →
       route_prefix l h = (h, Raise ValueError))
  ∧ (∀ root outer inner nr no ni key1 key2 leaf,
       h !! root = Some (ONode nr) → is_document nr = true →
       h !! outer = Some (ONode no) → is_document no = false →
       _parent no = Some root → _alias no = Some ("outer." +:+ key1) →
       h !! inner = Some (ONode ni) → is_document ni = false →
       _parent ni = Some outer → _alias ni = Some ("inner." +:+ key2) →
       real_name leaf = None →
       ∃ pre, route_prefix inner h = (h, Ok pre)
              ∧ pre +:+ or_else (real_name leaf) "field"
                = "outer." +:+ key1 +:+ ".inner." +:+ key2 +:+ ".field").
Proof.
  split; [apply route_prefix_document|].
  split; [apply route_prefix_unfold|].
  split.
  { intros n. unfold mongo_name, or_else. split.
    - intros a -> Ha. by rewrite decide_False.
    - by intros ->. }
  split; [apply route_prefix_detached|].
  intros root outer inner nr no ni key1 key2 leaf Hr Hrd Ho Hod Hop Hoa Hi Hid Hip Hia Hleaf.
  assert (attached h root 0) as Ar by (by eapply attached_document).
  assert (attached h outer 1) as Ao by (by eapply attached_child).
  destruct (route_prefix_unfold h outer no root 0%nat) as (p0 & Hp0 & Hpo); try done.
  destruct (route_prefix_unfold h inner ni outer 1%nat) as (p1 & Hp1 & Hpi); try done.
  rewrite (route_prefix_document h root nr) in Hp0 by done.
  rewrite Hpo in Hp1. simplify_eq.
  eexists. split; [exact Hpi|].
  rewrite Hleaf. unfold mongo_name. rewrite Hoa, Hia.
  replace (or_else (Some ("outer." +:+ key1)) (_name no)) with ("outer." +:+ key1)
    by (symmetry; apply or_else_cons).
  replace (or_else (Some ("inner." +:+ key2)) (_name ni)) with ("inner." +:+ key2)
    by (symmetry; apply or_else_cons).
  rewrite !append_assoc. reflexivity.
Qed.

Lemma route_prefix_resolution_witness :
  route_prefix 17%nat Sample.heap_nested = (Sample.heap_nested, Ok "outer.k1.inner.k2.")
  ∧ ∃ pre, route_prefix 17%nat Sample.heap_nested = (Sample.heap_nested, Ok pre)
           ∧ pre +:+ or_else (real_name (Field VNone Sample.identity Sample.identity None)) "field"
             = "outer.k1.inner.k2.field".
Proof.
  split; [by vm_compute|].
  destruct (route_prefix_resolution Sample.heap_nested) as (_ & _ & _ & _ & H).
  eapply (H 10%nat 15%nat 17%nat _ _ _ "k1" "k2"); by vm_compute.
Defined.

(** ** Defaults *)

Lemma copy_ref h l o :
  h !! l = Some o → copy (VRef l) h = (h ++ [o], Ok (VRef (length h))).
Proof.
  intros E. unfold copy. erewrite bind_Ok by (by apply load_Some).
  reflexivity.
Qed.

(** C5, as the code has it.  For a field whose default is a container,
    the default property, each deserialization of an absent wire value and
    each absent nested map yield a shallow copy of the default: a new object,
    at a location that held nothing before (so shared with no instance and
    different from the default itself), whose elements are the default's own
    elements; the default is left as it was.  ([minimal] assigns the default
    property of each plain field, the constructor assigns [from_raw] of the
    wire value.) *)
Theorem default_is_shallow_copy (f : FieldBase) (h : heap) (l : loc) (o : pyobj) :
  _default f = VRef l → h !! l = Some o →
  default f h = (h ++ [o], Ok (VRef (length h)))
  ∧ (is_nesting_field f = false →
       from_raw f VNone h = (h ++ [o], Ok (VRef (length h))))
  ∧ (∀ mk attr_name parent,
       is_nesting_field f = true →
       nesting_from_raw mk f VNone attr_name parent h
       = (h ++ [o], Ok (VRef (length h))))
  ∧ h !! length h = None
  ∧ l ≠ length h
  ∧ (h ++ [o]) !! length h = Some o
  ∧ (h ++ [o]) !! l = Some o.
Proof.
  intros Hd Hl.
  assert (default f h = (h ++ [o], Ok (VRef (length h)))) as D.
  { unfold default. rewrite Hd. by apply copy_ref. }
  split; [done|]. split.
  { intros Hn. destruct f; simpl in *; try done. }
  split.
  { intros mk attr_name parent Hn. destruct f; simpl in *; try done. }
  split; [by apply lookup_ge_None_2|].
  split; [apply lookup_lt_Some in Hl; lia|].
  split; [by rewrite lookup_app_r, Nat.sub_diag by done|].
  by apply lookup_app_l_Some.
Qed.

Lemma default_is_shallow_copy_witness :
  default Sample.grid Sample.heap0
  = (Sample.heap0 ++ [OList [VRef 2%nat]], Ok (VRef 5%nat))
  ∧ from_raw Sample.grid VNone Sample.heap0
    = (Sample.heap0 ++ [OList [VRef 2%nat]], Ok (VRef 5%nat)).
Proof.
  destruct (default_is_shallow_copy Sample.grid Sample.heap0 3%nat (OList [VRef 2%nat]))
    as (D & F & _); [reflexivity | reflexivity |].
  split; [exact D | exact (F eq_refl)].
Defined.

(** C5 as stated fails below the top level of a default.  The two
    placeholder documents 5 and 10 hold two different lists as [grid]
    (objects 7 and 12), and both lists hold the one inner list of the default
    (object 2); the same happens to the two documents 6 and 12 that [find]
    makes from absent records (their lists are objects 8 and 14). *)
Lemma nested_default_is_shared :
  Sample.attr Sample.heap2 5%nat "grid" = Some (VRef 7%nat)
  ∧ Sample.attr Sample.heap2 10%nat "grid" = Some (VRef 12%nat)
  ∧ Sample.heap2 !! 7%nat = Some (OList [VRef 2%nat])
  ∧ Sample.heap2 !! 12%nat = Some (OList [VRef 2%nat])
  ∧ Sample.heap2 !! 3%nat = Some (OList [VRef 2%nat])
  ∧ Sample.heap2 !! 2%nat = Some (OList [VInt 1])
  ∧ Sample.attr (heap_after Sample.found_B.2) 6%nat "grid" = Some (VRef 8%nat)
  ∧ Sample.attr (heap_after Sample.found_B.2) 12%nat "grid" = Some (VRef 14%nat)
  ∧ heap_after Sample.found_B.2 !! 8%nat = Some (OList [VRef 2%nat])
  ∧ heap_after Sample.found_B.2 !! 14%nat = Some (OList [VRef 2%nat]).
Proof. by vm_compute. Qed.

(** ** The change compiler *)

Section CompilerFacts.
Import CommandMaker.
Context (classes : gmap string NiceClass).

(** An induction principle that reaches the child proxies. *)
Lemma proxy_ind (P : t → Prop) :
  (∀ p, Forall (λ kv, P kv.2) (_pseudo_attrs p) →
        Forall (λ kv, P kv.2) (_pseudo_nestings p) → P p) →
  ∀ p, P p.
Proof.
  intros step. fix rec 1. intros [u o n v i a r up po ns ats]. apply step; simpl.
  - revert ats. fix rec_attrs 1. intros [|[k c] ats]; constructor; [apply rec | apply rec_attrs].
  - revert ns. fix rec_nestings 1. intros [|[k c] ns]; constructor; [apply rec | apply rec_nestings].
Qed.

(** *** Assembly of the command *)

Lemma build_command_upsert b h h' c u :
  build_command b h = (h', Ok (c, u)) →
  (u = true ↔ is_Some (set_section c) ∨ is_Some (addToSet_section c))
  ∧ (set_section c = None ↔ setters b = ∅)
  ∧ (unset_section c = None ↔ unsetters b = ∅)
  ∧ (addToSet_section c = None ↔ adders b = ∅)
  ∧ (pull_section c = None ↔ removers b = ∅).
Proof.
  unfold build_command. intros H.
  bind_cases H. bind_cases H. unfold mret, Py_ret in H.
  assert (a = None ↔ adders b = ∅) as Ha.
  { destruct (decide (adders b = ∅)) as [Ea|Ea].
    - unfold mret, Py_ret in E. injection E as _ <-. done.
    - bind_cases E. unfold mret, Py_ret in E. injection E as _ <-. done. }
  assert (a0 = None ↔ removers b = ∅) as Hr.
  { destruct (decide (removers b = ∅)) as [Ea|Ea].
    - unfold mret, Py_ret in E0. injection E0 as _ <-. done.
    - bind_cases E0. unfold mret, Py_ret in E0. injection E0 as _ <-. done. }
  injection H as _ <- <-. simpl.
  split.
  - rewrite orb_true_iff, !bool_decide_eq_true, <- !not_eq_None_Some.
    clear E E0. rewrite Ha. destruct (decide (setters b = ∅)) as [Es|Es].
    + split; (intros [?|?]; [done | by right]).
    + split; intros _; by left.
  - clear E E0. split; [|split; [|split]]; try done; by case_decide.
Qed.
(** *** Leaves with nothing staged *)

Lemma compile_leaf_unstaged magic b h h' b' :
  unstaged magic → compile_leaf classes magic b h = (h', Ok b') → b' = b.
Proof.
  intros (Hv & Hi & Ha & Hr & Hu & Hp) H. unfold compile_leaf in H.
  bind_cases H. destruct a as [[owner owner_node]|]; [|discriminate H].
  bind_cases H. bind_cases H. bind_cases H.
  rewrite Hv, Hi, Ha, Hr, Hu, Hp in H. simpl in H.
  unfold mbind, Py_bind, mret, Py_ret in H. by simplify_eq.
Qed.

Lemma fold_unstaged leaves b h h' b' :
  Forall unstaged leaves →
  fold_py (compile_leaf classes) leaves b h = (h', Ok b') → b' = b.
Proof.
  intros Hl. revert b h. induction Hl as [|magic leaves Hm Hl IH]; intros b h H; simpl in H.
  - unfold mret, Py_ret in H. by simplify_eq.
  - bind_cases H. apply compile_leaf_unstaged in E as ->; [|done]. by eapply IH.
Qed.

Lemma build_no_buckets h :
  build_command no_buckets h = (h, Ok (mkCommand None None None None, false)).
Proof. reflexivity. Qed.

(** What [__aexit__] sends is decided by [compile]. *)
Lemma aexit_requests mongo_col self h :
  requests (__aexit__ classes mongo_col self None h)
  = match compile classes self h with
    | (_, Ok (Some (i, c, u))) => [update_one i c u]
    | _ => []
    end.
Proof.
  unfold __aexit__. destruct (compile classes self h) as [h' [[[[i c] u]|]|e]]; done.
Qed.

Lemma compile_Some self h h' i c u :
  compile classes self h = (h', Ok (Some (i, c, u))) →
  ∃ b h1 h2 h3,
    fold_py (compile_leaf classes) (_iter_leaves self) no_buckets h = (h1, Ok b)
    ∧ build_command b h2 = (h3, Ok (c, u))
    ∧ empty_command c = false.
Proof.
  unfold compile. intros H. bind_cases H. bind_cases H. bind_cases H.
  destruct a1 as [c' u']. simpl in H.
  destruct (empty_command c') eqn:He; [discriminate H|].
  exists a, h0, h1, h2. split; [done|].
  destruct (_underlying self); try discriminate H.
  bind_cases H. bind_cases H. unfold mret, Py_ret in H. by simplify_eq.
Qed.

Lemma compile_unstaged self h :
  Forall unstaged (_iter_leaves self) →
  ∀ h' i c u, compile classes self h ≠ (h', Ok (Some (i, c, u))).
Proof.
  intros Hl h' i c u H. unfold compile in H.
  bind_cases H. apply fold_unstaged in E as ->; [|done].
  bind_cases H. bind_cases H. rewrite build_no_buckets in E0. by simplify_eq.
Qed.
End CompilerFacts.

(** C6.  Whatever the proxy tree, [__aexit__] sends no request or exactly
    one update; the command of that update is not empty, and it asks for
    upsert exactly when it has a [$set] or an [$addToSet] section (so a
    command of [$unset] and [$pull] sections alone does not).  When nothing
    is staged on any leaf, and in particular when the scope body is empty,
    no request is sent. *)
Theorem upsert_iff_set_or_addToSet classes fuel mongo_col
    (self : CommandMaker.t) (h : heap) :
  (requests (CommandMaker.__aexit__ classes mongo_col self None h) = []
   ∨ ∃ i c u,
       requests (CommandMaker.__aexit__ classes mongo_col self None h)
       = [update_one i c u])
  ∧ (∀ i c u,
       requests (CommandMaker.__aexit__ classes mongo_col self None h)
       = [update_one i c u] →
       CommandMaker.empty_command c = false
       ∧ (u = true ↔ is_Some (set_section c) ∨ is_Some (addToSet_section c))
       ∧ (set_section c = None → addToSet_section c = None → u = false))
  ∧ (Forall CommandMaker.unstaged (CommandMaker._iter_leaves self) →
       requests (CommandMaker.__aexit__ classes mongo_col self None h) = [])
  ∧ (∀ node,
       requests (CommandMaker.async_with classes fuel mongo_col node [] h) = []).
Proof.
  split.
  { rewrite aexit_requests.
    destruct (CommandMaker.compile classes self h) as [h' [[[[i c] u]|]|e]]; eauto. }
  split.
  { intros i c u. rewrite aexit_requests.
    destruct (CommandMaker.compile classes self h) as [h' [[[[i' c'] u']|]|e]] eqn:E;
      try discriminate.
    intros [= -> -> ->].
    apply compile_Some in E as (b & h1 & h2 & h3 & _ & B & Hne).
    apply build_command_upsert in B as (U & _).
    split; [done|]. split; [done|].
    intros Hs Ha. destruct u; [|done].
    destruct U as [U _]. destruct (U eq_refl) as [[x Hx]|[x Hx]]; congruence. }
  split.
  { intros Hl. rewrite aexit_requests.
    destruct (CommandMaker.compile classes self h) as [h' [[[[i c] u]|]|e]] eqn:E; try done.
    by apply compile_unstaged in E. }
  intros node. unfold CommandMaker.async_with, CommandMaker.command_maker.
  destruct (route_prefix node h) as [h0 [prefix|e]] eqn:R.
  - erewrite bind_Ok by exact R. unfold mret, Py_ret. cbn [CommandMaker.exec_body].
    rewrite aexit_requests.
    destruct (CommandMaker.compile _ _ _) as [h' [[[[i c] u]|]|e]] eqn:E;
      [exfalso|done|done].
    eapply compile_unstaged; [|exact E]. constructor.
  - erewrite bind_Raise by exact R. done.
Qed.


(** ** Only the leaves are compiled *)

Section LeafFacts.
Import CommandMaker.
Context (classes : gmap string NiceClass).


Lemma iter_leaves_unfold self :
  _iter_leaves self
  = flat_map (λ kv, visit kv.2) (_pseudo_attrs self)
    ++ flat_map (λ kv, visit kv.2) (_pseudo_nestings self).
Proof. by destruct self. Qed.

Lemma inject_unfold self :
  _inject_nesting_branches self
  = (for_each (λ kv : pyval * t,
       present ← py_contains kv.1 (_underlying self);
       if present : bool then mret tt
       else py_setitem (_underlying self) kv.1 (_underlying kv.2)) (_pseudo_nestings self);;
     for_each (λ kv : string * t, _inject_nesting_branches kv.2) (_pseudo_attrs self);;
     for_each (λ kv : pyval * t, _inject_nesting_branches kv.2) (_pseudo_nestings self)).
Proof. by destruct self. Qed.

Lemma discard_inner_leaf p : has_children p = false → discard_inner p = p.
Proof.
  destruct p as [u o n v i a r up po ns ats]. unfold has_children. simpl.
  destruct ats, ns; try done.
Qed.

Lemma underlying_discard p : _underlying (discard_inner p) = _underlying p.
Proof. by destruct p. Qed.

Lemma pseudo_attrs_discard p :
  _pseudo_attrs (discard_inner p) = map (λ kv, (kv.1, discard_inner kv.2)) (_pseudo_attrs p).
Proof. by destruct p. Qed.

Lemma pseudo_nestings_discard p :
  _pseudo_nestings (discard_inner p)
  = map (λ kv, (kv.1, discard_inner kv.2)) (_pseudo_nestings p).
Proof. by destruct p. Qed.

Lemma flat_map_map_ext {K} (f g : t → list t) (l : list (K * t)) :
  Forall (λ kv, f (discard_inner kv.2) = g kv.2) l →
  flat_map (λ kv, f kv.2) (map (λ kv, (kv.1, discard_inner kv.2)) l)
  = flat_map (λ kv, g kv.2) l.
Proof. induction 1 as [|[k c] l H _ IH]; simpl in *; [done|]. by rewrite H, IH. Qed.

Lemma visit_discard c :
  _iter_leaves (discard_inner c) = _iter_leaves c → visit (discard_inner c) = visit c.
Proof.
  intros IH. unfold visit. rewrite pseudo_attrs_discard, pseudo_nestings_discard.
  destruct (_pseudo_attrs c) as [|x xs] eqn:Ea, (_pseudo_nestings c) as [|y ys] eqn:En;
    simpl; try done.
  rewrite discard_inner_leaf; [done|]. unfold has_children. by rewrite Ea, En.
Qed.

Lemma iter_leaves_discard p : _iter_leaves (discard_inner p) = _iter_leaves p.
Proof.
  induction p as [p IHa IHn] using proxy_ind.
  rewrite !iter_leaves_unfold, pseudo_attrs_discard, pseudo_nestings_discard.
  f_equal; apply flat_map_map_ext;
    (eapply Forall_impl; [eassumption|]); intros [k c] H; by apply visit_discard.
Qed.

Lemma for_each_map {A B} (g : A → B) (f : B → Py unit) (l : list A) :
  for_each f (map g l) = for_each (λ x, f (g x)) l.
Proof. induction l as [|x l IH]; simpl; [done|]. by rewrite IH. Qed.

Lemma for_each_ext {A} (f g : A → Py unit) (l : list A) h :
  Forall (λ x, ∀ h, f x h = g x h) l → for_each f l h = for_each g l h.
Proof.
  intros H. revert h. induction H as [|x l Hx _ IH]; intros h; simpl; [done|].
  unfold mbind, Py_bind. rewrite Hx. destruct (g x h) as [h' [[]|e]]; [apply IH|done].
Qed.

Lemma bind_ext {A B} (m1 m2 : Py A) (f1 f2 : A → Py B) h :
  (∀ h, m1 h = m2 h) → (∀ a h, f1 a h = f2 a h) → (m1 ≫= f1) h = (m2 ≫= f2) h.
Proof.
  intros Hm Hf. unfold mbind, Py_bind. rewrite Hm.
  destruct (m2 h) as [h' [a|e]]; [apply Hf|done].
Qed.

Lemma inject_discard p h :
  _inject_nesting_branches (discard_inner p) h = _inject_nesting_branches p h.
Proof.
  revert h. induction p as [p IHa IHn] using proxy_ind. intros h.
  rewrite !inject_unfold, pseudo_attrs_discard, pseudo_nestings_discard, underlying_discard.
  rewrite !for_each_map.
  apply bind_ext.
  { intros h0. apply for_each_ext, Forall_forall. intros [k c] _ h1. cbn.
    by rewrite underlying_discard. }
  intros [] h0. apply bind_ext.
  { intros h1. apply for_each_ext. exact IHa. }
  intros [] h1. apply for_each_ext. exact IHn.
Qed.

Lemma compile_discard p h :
  compile classes (discard_inner p) h = compile classes p h.
Proof.
  unfold compile. rewrite iter_leaves_discard, underlying_discard.
  unfold mbind, Py_bind.
  destruct (fold_py _ _ _ h) as [h1 [b|e]]; [|done].
  rewrite inject_discard. done.
Qed.
End LeafFacts.


Lemma visit_no_children (c : CommandMaker.t) :
  Forall (λ leaf, CommandMaker.has_children leaf = false) (CommandMaker._iter_leaves c) →
  Forall (λ leaf, CommandMaker.has_children leaf = false) (CommandMaker.visit c).
Proof.
  intros H. unfold CommandMaker.visit.
  destruct (CommandMaker._pseudo_attrs c) eqn:Ea, (CommandMaker._pseudo_nestings c) eqn:En;
    try done.
  repeat constructor. unfold CommandMaker.has_children. by rewrite Ea, En.
Qed.

Lemma leaves_have_no_children (p : CommandMaker.t) :
  Forall (λ leaf, CommandMaker.has_children leaf = false) (CommandMaker._iter_leaves p).
Proof.
  induction p as [p IHa IHn] using proxy_ind.
  rewrite iter_leaves_unfold. apply Forall_app. split.
  - induction IHa as [|[k c] l H _ IH]; simpl; [constructor|].
    apply Forall_app. split; [by apply visit_no_children|done].
  - induction IHn as [|[k c] l H _ IH]; simpl; [constructor|].
    apply Forall_app. split; [by apply visit_no_children|done].
Qed.

(** C9.  Every proxy that [__aexit__] compiles is a leaf: it has no child
    proxy.  What is staged on a proxy that has child proxies is discarded:
    leaving the scope with such a tree does exactly what leaving it does
    with the tree where nothing was ever staged on those proxies (same
    requests, same heap, same outcome).  So, on the sample documents,
    [cmd.profile = 5] followed by [cmd.profile.bio = "x"] sends the [$set] of
    [profile.b] alone and leaves [profile] as it was, as if the assignment
    had not been written (alone, it raises); and [cmd.outer.pop("k1")]
    followed by [cmd.outer["k9"].inner["z"].field = 3] sends no [$unset] and
    leaves the key [k1] in the live map. *)
Theorem only_leaves_are_compiled classes mongo_col (self : CommandMaker.t)
    (exc : option exn) (h : heap) :
  Forall (λ leaf, CommandMaker.has_children leaf = false) (CommandMaker._iter_leaves self)
  ∧ CommandMaker._iter_leaves (CommandMaker.discard_inner self)
    = CommandMaker._iter_leaves self
  ∧ CommandMaker.__aexit__ classes mongo_col (CommandMaker.discard_inner self) exc h
    = CommandMaker.__aexit__ classes mongo_col self exc h
  ∧ (CommandMaker._value <$>
       assoc "profile" (CommandMaker._pseudo_attrs
         (Sample.proxies_after Sample.user Sample.body_assign_then_child Sample.heap1))
     = Some (Some (VInt 5))
     ∧ CommandMaker.async_with Sample.classes Sample.fuel Sample.empty_store Sample.user
         Sample.body_assign_then_child Sample.heap1
       = CommandMaker.async_with Sample.classes Sample.fuel Sample.empty_store Sample.user
           Sample.body_child_only Sample.heap1
     ∧ requests (CommandMaker.async_with Sample.classes Sample.fuel Sample.empty_store
                   Sample.user Sample.body_assign_then_child Sample.heap1)
       = [update_one (VInt 7)
            (mkCommand (Some {[ "profile.b" := VStr "x" ]}) None None None) true]
     ∧ Sample.attr (heap_after (CommandMaker.async_with Sample.classes Sample.fuel
                      Sample.empty_store Sample.user Sample.body_assign_then_child
                      Sample.heap1)) Sample.user "profile"
       = Sample.attr Sample.heap1 Sample.user "profile")
  ∧ (CommandMaker._to_pop <$>
       assoc "outer" (CommandMaker._pseudo_attrs
         (Sample.proxies_after 10%nat Sample.body_pop_then_child Sample.heap_nested))
     = Some [VStr "k1"]
     ∧ requests (CommandMaker.async_with Sample.classes Sample.fuel Sample.empty_store
                   10%nat Sample.body_pop_then_child Sample.heap_nested)
       = [update_one (VInt 7)
            (mkCommand (Some {[ "outer.k9.inner.z.field" := VInt 3 ]}) None None None) true]
     ∧ heap_after (CommandMaker.async_with Sample.classes Sample.fuel Sample.empty_store
                     10%nat Sample.body_pop_then_child Sample.heap_nested) !! 14%nat
       = Some (ODict [(VStr "k1", VRef 15%nat); (VStr "k9", VRef 18%nat)])).
Proof.
  split; [apply leaves_have_no_children|].
  split; [apply iter_leaves_discard|].
  split.
  { unfold CommandMaker.__aexit__. destruct exc; [done|]. by rewrite compile_discard. }
  split; by vm_compute.
Qed.

(** ** Replacing and clearing a scalar field *)

Section ScalarFacts.
Import CommandMaker.
Context (classes : gmap string NiceClass).

Lemma as_nesting_node h l n :
  h !! l = Some (ONode n) → as_nesting (VRef l) h = (h, Ok (Some (l, n))).
Proof. intros E. unfold as_nesting. erewrite bind_Ok by (by apply load_Some). done. Qed.

Lemma lookup_class_Some h cls c :
  classes !! cls = Some c → lookup_class classes cls h = (h, Ok c).
Proof. intros E. unfold lookup_class. by rewrite E. Qed.

Lemma setattr_node h l n name v :
  h !! l = Some (ONode n) →
  setattr l name v h = (<[l := ONode (with_attrs (insert name v) n)]> h, Ok tt).
Proof. intros E. unfold setattr. erewrite bind_Ok by (by apply load_node_Some). done. Qed.

Lemma copy_preserves v h h1 v' l o :
  copy v h = (h1, Ok v') → h !! l = Some o → h1 !! l = Some o.
Proof.
  intros C Hl. destruct v; simpl in C; unfold mret, Py_ret in C; simplify_eq; try done.
  bind_cases C. bind_cases C. unfold mret, Py_ret, alloc in *. simplify_eq.
  unfold load in E. destruct (h !! l0); simplify_eq. by apply lookup_app_l_Some.
Qed.

Lemma build_single_setter route v h :
  build_command (set_setter route v no_buckets) h
  = (h, Ok (mkCommand (Some {[ route := v ]}) None None None, true)).
Proof.
  unfold build_command, set_setter, no_buckets. cbn [setters unsetters adders removers].
  rewrite insert_empty.
  rewrite (decide_False (P := ({[route := v]} : gmap string pyval) = ∅))
    by apply map_non_empty_singleton.
  rewrite !decide_True by done.
  rewrite (bool_decide_eq_true_2 (({[route := v]} : gmap string pyval) ≠ ∅))
    by apply map_non_empty_singleton.
  reflexivity.
Qed.

Lemma build_single_unsetter route h :
  build_command (set_unsetter route no_buckets) h
  = (h, Ok (mkCommand None (Some {[ route := VStr "" ]}) None None, false)).
Proof.
  unfold build_command, set_unsetter, no_buckets. cbn [setters unsetters adders removers].
  rewrite insert_empty.
  rewrite (decide_False (P := ({[route := VStr ""]} : gmap string pyval) = ∅))
    by apply map_non_empty_singleton.
  rewrite !decide_True by done.
  rewrite !bool_decide_eq_false_2 by (intros H; by apply H).
  reflexivity.
Qed.

(** The leaf loop on a proxy of a scalar field that has a value staged and
    nothing else. *)
Lemma compile_leaf_scalar_value magic b h owner n c d fr tr rn prefix :
  _underlying_owner magic = VRef owner → h !! owner = Some (ONode n) →
  classes !! cls_name n = Some c →
  assoc (_name magic) (_fields c) = Some (Field d fr tr rn) →
  route_prefix owner h = (h, Ok prefix) →
  _to_inc magic = VNone → _to_add magic = [] → _to_remove magic = [] →
  _to_update magic = [] → _to_pop magic = [] →
  compile_leaf classes magic b h
  = apply_to_set owner (_name magic) (Field d fr tr rn)
      (prefix +:+ or_else rn (_name magic)) (_value magic) b h.
Proof.
  intros Ho Hn Hc Hf Hr Hi Ha Hrm Hu Hp. unfold compile_leaf.
  rewrite Ho. erewrite bind_Ok by (by apply as_nesting_node). cbv beta iota.
  erewrite bind_Ok by (by apply lookup_class_Some).
  rewrite Hf. erewrite bind_Ok by reflexivity.
  erewrite bind_Ok by exact Hr.
  rewrite Hi, Ha, Hrm, Hu, Hp. simpl.
  unfold mbind, Py_bind. destruct (apply_to_set _ _ _ _ _ _ _) as [h' [b'|e]]; done.
Qed.
End ScalarFacts.

(** C2, as the code has it.  On a proxy of a scalar field that has only a
    value staged: a value equal to the field's default is compiled into a
    [$set] entry that maps the field's dotted path to [None] (what [to_raw]
    gives for the default), so the command has a [$set] section and asks for
    upsert, and the value is assigned to the attribute; the clear sentinel is
    compiled into an [$unset] entry at the same path, with no upsert, and the
    attribute is set to the copy of the default that the default property
    has just made. *)
Theorem default_write_and_clear classes (magic : CommandMaker.t)
    (b : CommandMaker.buckets) (h : heap) owner n c d fr tr rn prefix :
  CommandMaker._underlying_owner magic = VRef owner →
  h !! owner = Some (ONode n) →
  classes !! cls_name n = Some c →
  assoc (CommandMaker._name magic) (_fields c) = Some (Field d fr tr rn) →
  route_prefix owner h = (h, Ok prefix) →
  CommandMaker._to_inc magic = VNone → CommandMaker._to_add magic = [] →
  CommandMaker._to_remove magic = [] → CommandMaker._to_update magic = [] →
  CommandMaker._to_pop magic = [] →
  (∀ v, CommandMaker._value magic = Some v → v ≠ VEllipsis →
        py_eq v d h = (h, Ok true) →
        CommandMaker.compile_leaf classes magic b h
        = (<[owner := ONode (with_attrs (insert (CommandMaker._name magic) v) n)]> h,
           Ok (CommandMaker.set_setter
                 (prefix +:+ or_else rn (CommandMaker._name magic)) VNone b))
        ∧ ∀ h', CommandMaker.build_command
                  (CommandMaker.set_setter
                     (prefix +:+ or_else rn (CommandMaker._name magic)) VNone
                     CommandMaker.no_buckets) h'
                = (h', Ok (mkCommand
                             (Some {[ prefix +:+ or_else rn (CommandMaker._name magic)
                                      := VNone ]})
                             None None None, true)))
  ∧ (∀ h1 fresh,
        CommandMaker._value magic = Some VEllipsis →
        default (Field d fr tr rn) h = (h1, Ok fresh) →
        CommandMaker.compile_leaf classes magic b h
        = (<[owner := ONode (with_attrs (insert (CommandMaker._name magic) fresh) n)]> h1,
           Ok (CommandMaker.set_unsetter
                 (prefix +:+ or_else rn (CommandMaker._name magic)) b))
        ∧ ∀ h', CommandMaker.build_command
                  (CommandMaker.set_unsetter
                     (prefix +:+ or_else rn (CommandMaker._name magic))
                     CommandMaker.no_buckets) h'
                = (h', Ok (mkCommand None
                             (Some {[ prefix +:+ or_else rn (CommandMaker._name magic)
                                      := VStr "" ]})
                             None None, false))).
Proof.
  intros Ho Hn Hc Hf Hr Hi Ha Hrm Hu Hp.
  split.
  - intros v Hv Hne Heq. split; [|intros h'; apply build_single_setter].
    erewrite compile_leaf_scalar_value by eassumption. rewrite Hv.
    unfold CommandMaker.apply_to_set.
    assert ((raw ← to_raw (Field d fr tr rn) v;
             setattr owner (CommandMaker._name magic) v;;
             mret (CommandMaker.set_setter
                     (prefix +:+ or_else rn (CommandMaker._name magic)) raw b)) h
            = (<[owner := ONode (with_attrs (insert (CommandMaker._name magic) v) n)]> h,
               Ok (CommandMaker.set_setter
                     (prefix +:+ or_else rn (CommandMaker._name magic)) VNone b))) as G.
    { assert (to_raw (Field d fr tr rn) v h = (h, Ok VNone)) as T.
      { unfold to_raw. erewrite bind_Ok by exact Heq. done. }
      erewrite bind_Ok by exact T.
      erewrite bind_Ok by (by apply setattr_node). done. }
    by destruct v.
  - intros h1 fresh Hv Hd. split; [|intros h'; apply build_single_unsetter].
    erewrite compile_leaf_scalar_value by eassumption. rewrite Hv.
    unfold CommandMaker.apply_to_set.
    erewrite bind_Ok by exact Hd.
    erewrite bind_Ok; [done|]. apply setattr_node.
    unfold default in Hd. by eapply copy_preserves.
Qed.

Lemma default_write_and_clear_witness :
  (∃ h', CommandMaker.compile_leaf Sample.classes
           (CommandMaker.__init__ "age" (Some (VInt 0)) (VInt 0) (VRef Sample.user))
           CommandMaker.no_buckets Sample.heap1
         = (h', Ok (CommandMaker.set_setter "age" VNone CommandMaker.no_buckets)))
  ∧ (∃ h', CommandMaker.compile_leaf Sample.classes
             (CommandMaker.__init__ "age" (Some VEllipsis) (VInt 0) (VRef Sample.user))
             CommandMaker.no_buckets Sample.heap1
           = (h', Ok (CommandMaker.set_unsetter "age" CommandMaker.no_buckets))).
Proof.
  split.
  - destruct (default_write_and_clear Sample.classes
                (CommandMaker.__init__ "age" (Some (VInt 0)) (VInt 0) (VRef Sample.user))
                CommandMaker.no_buckets Sample.heap1 Sample.user
                (mkNesting "User" true None "" None
                   (<["outer" := VRef 9%nat]> (<["profile" := VRef 8%nat]>
                      (<["grid" := VRef 7%nat]> (<["items" := VRef 6%nat]>
                         (<["age" := VInt 0]> ∅))))) (VInt 7) 0%Q)
                Sample.User (VInt 0) Sample.identity Sample.identity None "")
      as [W _]; try reflexivity.
    destruct (W (VInt 0)) as [E _]; [reflexivity | discriminate | reflexivity |].
    eexists. exact E.
  - destruct (default_write_and_clear Sample.classes
                (CommandMaker.__init__ "age" (Some VEllipsis) (VInt 0) (VRef Sample.user))
                CommandMaker.no_buckets Sample.heap1 Sample.user
                (mkNesting "User" true None "" None
                   (<["outer" := VRef 9%nat]> (<["profile" := VRef 8%nat]>
                      (<["grid" := VRef 7%nat]> (<["items" := VRef 6%nat]>
                         (<["age" := VInt 0]> ∅))))) (VInt 7) 0%Q)
                Sample.User (VInt 0) Sample.identity Sample.identity None "")
      as [_ C]; try reflexivity.
    destruct (C Sample.heap1 (VInt 0)) as [E _]; [reflexivity | reflexivity |].
    eexists. exact E.
Defined.

(** C2 as stated fails on its first half: writing [cmd.age = 0], the
    default of [age], sends an update whose [$set] section maps [age] to
    [None], with upsert. *)
Lemma default_write_sends_set_section :
  Sample.attr Sample.heap1 Sample.user "age" = Some (VInt 0)
  ∧ requests (CommandMaker.async_with Sample.classes Sample.fuel Sample.empty_store
                Sample.user Sample.body_write_default Sample.heap1)
    = [update_one (VInt 7) (mkCommand (Some {[ "age" := VNone ]}) None None None) true]
  ∧ requests (CommandMaker.async_with Sample.classes Sample.fuel Sample.empty_store
                Sample.user Sample.body_clear Sample.heap1)
    = [update_one (VInt 7) (mkCommand None (Some {[ "age" := VStr "" ]}) None None) false].
Proof. by vm_compute. Qed.

(** ** Store failures and aborted scopes *)

(** C1, as the code has it.  When the update sent at scope exit fails, the
    failure is the outcome of the scope, unchanged; the heap is then the one
    the compilation left, in which the staged operations have already been
    applied to the live graph: it is the same heap, after the same request,
    as under any other store, one that acknowledges included. *)
Theorem store_failure_after_mutation classes fuel mongo_col (node : loc)
    (body : list CommandMaker.stmt) (h : heap) i c u e :
  requests (CommandMaker.async_with classes fuel mongo_col node body h)
  = [update_one i c u] →
  answer_update_one mongo_col i c u = Raise e →
  result (CommandMaker.async_with classes fuel mongo_col node body h) = Raise e
  ∧ (∃ cmd h1,
       CommandMaker.compile classes cmd h1
       = (heap_after (CommandMaker.async_with classes fuel mongo_col node body h),
          Ok (Some (i, c, u))))
  ∧ ∀ mongo_col',
      heap_after (CommandMaker.async_with classes fuel mongo_col' node body h)
      = heap_after (CommandMaker.async_with classes fuel mongo_col node body h)
      ∧ requests (CommandMaker.async_with classes fuel mongo_col' node body h)
        = [update_one i c u].
Proof.
  unfold CommandMaker.async_with.
  destruct (CommandMaker.command_maker node h) as [h0 [cmd|e0]]; [|done].
  destruct (CommandMaker.exec_body classes fuel body cmd h0) as [[h1 cmd'] [e1|]]; [done|].
  unfold CommandMaker.__aexit__.
  destruct (CommandMaker.compile classes cmd' h1) as [h2 [[[[i' c'] u']|]|e2]] eqn:C;
    simpl; try done.
  intros [= -> -> ->] A. split; [done|]. split; [by exists cmd', h1|]. done.
Qed.

Lemma store_failure_after_mutation_witness :
  result (CommandMaker.async_with Sample.classes Sample.fuel Sample.failing_store
            Sample.user Sample.body_replace Sample.heap1)
  = Raise (StoreFailure 1)
  ∧ heap_after (CommandMaker.async_with Sample.classes Sample.fuel Sample.empty_store
                  Sample.user Sample.body_replace Sample.heap1)
    = heap_after (CommandMaker.async_with Sample.classes Sample.fuel Sample.failing_store
                    Sample.user Sample.body_replace Sample.heap1).
Proof.
  destruct (store_failure_after_mutation Sample.classes Sample.fuel Sample.failing_store
              Sample.user Sample.body_replace Sample.heap1 (VInt 7)
              (mkCommand (Some {[ "age" := VInt 21 ]}) None None None) true (StoreFailure 1))
    as (R & _ & S); [by vm_compute | reflexivity |].
  split; [exact R | exact (proj1 (S Sample.empty_store))].
Defined.

(** C1 as stated fails: with a store whose update fails, [cmd.age = 21]
    raises the store's failure after one request, and [age], 0 before the
    scope, is 21 after it. *)
Lemma store_failure_leaves_graph_mutated :
  Sample.attr Sample.heap1 Sample.user "age" = Some (VInt 0)
  ∧ requests (CommandMaker.async_with Sample.classes Sample.fuel Sample.failing_store
                Sample.user Sample.body_replace Sample.heap1)
    = [update_one (VInt 7) (mkCommand (Some {[ "age" := VInt 21 ]}) None None None) true]
  ∧ result (CommandMaker.async_with Sample.classes Sample.fuel Sample.failing_store
              Sample.user Sample.body_replace Sample.heap1)
    = Raise (StoreFailure 1)
  ∧ Sample.attr (heap_after (CommandMaker.async_with Sample.classes Sample.fuel
                   Sample.failing_store Sample.user Sample.body_replace Sample.heap1))
      Sample.user "age"
    = Some (VInt 21).
Proof. by vm_compute. Qed.

(** *** What a computation leaves untouched *)


Lemma frame_ret n {A} (a : A) : frame n (mret a).
Proof. intros h h' r [= <- <-] _. done. Qed.

Lemma frame_raise n {A} e : frame n (raise e : Py A).
Proof. intros h h' r [= <- <-] _. done. Qed.

Lemma frame_bind n {A B} (m : Py A) (f : A → Py B) :
  frame n m → (∀ a, frame n (f a)) → frame n (m ≫= f).
Proof.
  intros Hm Hf h h' r H Hn. bind_cases H.
  - destruct (Hm _ _ _ E Hn) as [T1 L1].
    destruct (Hf _ _ _ _ H ltac:(lia)) as [T2 L2]. split; [congruence|lia].
  - by eapply Hm.
Qed.

Lemma frame_bind_alloc n {B} o (f : loc → Py B) :
  (∀ l, (n ≤ l)%nat → frame n (f l)) → frame n (alloc o ≫= f).
Proof.
  intros Hf h h' r H Hn. unfold mbind, Py_bind, alloc in H.
  destruct (Hf (length h) Hn _ _ _ H) as [T L].
  { rewrite length_app. lia. }
  rewrite length_app in L. split; [|lia].
  rewrite T. by rewrite take_app_le.
Qed.

Lemma frame_alloc n o : frame n (alloc o).
Proof.
  intros h h' r [= <- <-] Hn. rewrite length_app. split; [|lia]. by rewrite take_app_le.
Qed.

Lemma frame_store n l o : (n ≤ l)%nat → frame n (store l o).
Proof.
  intros Hl h h' r [= <- <-] Hn. rewrite length_insert. split; [|done].
  by apply take_insert_ge.
Qed.

Lemma frame_load n l : frame n (load l).
Proof. intros h h' r H _. unfold load in H. destruct (h !! l); by simplify_eq. Qed.

Lemma frame_get_heap n : frame n get_heap.
Proof. intros h h' r [= <- <-] _. done. Qed.

Lemma frame_for_each n {A} (f : A → Py unit) xs :
  (∀ x, frame n (f x)) → frame n (for_each f xs).
Proof.
  intros Hf. induction xs as [|x xs IH]; simpl; [apply frame_ret|].
  apply frame_bind; [apply Hf|]. by intros [].
Qed.

Lemma frame_py_eq n a b : frame n (py_eq a b).
Proof.
  intros h h' r H _. unfold py_eq in H.
  destruct (py_eq_fuel _ h a b); by simplify_eq.
Qed.

Lemma frame_lookup_class n classes cls : frame n (lookup_class classes cls).
Proof. unfold lookup_class. destruct (classes !! cls); [apply frame_ret|apply frame_raise]. Qed.

Create HintDb frame.
#[local] Hint Resolve frame_ret frame_raise frame_alloc frame_load frame_get_heap
  frame_py_eq frame_lookup_class : frame.

(** One step of a proof that a computation is framed. *)
Ltac frame_step :=
  match goal with
  | |- frame _ (alloc _ ≫= _) => apply frame_bind_alloc; intros ? ?
  | |- frame _ (_ ≫= _) => apply frame_bind; [|intros ?]
  | |- frame _ (for_each _ _) => apply frame_for_each; intros ?
  | |- frame _ (store _ _) => apply frame_store; assumption
  | |- frame _ (match ?x with _ => _ end) => destruct x
  | |- frame _ _ => solve [eauto with frame]
  end.

Ltac frame_auto := repeat frame_step.

Lemma frame_load_node n l : frame n (load_node l).
Proof. unfold load_node. frame_auto. Qed.
#[local] Hint Resolve frame_load_node : frame.

Lemma frame_check_hashable n v : frame n (check_hashable v).
Proof. unfold check_hashable. frame_auto. Qed.
#[local] Hint Resolve frame_check_hashable : frame.

Lemma frame_new_list n xs : frame n (new_list xs).
Proof. unfold new_list. frame_auto. Qed.

Lemma frame_new_set n xs : frame n (new_set xs).
Proof. unfold new_set. frame_auto. Qed.

Lemma frame_new_dict n kvs : frame n (new_dict kvs).
Proof. unfold new_dict. frame_auto. Qed.
#[local] Hint Resolve frame_new_list frame_new_set frame_new_dict : frame.

Lemma frame_copy n v : frame n (copy v).
Proof. unfold copy. frame_auto. Qed.

Lemma frame_py_iter n v : frame n (py_iter v).
Proof. unfold py_iter. frame_auto. Qed.

Lemma frame_py_items n v : frame n (py_items v).
Proof. unfold py_items. frame_auto. Qed.
#[local] Hint Resolve frame_copy frame_py_iter frame_py_items : frame.

Lemma frame_py_get n v k : frame n (py_get v k).
Proof. unfold py_get. frame_auto. Qed.

Lemma frame_getattr n v name : frame n (getattr v name).
Proof. unfold getattr. frame_auto. Qed.

Lemma frame_setattr n l name v : (n ≤ l)%nat → frame n (setattr l name v).
Proof. intros Hl. unfold setattr. frame_auto. Qed.

Lemma frame_as_nesting n v : frame n (as_nesting v).
Proof. unfold as_nesting. frame_auto. Qed.
#[local] Hint Resolve frame_py_get frame_getattr frame_setattr frame_as_nesting : frame.

Lemma frame_from_raw n f v : frame n (from_raw f v).
Proof. unfold from_raw, default, new_sized. frame_auto. Qed.

Lemma frame_data_get n data name : frame n (data_get data name).
Proof. unfold data_get. frame_auto. Qed.
#[local] Hint Resolve frame_from_raw frame_data_get : frame.

Lemma frame_nesting_from_raw n mk f data attr_name parent :
  (∀ cls name d p a, frame n (mk cls name d p a)) →
  frame n (nesting_from_raw mk f data attr_name parent).
Proof. intros Hmk. unfold nesting_from_raw, default. frame_auto. Qed.

Lemma frame_NiceNesting__init__ n classes fuel as_document cls attr_name data parent alias :
  frame n (NiceNesting__init__ classes fuel as_document cls attr_name data parent alias).
Proof.
  revert as_document cls attr_name data parent alias.
  induction fuel as [|fuel IH]; intros; simpl; [apply frame_raise|].
  frame_auto. apply frame_nesting_from_raw. intros. apply IH.
Qed.
#[local] Hint Resolve frame_NiceNesting__init__ : frame.

Section BodyFacts.
Import CommandMaker.
Context (classes : gmap string NiceClass) (fuel : nat).

Lemma frame__getattr__ n self name : frame n (__getattr__ self name).
Proof. unfold __getattr__. frame_auto. Qed.

Lemma frame__setattr__ n self name value : frame n (__setattr__ self name value).
Proof. unfold __setattr__. frame_auto. Qed.

Lemma frame__getitem__ n self key : frame n (__getitem__ classes fuel self key).
Proof. unfold __getitem__. frame_auto. Qed.

Lemma frame__setitem__ n self key value : frame n (__setitem__ self key value).
Proof. unfold __setitem__. frame_auto. Qed.

Lemma frame_perform n a p : frame n (perform a p).
Proof.
  unfold perform. destruct a; try apply frame_ret;
    auto using frame__setattr__, frame__setitem__.
  destruct (decide _); [apply frame_raise|].
  apply frame_bind; [apply frame__getattr__|]. intros. apply frame_ret.
Qed.

Lemma frame_at_path n path f self :
  (∀ p, frame n (f p)) → frame n (at_path classes fuel path f self).
Proof.
  intros Hf. revert self. induction path as [|[name|key] path IH]; intros self; simpl.
  - apply Hf.
  - apply frame_bind; [apply frame__getattr__|]. intros sub.
    apply frame_bind; [apply IH|]. intros. apply frame_ret.
  - apply frame_bind; [apply frame__getitem__|]. intros sub.
    apply frame_bind; [apply IH|]. intros. apply frame_ret.
Qed.

Lemma frame_exec n s cmd : frame n (exec classes fuel s cmd).
Proof.
  destruct s; simpl; [|apply frame_raise].
  apply frame_at_path. intros. apply frame_perform.
Qed.

Lemma exec_body_frame n body cmd h h' cmd' oe :
  exec_body classes fuel body cmd h = (h', cmd', oe) → (n ≤ length h)%nat →
  take n h' = take n h ∧ (length h ≤ length h')%nat.
Proof.
  revert cmd h. induction body as [|s body IH]; intros cmd h H Hn; simpl in H.
  - by simplify_eq.
  - destruct (exec classes fuel s cmd h) as [h1 [cmd1|e]] eqn:E.
    + destruct (frame_exec n s cmd _ _ _ E Hn) as [T L].
      destruct (IH _ _ H ltac:(lia)) as [T' L']. split; [congruence|lia].
    + simplify_eq. by eapply frame_exec.
Qed.

Lemma frame_route_prefix n l : frame n (route_prefix l).
Proof.
  unfold route_prefix. apply frame_bind; [apply frame_get_heap|]. intros h.
  generalize (length h). intros k. revert l. induction k as [|k IH]; intros l; simpl.
  - frame_auto.
  - frame_auto; apply IH.
Qed.

Lemma frame_command_maker n node : frame n (command_maker node).
Proof.
  unfold command_maker. apply frame_bind; [apply frame_route_prefix|].
  intros. apply frame_ret.
Qed.

Lemma prefix_lookup (h h' : list pyobj) l o :
  take (length h) h' = take (length h) h → h !! l = Some o → h' !! l = Some o.
Proof.
  intros T Hl. rewrite firstn_all in T.
  rewrite <- (take_drop (length h) h'), T. by apply lookup_app_l_Some.
Qed.
End BodyFacts.

(** C3.  When the body of a scope raises, [__aexit__] returns at once
    without compiling anything: no request is sent, the exception of the
    body is the outcome of the scope, and every object that the heap held
    when the scope was opened, so every attribute of every live node, is as
    it was (the staging statements of the body only ever make new objects). *)
Theorem raising_body_aborts classes fuel mongo_col (node : loc)
    (body : list CommandMaker.stmt) (h h0 h1 : heap) (cmd cmd' : CommandMaker.t) (e : exn) :
  CommandMaker.command_maker node h = (h0, Ok cmd) →
  CommandMaker.exec_body classes fuel body cmd h0 = (h1, cmd', Some e) →
  CommandMaker.async_with classes fuel mongo_col node body h = mkRun h1 [] (Raise e)
  ∧ CommandMaker.__aexit__ classes mongo_col cmd' (Some e) h1 = mkRun h1 [] (Ok tt)
  ∧ ∀ l o, h !! l = Some o → h1 !! l = Some o.
Proof.
  intros C B. split; [|split; [done|]].
  - unfold CommandMaker.async_with. by rewrite C, B.
  - destruct (frame_command_maker (length h) node _ _ _ C) as [T0 L0]; [done|].
    destruct (exec_body_frame classes fuel (length h) _ _ _ _ _ _ B) as [T1 L1]; [done|].
    intros l o. apply prefix_lookup. congruence.
Qed.

Lemma raising_body_aborts_witness :
  CommandMaker.async_with Sample.classes Sample.fuel Sample.empty_store Sample.user
    Sample.body_replace_then_raise Sample.heap1
  = mkRun Sample.heap1 [] (Raise ValueError)
  ∧ Sample.attr Sample.heap1 Sample.user "age" = Some (VInt 0).
Proof.
  split; [|reflexivity].
  refine (proj1 (raising_body_aborts Sample.classes Sample.fuel Sample.empty_store
                   Sample.user Sample.body_replace_then_raise Sample.heap1 Sample.heap1
                   Sample.heap1 _ _ ValueError _ _)); by vm_compute.
Defined.

(** ** Repeated increments *)

Section IncrementFacts.
Import CommandMaker.
Context (classes : gmap string NiceClass) (fuel : nat).

Lemma assoc_set_same {K} `{EqDecision K} {A} (k : K) (x : A) d :
  assoc k (assoc_set k x d) = Some x.
Proof.
  induction d as [|[k' x'] d IH]; simpl.
  - by rewrite decide_True.
  - destruct (decide (k = k')) as [->|Hne]; simpl.
    + by rewrite decide_True.
    + by rewrite decide_False.
Qed.

Lemma assoc_set_set {K} `{EqDecision K} {A} (k : K) (x y : A) d :
  assoc_set k y (assoc_set k x d) = assoc_set k y d.
Proof.
  induction d as [|[k' x'] d IH]; simpl.
  - by rewrite decide_True.
  - destruct (decide (k = k')) as [->|Hne]; simpl.
    + by rewrite decide_True.
    + rewrite decide_False by done. by rewrite IH.
Qed.

Lemma bind_assoc {A B C} (m : Py A) (f : A → Py B) (g : B → Py C) h :
  ((m ≫= f) ≫= g) h = (m ≫= λ a, f a ≫= g) h.
Proof. unfold mbind, Py_bind. by destruct (m h) as [h' [a|e]]. Qed.

(** The second of two consecutive [p.name += v] overwrites the first. *)
Lemma iadd_twice p name v1 v2 h :
  (perform (IAdd name v1) p ≫= perform (IAdd name v2)) h
  = perform (IAdd name v2) p h.
Proof.
  unfold perform. destruct (decide (name ∈ __slots__)) as [Hs|Hs]; [done|].
  rewrite bind_assoc. unfold mbind at 1 4, Py_bind.
  destruct (__getattr__ p name h) as [h' [tmp|e]] eqn:G; [|done].
  unfold mbind, Py_bind, mret, Py_ret.
  assert (__getattr__ (with_pseudo_attrs
            (assoc_set name (__iadd__ tmp v1) (_pseudo_attrs p)) p) name h'
          = (h', Ok (__iadd__ tmp v1))) as ->.
  { unfold __getattr__ in *. destruct (decide (name ∈ __slots__ ++ methods)); [done|].
    destruct p; simpl. by rewrite assoc_set_same. }
  destruct p, tmp; simpl. by rewrite assoc_set_set.
Qed.

(** After [p.name += v], the delta staged for [name] is [v], whatever was
    staged before. *)
Lemma iadd_retains p name v h h' p' :
  perform (IAdd name v) p h = (h', Ok p') →
  ∃ sub, assoc name (_pseudo_attrs p') = Some sub ∧ _to_inc sub = v.
Proof.
  unfold perform. destruct (decide (name ∈ __slots__)); [done|]. intros H.
  bind_cases H. unfold mret, Py_ret in H. simplify_eq.
  exists (__iadd__ a v). destruct p, a; simpl. by rewrite assoc_set_same.
Qed.

(** Reads that succeeded give the same result on a heap that kept the
    objects they read. *)
Lemma as_nesting_stable v (h h1 h' : heap) r :
  as_nesting v h = (h1, Ok r) → (∀ l o, h !! l = Some o → h' !! l = Some o) →
  as_nesting v h' = (h', Ok r).
Proof.
  intros H S. destruct v; simpl in *; unfold mret, Py_ret in *; simplify_eq; try done.
  bind_cases H. unfold load in E. destruct (h !! l) as [o|] eqn:Hl; simplify_eq.
  erewrite bind_Ok by (apply load_Some; eauto).
  destruct a; unfold mret, Py_ret in *; by simplify_eq.
Qed.

Lemma check_hashable_stable v (h h1 h' : heap) :
  check_hashable v h = (h1, Ok tt) → (∀ l o, h !! l = Some o → h' !! l = Some o) →
  check_hashable v h' = (h', Ok tt).
Proof.
  unfold check_hashable, mbind, Py_bind, get_heap. intros H S.
  destruct (hashable h v) eqn:Hh; [|done].
  assert (hashable h' v = true) as ->; [|done].
  destruct v; simpl in *; try done.
  destruct (h !! l) as [o|] eqn:Hl; [|done]. by rewrite (S _ _ Hl).
Qed.

(** A proxy that [self[key]] returned is returned again, without any new
    object, once it is the one [self] holds under [key]. *)
Lemma getitem_registered self key (h h_a h_b : heap) sub sub' :
  __getitem__ classes fuel self key h = (h_a, Ok sub) →
  (∀ l o, h !! l = Some o → h_b !! l = Some o) →
  __getitem__ classes fuel
    (with_pseudo_nestings (assoc_set key sub' (_pseudo_nestings self)) self) key h_b
  = (h_b, Ok sub').
Proof.
  intros H S. unfold __getitem__ in *.
  replace (_underlying_owner (with_pseudo_nestings _ self)) with (_underlying_owner self)
    by (by destruct self).
  replace (_name (with_pseudo_nestings _ self)) with (_name self) by (by destruct self).
  replace (_pseudo_nestings (with_pseudo_nestings
             (assoc_set key sub' (_pseudo_nestings self)) self))
    with (assoc_set key sub' (_pseudo_nestings self)) by (by destruct self).
  bind_cases H.
  assert (h0 = h) as ->.
  { destruct (_underlying_owner self); simpl in E; unfold mret, Py_ret in E;
      simplify_eq; try done.
    bind_cases E. unfold load in E0. destruct (h !! l); simplify_eq.
    destruct a0; unfold mret, Py_ret in E; by simplify_eq. }
  erewrite bind_Ok by (eapply as_nesting_stable; eauto).
  destruct a as [[owner_loc owner_node]|]; [|done].
  bind_cases H. unfold lookup_class in E0.
  destruct (classes !! cls_name owner_node) as [c|] eqn:Hc; [|done].
  unfold mret, Py_ret in E0. simplify_eq.
  erewrite bind_Ok by (by apply lookup_class_Some).
  destruct (assoc (_name self) (_nice_nestings a)) as [[| | |cls d frk trk rn|]|]; try done.
  bind_cases H. destruct a0.
  erewrite bind_Ok by (eapply check_hashable_stable; [exact E0 | exact S]).
  by rewrite assoc_set_same.
Qed.
Lemma getattr_registered self name (h h0 h1 : heap) sub sub' :
  __getattr__ self name h = (h0, Ok sub) →
  __getattr__ (with_pseudo_attrs (assoc_set name sub' (_pseudo_attrs self)) self) name h1
  = (h1, Ok sub').
Proof.
  unfold __getattr__. destruct (decide (name ∈ __slots__ ++ methods)); [done|]. intros _.
  destruct self; simpl. by rewrite assoc_set_same.
Qed.

Lemma at_path_ext path f g self h :
  (∀ p h, f p h = g p h) →
  at_path classes fuel path f self h = at_path classes fuel path g self h.
Proof.
  intros Hfg. revert self h. induction path as [|[name|key] path IH]; intros self h; simpl.
  - apply Hfg.
  - apply bind_ext; [done|]. intros sub h0. apply bind_ext; [apply IH|done].
  - apply bind_ext; [done|]. intros sub h0. apply bind_ext; [apply IH|done].
Qed.

Lemma bind_cong_l {A B} (m m' : Py A) (f : A → Py B) h :
  m h = m' h → (m ≫= f) h = (m' ≫= f) h.
Proof. intros E. unfold mbind, Py_bind. by rewrite E. Qed.

Lemma bind_ext_on {A B} (m : Py A) (f1 f2 : A → Py B) h :
  (∀ a h', m h = (h', Ok a) → f1 a h' = f2 a h') → (m ≫= f1) h = (m ≫= f2) h.
Proof.
  intros Hf. unfold mbind, Py_bind. destruct (m h) as [h' [a|e]]; [by apply Hf|done].
Qed.

(** Two statements that reach the same proxy by the same path: the second
    finds the proxies the first created, so together they do what one
    statement doing both actions does. *)
Lemma at_path_compose path f1 f2 self h :
  (∀ n p, frame n (f1 p)) →
  (at_path classes fuel path f1 self ≫= at_path classes fuel path f2) h
  = at_path classes fuel path (λ p, f1 p ≫= f2) self h.
Proof.
  intros Hf. revert self h. induction path as [|[name|key] path IH]; intros self h.
  - done.
  - cbn [at_path]. rewrite bind_assoc.
    apply bind_ext_on. intros sub h0 Ga. rewrite bind_assoc.
    transitivity (((at_path classes fuel path f1 sub ≫= at_path classes fuel path f2)
                   ≫= λ sub', mret (with_pseudo_attrs
                                      (assoc_set name sub' (_pseudo_attrs self)) self)) h0);
      [|apply bind_cong_l, IH].
    rewrite bind_assoc. apply bind_ext_on. intros sub' h1 A1.
    erewrite bind_Ok by reflexivity. cbn [at_path].
    erewrite bind_Ok by (eapply getattr_registered; exact Ga).
    apply bind_ext; [done|]. intros sub2 h2.
    destruct self; simpl. by rewrite assoc_set_set.
  - cbn [at_path]. rewrite bind_assoc.
    apply bind_ext_on. intros sub h0 Ga. rewrite bind_assoc.
    transitivity (((at_path classes fuel path f1 sub ≫= at_path classes fuel path f2)
                   ≫= λ sub', mret (with_pseudo_nestings
                                      (assoc_set key sub' (_pseudo_nestings self)) self)) h0);
      [|apply bind_cong_l, IH].
    rewrite bind_assoc. apply bind_ext_on. intros sub' h1 A1.
    erewrite bind_Ok by reflexivity. cbn [at_path].
    erewrite bind_Ok; last first.
    { eapply getitem_registered; [exact Ga|].
      destruct (frame__getitem__ classes fuel (length h) self key _ _ _ Ga) as [T0 L0]; [done|].
      destruct (frame_at_path classes fuel (length h) path f1 sub (Hf _) _ _ _ A1)
        as [T1 L1]; [lia|].
      intros l o. apply prefix_lookup. congruence. }
    apply bind_ext; [done|]. intros sub2 h2.
    destruct self; simpl. by rewrite assoc_set_set.
Qed.

(** The second of two consecutive [x.name += v], for the same [x]. *)
Lemma exec_iadd_twice path name v1 v2 cmd h :
  (exec classes fuel (Do path (IAdd name v1)) cmd
   ≫= exec classes fuel (Do path (IAdd name v2))) h
  = exec classes fuel (Do path (IAdd name v2)) cmd h.
Proof.
  change ((at_path classes fuel path (perform (IAdd name v1)) cmd
           ≫= at_path classes fuel path (perform (IAdd name v2))) h
          = at_path classes fuel path (perform (IAdd name v2)) cmd h).
  rewrite at_path_compose by (intros; apply frame_perform).
  apply at_path_ext. intros p h0. apply iadd_twice.
Qed.

Lemma exec_body_app b1 b2 cmd h :
  exec_body classes fuel (b1 ++ b2) cmd h
  = match exec_body classes fuel b1 cmd h with
    | (h1, cmd1, None) => exec_body classes fuel b2 cmd1 h1
    | r => r
    end.
Proof.
  revert cmd h. induction b1 as [|s b1 IH]; intros cmd h; simpl; [done|].
  destruct (exec classes fuel s cmd h) as [h1 [cmd1|e]]; [apply IH|done].
Qed.


Lemma async_with_finish mongo_col node body h :
  async_with classes fuel mongo_col node body h
  = match command_maker node h with
    | (h0, Raise e) => mkRun h0 [] (Raise e)
    | (h0, Ok cmd) => finish classes mongo_col (exec_body classes fuel body cmd h0)
    end.
Proof.
  unfold async_with, finish.
  destruct (command_maker node h) as [h0 [cmd|e]]; [|done].
  by destruct (exec_body classes fuel body cmd h0) as [[h1 cmd'] [e|]].
Qed.

Lemma finish_iadd_twice mongo_col before after path name v1 v2 cmd h :
  finish classes mongo_col
    (exec_body classes fuel
       (before ++ Do path (IAdd name v1) :: Do path (IAdd name v2) :: after) cmd h)
  = finish classes mongo_col
      (exec_body classes fuel (before ++ Do path (IAdd name v2) :: after) cmd h).
Proof.
  rewrite !exec_body_app.
  destruct (exec_body classes fuel before cmd h) as [[h1 cmd1] [e|]]; [done|].
  pose proof (exec_iadd_twice path name v1 v2 cmd1 h1) as E.
  cbn [exec_body]. unfold mbind, Py_bind in E.
  destruct (exec classes fuel (Do path (IAdd name v1)) cmd1 h1) as [h2 [cmd2|e]].
  - rewrite E.
    by destruct (exec classes fuel (Do path (IAdd name v2)) cmd1 h1) as [h3 [cmd3|e]].
  - by rewrite <- E.
Qed.
End IncrementFacts.

Lemma py_eq_int x d (h : heap) : py_eq (VInt x) d h = (h, Ok (bool_decide (VInt x = d))).
Proof. unfold py_eq. by destruct d. Qed.

Lemma getattr_node h l n name v :
  h !! l = Some (ONode n) → attrs n !! name = Some v →
  getattr (VRef l) name h = (h, Ok v).
Proof.
  intros Hl Hv. unfold getattr. erewrite bind_Ok by (by apply load_node_Some).
  by rewrite Hv.
Qed.

(** C10.  Two consecutive [x.attr += v] on the same [x], anywhere in a
    scope body, do exactly what the second alone does: same requests, same
    heap, same outcome.  After any [x.attr += v] the delta staged for [attr]
    is [v], whatever was staged before; and at commit the delta staged on a
    proxy of an integer scalar attribute is added to the attribute's current
    value.  On the sample document, whose [age] is 0, [cmd.age += 1] then
    [cmd.age += 2] sets [age] to 2, in memory and in the command. *)
Theorem last_increment_wins classes fuel mongo_col (node : loc)
    (before after : list CommandMaker.stmt) (path : list CommandMaker.step)
    (name : string) (v1 v2 : pyval) (h : heap) :
  CommandMaker.async_with classes fuel mongo_col node
    (before ++ CommandMaker.Do path (CommandMaker.IAdd name v1)
            :: CommandMaker.Do path (CommandMaker.IAdd name v2) :: after) h
  = CommandMaker.async_with classes fuel mongo_col node
      (before ++ CommandMaker.Do path (CommandMaker.IAdd name v2) :: after) h
  ∧ (∀ p h0 h' p',
       CommandMaker.perform (CommandMaker.IAdd name v2) p h0 = (h', Ok p') →
       ∃ sub, assoc name (CommandMaker._pseudo_attrs p') = Some sub
              ∧ CommandMaker._to_inc sub = v2)
  ∧ (∀ owner n d fr tr rn route cur delta b h0,
       h0 !! owner = Some (ONode n) → attrs n !! name = Some (VInt cur) →
       ∃ raw,
         CommandMaker.apply_to_inc owner name (Field d fr tr rn) route (VInt delta) b h0
         = (<[owner := ONode (with_attrs (insert name (VInt (cur + delta))) n)]> h0,
            Ok (CommandMaker.set_setter route raw b)))
  ∧ (Sample.attr Sample.heap1 Sample.user "age" = Some (VInt 0)
     ∧ requests (CommandMaker.async_with Sample.classes Sample.fuel Sample.empty_store
                   Sample.user Sample.body_increment_twice Sample.heap1)
       = [update_one (VInt 7) (mkCommand (Some {[ "age" := VInt 2 ]}) None None None) true]
     ∧ Sample.attr (heap_after (CommandMaker.async_with Sample.classes Sample.fuel
                      Sample.empty_store Sample.user Sample.body_increment_twice
                      Sample.heap1)) Sample.user "age"
       = Some (VInt 2)).
Proof.
  split.
  { rewrite !async_with_finish.
    destruct (CommandMaker.command_maker node h) as [h0 [cmd|e]]; [|done].
    apply finish_iadd_twice. }
  split; [intros p h0 h' p'; apply iadd_retains|].
  split; [|by vm_compute].
  intros owner n d fr tr rn route cur delta b h0 Hn Ha.
  unfold CommandMaker.apply_to_inc.
  erewrite bind_Ok by (by eapply getattr_node).
  erewrite bind_Ok by reflexivity.
  unfold to_raw. rewrite bind_assoc. erewrite bind_Ok by apply py_eq_int.
  destruct (bool_decide (VInt (cur + delta) = d)).
  - exists VNone. erewrite bind_Ok by reflexivity.
    erewrite bind_Ok by (by apply setattr_node). done.
  - exists (tr (VInt (cur + delta))). erewrite bind_Ok by reflexivity.
    erewrite bind_Ok by (by apply setattr_node). done.
Qed.

(** ** Instances on the sample program *)

Lemma upsert_iff_set_or_addToSet_witness :
  requests (CommandMaker.async_with Sample.classes Sample.fuel Sample.empty_store
              Sample.user [] Sample.heap1) = []
  ∧ CommandMaker.empty_command
      (mkCommand None (Some {[ "age" := VStr "" ]}) None None) = false
  ∧ (false = true ↔
     is_Some (set_section (mkCommand None (Some {[ "age" := VStr "" ]}) None None))
     ∨ is_Some (addToSet_section (mkCommand None (Some {[ "age" := VStr "" ]}) None None))).
Proof.
  destruct (upsert_iff_set_or_addToSet Sample.classes Sample.fuel Sample.empty_store
              (Sample.proxies_after Sample.user Sample.body_clear Sample.heap1)
              Sample.heap1) as (_ & H & _ & E).
  split; [apply E|].
  destruct (H (VInt 7) (mkCommand None (Some {[ "age" := VStr "" ]}) None None) false)
    as (N & U & _); [by vm_compute|].
  split; [exact N | exact U].
Defined.

Lemma expiry_sweep_witness :
  ∃ self',
    NiceCollection._verify_cache_integrity Sample.found_B.1 70%Q (heap_after Sample.found_B.2)
    = (heap_after Sample.found_B.2, Ok self')
    ∧ NiceCollection._last_cache_check self' = 70%Q.
Proof.
  destruct expiry_sweep as (_ & _ & _ & H).
  destruct (H Sample.found_B.1 70%Q (heap_after Sample.found_B.2) 5%Q) as (self' & R & T & _).
  - reflexivity.
  - reflexivity.
  - intros L. vm_compute in L. discriminate L.
  - refine (bool_decide_unpack _ _). by vm_compute.
  - exists self'. split; [exact R | exact T].
Defined.

Lemma last_increment_wins_witness :
  CommandMaker.async_with Sample.classes Sample.fuel Sample.empty_store Sample.user
    Sample.body_increment_twice Sample.heap1
  = CommandMaker.async_with Sample.classes Sample.fuel Sample.empty_store Sample.user
      [CommandMaker.Do [] (CommandMaker.IAdd "age" (VInt 2))] Sample.heap1.
Proof.
  exact (proj1 (last_increment_wins Sample.classes Sample.fuel Sample.empty_store
                  Sample.user [] [] [] "age" (VInt 1) (VInt 2) Sample.heap1)).
Defined.

(** * Further properties of the code *)

(** ** The identity cache, beyond the claims *)

Lemma last_used_touch (h : heap) doc n now d :
  h !! doc = Some (ONode n) →
  is_Some (NiceCollection.last_used h d) →
  is_Some (NiceCollection.last_used
             (<[doc := ONode {| cls_name := cls_name n; is_document := is_document n;
                                _parent := _parent n; _name := _name n;
                                _alias := _alias n; attrs := attrs n;
                                id := id n; _last_used_at := now |}]> h) d).
Proof.
  intros Hdoc. unfold NiceCollection.last_used.
  destruct (decide (d = doc)) as [->|Hne].
  - rewrite list_lookup_insert_eq by (by eapply lookup_lt_Some). eauto.
  - by rewrite list_lookup_insert_ne.
Qed.

Lemma touch_node (h : heap) doc n now :
  h !! doc = Some (ONode n) →
  NiceCollection.touch doc now h
  = (<[doc := ONode {| cls_name := cls_name n; is_document := is_document n;
                       _parent := _parent n; _name := _name n;
                       _alias := _alias n; attrs := attrs n;
                       id := id n; _last_used_at := now |}]> h, Ok tt).
Proof.
  intros Hdoc. unfold NiceCollection.touch, set_document_info.
  erewrite bind_Ok by (by apply load_node_Some).
  erewrite bind_Ok by (by apply load_node_Some). done.
Qed.

Lemma verify_outcome (self : NiceCollection.t) (now : Q) (h : heap) :
  (NiceCollection._verify_cache_integrity self now h).1 = h
  ∧ match (NiceCollection._verify_cache_integrity self now h).2 with
    | Ok self' =>
        NiceCollection.cache self' ⊆ NiceCollection.cache self
        ∧ NiceCollection.mongo_col self' = NiceCollection.mongo_col self
        ∧ NiceCollection.document_wrapper self' = NiceCollection.document_wrapper self
        ∧ NiceCollection.cache_lifetime self' = NiceCollection.cache_lifetime self
    | Raise e =>
        e = AttributeError
        ∧ ¬ map_Forall (λ _ doc, is_Some (NiceCollection.last_used h doc))
              (NiceCollection.cache self)
    end.
Proof.
  assert (∀ P : Prop, P → (h, Ok self : outcome NiceCollection.t).1 = h
            ∧ (NiceCollection.cache self ⊆ NiceCollection.cache self
               ∧ NiceCollection.mongo_col self = NiceCollection.mongo_col self
               ∧ NiceCollection.document_wrapper self = NiceCollection.document_wrapper self
               ∧ P)) as Same by done.
  unfold NiceCollection._verify_cache_integrity.
  destruct (NiceCollection.cache_lifetime self) as [lifetime|] eqn:E; [|by apply Same].
  destruct (Qeq_bool lifetime 0); [by apply Same|].
  destruct (Qlt_bool _ 60); [by apply Same|].
  unfold mbind, Py_bind, get_heap. case_decide; simpl; [|done].
  split; [done|]. split; [apply map_filter_subseteq|done].
Qed.

(** X1.  The expiry sweep only ever evicts: it leaves the heap (and so
    every document) as it is, it keeps the store, the wrapper class and the
    lifetime of the collection, and the cache it leaves is a part of the
    cache it found.  It raises only when some cached value is no document of
    the heap, and then with [AttributeError]. *)
Theorem sweep_only_evicts (self : NiceCollection.t) (now : Q) (h : heap) :
  (NiceCollection._verify_cache_integrity self now h).1 = h
  ∧ match (NiceCollection._verify_cache_integrity self now h).2 with
    | Ok self' =>
        NiceCollection.cache self' ⊆ NiceCollection.cache self
        ∧ NiceCollection.mongo_col self' = NiceCollection.mongo_col self
        ∧ NiceCollection.document_wrapper self' = NiceCollection.document_wrapper self
        ∧ NiceCollection.cache_lifetime self' = NiceCollection.cache_lifetime self
    | Raise e =>
        e = AttributeError
        ∧ ¬ map_Forall (λ _ doc, is_Some (NiceCollection.last_used h doc))
              (NiceCollection.cache self)
    end.
Proof. apply verify_outcome. Qed.

Lemma check_hashable_true (h : heap) v :
  hashable h v = true → check_hashable v h = (h, Ok tt).
Proof. intros E. unfold check_hashable, mbind, Py_bind, get_heap. by rewrite E. Qed.

Lemma find_hit_unfold classes fuel (self : NiceCollection.t) i doc n now_use now_check
    (h : heap) :
  NiceCollection.cache self !! i = Some doc →
  h !! doc = Some (ONode n) →
  hashable h i = true →
  NiceCollection.find classes fuel self i now_use now_check h
  = match NiceCollection._verify_cache_integrity self now_check
            (<[doc := ONode {| cls_name := cls_name n; is_document := is_document n;
                               _parent := _parent n; _name := _name n;
                               _alias := _alias n; attrs := attrs n;
                               id := id n; _last_used_at := now_use |}]> h) with
    | (h', Ok self') => (self', mkRun h' [] (Ok doc))
    | (h', Raise e) => (self, mkRun h' [] (Raise e))
    end.
Proof.
  intros Hc Hdoc Hh. unfold NiceCollection.find.
  rewrite (check_hashable_true _ _ Hh), Hc.
  erewrite bind_Ok by (by apply touch_node). done.
Qed.

(** What a cache hit does. *)
Lemma find_hit_facts classes fuel (self : NiceCollection.t) (i : pyval) (doc : loc)
    (n : Nesting) (now_use now_check : Q) (h : heap) :
  NiceCollection.cache self !! i = Some doc →
  h !! doc = Some (ONode n) →
  hashable h i = true →
  map_Forall (λ _ d, is_Some (NiceCollection.last_used h d)) (NiceCollection.cache self) →
  requests (NiceCollection.find classes fuel self i now_use now_check h).2 = []
  ∧ result (NiceCollection.find classes fuel self i now_use now_check h).2 = Ok doc
  ∧ NiceCollection.last_used
      (heap_after (NiceCollection.find classes fuel self i now_use now_check h).2) doc
    = Some now_use
  ∧ (∃ n', heap_after (NiceCollection.find classes fuel self i now_use now_check h).2 !! doc
           = Some (ONode n')
           ∧ attrs n' = attrs n ∧ id n' = id n)
  ∧ (∀ l, l ≠ doc →
       heap_after (NiceCollection.find classes fuel self i now_use now_check h).2 !! l
       = h !! l)
  ∧ NiceCollection.cache (NiceCollection.find classes fuel self i now_use now_check h).1
    ⊆ NiceCollection.cache self.
Proof.
  intros Hc Hdoc Hh Hwf. erewrite find_hit_unfold by eassumption.
  set (h1 := <[doc := _]> h).
  destruct (verify_outcome self now_check h1) as [V1 V2].
  destruct (NiceCollection._verify_cache_integrity self now_check h1) as [h2 [self'|e]];
    simpl in *; subst h2.
  - destruct V2 as (Sub & _). split; [done|]. split; [done|].
    assert (h1 !! doc = Some (ONode {| cls_name := cls_name n; is_document := is_document n;
                       _parent := _parent n; _name := _name n;
                       _alias := _alias n; attrs := attrs n;
                       id := id n; _last_used_at := now_use |})) as Hl.
    { apply list_lookup_insert_eq. by eapply lookup_lt_Some. }
    split; [unfold NiceCollection.last_used; by rewrite Hl|].
    split; [eexists; split; [exact Hl|done]|].
    split; [|done]. intros l Hne. by apply list_lookup_insert_ne.
  - destruct V2 as [_ V2]. exfalso. apply V2. intros k d Hk.
    apply last_used_touch; [done|]. by apply (Hwf k d).
Qed.

(** X2.  A cache hit: when [id] is cached (and every cached value is a
    document of the heap), [find(id)] sends nothing to the store and returns
    the cached instance itself, whose time of last use is now the clock
    reading of this access; no other object of the heap changes, and the
    instance keeps its attributes and its id. *)
Theorem find_hit classes fuel (self : NiceCollection.t) (i : pyval) (doc : loc)
    (n : Nesting) (now_use now_check : Q) (h : heap) :
  NiceCollection.cache self !! i = Some doc →
  h !! doc = Some (ONode n) →
  hashable h i = true →
  map_Forall (λ _ d, is_Some (NiceCollection.last_used h d)) (NiceCollection.cache self) →
  requests (NiceCollection.find classes fuel self i now_use now_check h).2 = []
  ∧ result (NiceCollection.find classes fuel self i now_use now_check h).2 = Ok doc
  ∧ NiceCollection.last_used
      (heap_after (NiceCollection.find classes fuel self i now_use now_check h).2) doc
    = Some now_use
  ∧ (∃ n', heap_after (NiceCollection.find classes fuel self i now_use now_check h).2 !! doc
           = Some (ONode n')
           ∧ attrs n' = attrs n ∧ id n' = id n)
  ∧ (∀ l, l ≠ doc →
       heap_after (NiceCollection.find classes fuel self i now_use now_check h).2 !! l
       = h !! l)
  ∧ NiceCollection.cache (NiceCollection.find classes fuel self i now_use now_check h).1
    ⊆ NiceCollection.cache self.
Proof. apply find_hit_facts. Qed.

(** ** Construction of nodes *)

(** What lies below a frame is read the same before and after. *)
Lemma frame_lookup n {A} (m : Py A) (h h' : heap) r l :
  frame n m → m h = (h', r) → (l < n)%nat → (n ≤ length h)%nat → h' !! l = h !! l.
Proof.
  intros F E Hl Hn. destruct (F _ _ _ E Hn) as [T L].
  rewrite <- (lookup_take_lt h' n l), <- (lookup_take_lt h n l) by done. by rewrite T.
Qed.

Lemma keeps_ret (I : heap → Prop) {A} (a : A) : keeps I (mret a).
Proof. intros h h' r [= <- <-]. done. Qed.

Lemma keeps_raise (I : heap → Prop) {A} e : keeps I (raise e : Py A).
Proof. intros h h' r [= <- <-]. done. Qed.

Lemma keeps_bind (I : heap → Prop) {A B} (m : Py A) (f : A → Py B) :
  keeps I m → (∀ a, keeps I (f a)) → keeps I (m ≫= f).
Proof.
  intros Hm Hf h h' r H Hi. bind_cases H.
  - eapply Hf; [exact H|]. by eapply Hm.
  - by eapply Hm.
Qed.

Lemma keeps_for_each (I : heap → Prop) {A} (f : A → Py unit) xs :
  (∀ x, keeps I (f x)) → keeps I (for_each f xs).
Proof.
  intros Hf. induction xs as [|x xs IH]; simpl; [apply keeps_ret|].
  apply keeps_bind; [apply Hf|]. by intros [].
Qed.

(** A node stays where it is, with its header, under everything framed
    above it and under [setattr] on itself. *)
Lemma keeps_header_frame self n0 {A} (m : Py A) :
  frame (S self) m → keeps (has_header self n0) m.
Proof.
  intros F h h' r E (n & Hn & Hh). exists n. split; [|done].
  rewrite <- Hn. eapply frame_lookup; [exact F|exact E|lia|].
  apply lookup_lt_Some in Hn. lia.
Qed.

Lemma keeps_header_setattr self n0 name v :
  keeps (has_header self n0) (setattr self name v).
Proof.
  intros h h' r E (n & Hn & Hh). rewrite (setattr_node _ _ _ _ _ Hn) in E.
  injection E as <- <-. eexists. split.
  - apply list_lookup_insert_eq. by eapply lookup_lt_Some.
  - by destruct n.
Qed.

Lemma init_loops_keep_header classes fuel self n0 data c :
  keeps (has_header self n0)
    (for_each (λ nf,
       raw ← data_get data (or_else (real_name nf.2) nf.1);
       v ← from_raw nf.2 raw;
       setattr self nf.1 v) (_fields c);;
     for_each (λ nf,
       raw ← data_get data (or_else (real_name nf.2) nf.1);
       v ← nesting_from_raw (NiceNesting__init__ classes fuel false) nf.2 raw nf.1 self;
       setattr self nf.1 v) (_nice_nestings c)).
Proof.
  apply keeps_bind; [|intros []]; apply keeps_for_each; intros nf.
  - apply keeps_bind; [apply keeps_header_frame, frame_data_get|]. intros raw.
    apply keeps_bind; [apply keeps_header_frame, frame_from_raw|]. intros v.
    apply keeps_header_setattr.
  - apply keeps_bind; [apply keeps_header_frame, frame_data_get|]. intros raw.
    apply keeps_bind;
      [apply keeps_header_frame, frame_nesting_from_raw; intros;
       apply frame_NiceNesting__init__|].
    intros v. apply keeps_header_setattr.
Qed.

Lemma NiceNesting__init___node classes fuel as_document cls attr_name data parent alias
    (h h' : heap) self :
  NiceNesting__init__ classes fuel as_document cls attr_name data parent alias h
  = (h', Ok self) →
  self = length h
  ∧ has_header self
      {| cls_name := cls; is_document := as_document; _parent := parent;
         _name := attr_name; _alias := alias; attrs := ∅; id := VNone;
         _last_used_at := 0%Q |} h'.
Proof.
  destruct fuel as [|fuel]; [done|]. simpl. intros H.
  bind_cases H. destruct (negb _); [done|].
  assert (h0 = h) as ->.
  { unfold lookup_class, mret, Py_ret, raise in E. destruct (classes !! cls); by simplify_eq. }
  unfold mbind at 1, Py_bind at 1, alloc in H.
  set (n0 := {| cls_name := cls |}) in *.
  change ((for_each (λ nf,
       raw ← data_get data (or_else (real_name nf.2) nf.1);
       v ← from_raw nf.2 raw;
       setattr (length h) nf.1 v) (_fields a);;
     for_each (λ nf,
       raw ← data_get data (or_else (real_name nf.2) nf.1);
       v ← nesting_from_raw (NiceNesting__init__ classes fuel false) nf.2 raw nf.1 (length h);
       setattr (length h) nf.1 v) (_nice_nestings a);;
     mret (length h)) (h ++ [ONode n0]) = (h', Ok self)) in H.
  rewrite <- bind_assoc in H.
  bind_cases H. unfold mret, Py_ret in H. injection H as <- <-.
  split; [done|].
  eapply (init_loops_keep_header classes fuel (length h) n0 data a); [exact E0|].
  exists n0. split; [|done]. by rewrite lookup_app_r, Nat.sub_diag.
Qed.

Lemma frame_set_document_info n self i now : (n ≤ self)%nat → frame n (set_document_info self i now).
Proof. intros Hn. unfold set_document_info. frame_auto. Qed.

Lemma frame_py_getitem n data key : frame n (py_getitem data key).
Proof. unfold py_getitem. frame_auto. Qed.

Lemma frame_default n f : frame n (default f).
Proof. unfold default. frame_auto. Qed.

(** Objects that were there stay as they are under what only allocates. *)
Lemma frame_old {A} (m : Py A) (h h' : heap) r l o :
  frame (length h) m → m h = (h', r) → h !! l = Some o → h' !! l = Some o.
Proof.
  intros F E Hl. rewrite <- Hl. eapply frame_lookup; [exact F|exact E| |done].
  by eapply lookup_lt_Some.
Qed.

Lemma NiceDocument__init___node classes fuel cls d kvs i now (h h' : heap) self :
  NiceDocument__init__ classes fuel cls (VRef d) now h = (h', Ok self) →
  h !! d = Some (ODict kvs) → dict_get (VStr "_id") kvs = Some i →
  self = length h
  ∧ (∃ n, h' !! self = Some (ONode n) ∧ cls_name n = cls ∧ is_document n = true
          ∧ _parent n = None ∧ id n = i ∧ _last_used_at n = now)
  ∧ ∀ l o, h !! l = Some o → h' !! l = Some o.
Proof.
  intros H Hd Hi. unfold NiceDocument__init__ in H.
  bind_cases H. rename a into self0, h0 into h1.
  pose proof (NiceNesting__init___node _ _ _ _ _ _ _ _ _ _ _ E) as [-> (n & Hn & Hh)].
  assert (∀ l o, h !! l = Some o → h1 !! l = Some o) as Old.
  { intros l o. eapply frame_old; [apply frame_NiceNesting__init__|exact E]. }
  assert (py_getitem (VRef d) (VStr "_id") h1 = (h1, Ok i)) as G.
  { unfold py_getitem. erewrite bind_Ok by (apply load_Some; eauto). cbv beta iota. by rewrite Hi. }
  rewrite (bind_Ok _ _ _ _ _ G) in H.
  unfold set_document_info in H.
  erewrite bind_Ok in H; [|erewrite bind_Ok by (by apply load_node_Some); reflexivity].
  unfold mret, Py_ret in H. injection H as <- <-.
  split; [done|]. split.
  - eexists. split; [apply list_lookup_insert_eq; by eapply lookup_lt_Some|].
    destruct Hh as (?&?&?&?&?&?&?). simpl in *. done.
  - intros l o Hl. rewrite list_lookup_insert_ne; [by apply Old|].
    apply lookup_lt_Some in Hl. lia.
Qed.

Lemma hashable_old (h h' : heap) v :
  (∀ l o, h !! l = Some o → h' !! l = Some o) → hashable h v = true → hashable h' v = true.
Proof.
  intros Old. destruct v; simpl; try done.
  destruct (h !! l) as [o|] eqn:Hl; [|done]. by rewrite (Old _ _ Hl).
Qed.

(** The part of [find] after a miss that the store answered with "no
    record". *)
Lemma wrap_and_cache_absent classes fuel (self : NiceCollection.t) i now
    (h h' : heap) self' doc :
  NiceCollection.wrap_and_cache classes fuel self i VNone now h = (h', Ok (self', doc)) →
  doc = S (length h)
  ∧ (∃ n, h' !! doc = Some (ONode n)
          ∧ cls_name n = NiceCollection.document_wrapper self
          ∧ is_document n = true ∧ _parent n = None ∧ id n = i ∧ _last_used_at n = now)
  ∧ (∀ l o, h !! l = Some o → h' !! l = Some o)
  ∧ self' = (if match NiceCollection.cache_lifetime self with
                | Some lifetime => Qlt_bool 0 lifetime
                | None => true
                end
             then NiceCollection.with_cache (<[i := doc]> (NiceCollection.cache self)) self
             else self).
Proof.
  unfold NiceCollection.wrap_and_cache. intros H.
  rewrite bind_assoc in H. unfold mbind at 1, Py_bind at 1, alloc in H.
  erewrite bind_Ok in H by reflexivity.
  bind_cases H. rename a into doc0, h0 into h1.
  destruct (NiceDocument__init___node _ _ _ _ [(VStr "_id", i)] i _ _ _ _ E) as (-> & (n & Hn & Hc & Hdoc & Hp & Hid & Hlu) & Old).
  { by rewrite lookup_app_r, Nat.sub_diag. }
  { by vm_compute. }
  rewrite length_app in *. simpl in *. rewrite Nat.add_1_r in *.
  erewrite bind_Ok in H by (by apply load_node_Some).
  assert (∀ l o, h !! l = Some o → h1 !! l = Some o) as Old'.
  { intros l o Hl. apply Old. by apply lookup_app_l_Some. }
  destruct (NiceCollection.cache_lifetime self) as [lifetime|].
  - destruct (Qlt_bool 0 lifetime).
    + bind_cases H. unfold mret, Py_ret in H. injection H as <- <- <-.
      assert (h0 = h1) as ->.
      { unfold check_hashable, mbind, Py_bind, get_heap, mret, Py_ret, raise in E0.
        destruct (hashable h1 (id n)); by simplify_eq. }
      rewrite Hid. split; [done|]. split; [|done]. eauto 10.
    + unfold mret, Py_ret in H. injection H as <- <- <-.
      split; [done|]. split; [|done]. eauto 10.
  - bind_cases H. unfold mret, Py_ret in H. injection H as <- <- <-.
    assert (h0 = h1) as ->.
    { unfold check_hashable, mbind, Py_bind, get_heap, mret, Py_ret, raise in E0.
      destruct (hashable h1 (id n)); by simplify_eq. }
    rewrite Hid. split; [done|]. split; [|done]. eauto 10.
Qed.

Lemma find_miss_unfold classes fuel (self : NiceCollection.t) i now_use now_check
    (h : heap) :
  NiceCollection.cache self !! i = None →
  hashable h i = true →
  NiceCollection.find classes fuel self i now_use now_check h
  = match NiceCollection._verify_cache_integrity self now_check h with
    | (h', Raise e) => (self, mkRun h' [] (Raise e))
    | (h', Ok self') =>
        match answer_find_one (NiceCollection.mongo_col self') i with
        | Raise e => (self', mkRun h' [find_one i] (Raise e))
        | Ok data =>
            match NiceCollection.wrap_and_cache classes fuel self' i data now_use h' with
            | (h'', Ok (self'', doc)) => (self'', mkRun h'' [find_one i] (Ok doc))
            | (h'', Raise e) => (self', mkRun h'' [find_one i] (Raise e))
            end
        end
    end.
Proof.
  intros Hc Hh. unfold NiceCollection.find.
  by rewrite (check_hashable_true _ _ Hh), Hc.
Qed.

Lemma find_unhashable classes fuel (self : NiceCollection.t) i now_use now_check (h : heap) :
  hashable h i = false →
  NiceCollection.find classes fuel self i now_use now_check h
  = (self, mkRun h [] (Raise TypeError)).
Proof.
  intros Hh. unfold NiceCollection.find, check_hashable, mbind, Py_bind, get_heap.
  by rewrite Hh.
Qed.

(** What [find] does on a miss that the store answers with "no record". *)
Lemma find_miss_facts classes fuel (self : NiceCollection.t) (i : pyval) (doc : loc)
    (now_use now_check : Q) (h : heap) :
  NiceCollection.cache self !! i = None →
  answer_find_one (NiceCollection.mongo_col self) i = Ok VNone →
  result (NiceCollection.find classes fuel self i now_use now_check h).2 = Ok doc →
  requests (NiceCollection.find classes fuel self i now_use now_check h).2 = [find_one i]
  ∧ doc = S (length h)
  ∧ (∃ n, heap_after (NiceCollection.find classes fuel self i now_use now_check h).2 !! doc
          = Some (ONode n)
          ∧ cls_name n = NiceCollection.document_wrapper self
          ∧ is_document n = true ∧ _parent n = None
          ∧ id n = i ∧ _last_used_at n = now_use)
  ∧ (∀ l o, h !! l = Some o →
       heap_after (NiceCollection.find classes fuel self i now_use now_check h).2 !! l
       = Some o)
  ∧ NiceCollection.cache (NiceCollection.find classes fuel self i now_use now_check h).1 !! i
    = (if match NiceCollection.cache_lifetime self with
          | Some lifetime => Qlt_bool 0 lifetime
          | None => true
          end
       then Some doc else None)
  ∧ (∀ k, k ≠ i →
       NiceCollection.cache (NiceCollection.find classes fuel self i now_use now_check h).1 !! k
       = None
       ∨ NiceCollection.cache (NiceCollection.find classes fuel self i now_use now_check h).1 !! k
         = NiceCollection.cache self !! k)
  ∧ NiceCollection.cache_lifetime (NiceCollection.find classes fuel self i now_use now_check h).1
    = NiceCollection.cache_lifetime self
  ∧ NiceCollection.mongo_col (NiceCollection.find classes fuel self i now_use now_check h).1
    = NiceCollection.mongo_col self.
Proof.
  intros Hc Ha.
  destruct (hashable h i) eqn:Hh; [|by rewrite find_unhashable].
  rewrite find_miss_unfold by done.
  destruct (verify_outcome self now_check h) as [V1 V2].
  destruct (NiceCollection._verify_cache_integrity self now_check h) as [h1 [self1|e]];
    simpl in *; [subst h1|done].
  destruct V2 as (Sub & Hcol & Hw & Hl). rewrite Hcol, Ha.
  destruct (NiceCollection.wrap_and_cache classes fuel self1 i VNone now_use h)
    as [h2 [[self2 doc2]|e]] eqn:E; simpl; [|done].
  intros [= ->].
  destruct (wrap_and_cache_absent _ _ _ _ _ _ _ _ _ E) as (-> & Hn & Old & ->).
  rewrite Hw, Hl in *.
  assert (NiceCollection.cache self1 !! i = None) as Hc1.
  { destruct (NiceCollection.cache self1 !! i) as [d|] eqn:E1; [|done].
    by rewrite (lookup_weaken _ _ _ _ E1 Sub) in Hc. }
  assert (∀ k, NiceCollection.cache self1 !! k = None
               ∨ NiceCollection.cache self1 !! k = NiceCollection.cache self !! k) as Hk.
  { intros k. destruct (NiceCollection.cache self1 !! k) as [d|] eqn:E1; [right|by left].
    by rewrite (lookup_weaken _ _ _ _ E1 Sub). }
  split; [done|]. split; [done|]. split; [done|]. split; [done|].
  destruct (match NiceCollection.cache_lifetime self with
            | Some lifetime => Qlt_bool 0 lifetime
            | None => true
            end); simpl.
  - split; [by rewrite lookup_insert_eq|].
    split; [|done]. intros k Hne. rewrite lookup_insert_ne by done. apply Hk.
  - split; [done|]. split; [|done]. intros k _. apply Hk.
Qed.

(** X3.  A cache miss that the store answers with "no record": [find(id)]
    sends exactly one [find_one] for that id and, when it returns, returns a
    new instance of the collection's wrapper class, a root document whose
    id is the id asked for and whose time of last use is this access.
    Every object that was there is as it was.  The instance is cached under
    the id when the lifetime is unset or positive and is not cached
    otherwise; any other key is either as it was or evicted. *)
Theorem find_miss classes fuel (self : NiceCollection.t) (i : pyval) (doc : loc)
    (now_use now_check : Q) (h : heap) :
  NiceCollection.cache self !! i = None →
  answer_find_one (NiceCollection.mongo_col self) i = Ok VNone →
  result (NiceCollection.find classes fuel self i now_use now_check h).2 = Ok doc →
  requests (NiceCollection.find classes fuel self i now_use now_check h).2 = [find_one i]
  ∧ h !! doc = None
  ∧ (∃ n, heap_after (NiceCollection.find classes fuel self i now_use now_check h).2 !! doc
          = Some (ONode n)
          ∧ cls_name n = NiceCollection.document_wrapper self
          ∧ is_document n = true ∧ _parent n = None
          ∧ id n = i ∧ _last_used_at n = now_use)
  ∧ (∀ l o, h !! l = Some o →
       heap_after (NiceCollection.find classes fuel self i now_use now_check h).2 !! l
       = Some o)
  ∧ NiceCollection.cache (NiceCollection.find classes fuel self i now_use now_check h).1 !! i
    = (if match NiceCollection.cache_lifetime self with
          | Some lifetime => Qlt_bool 0 lifetime
          | None => true
          end
       then Some doc else None)
  ∧ (∀ k, k ≠ i →
       NiceCollection.cache (NiceCollection.find classes fuel self i now_use now_check h).1 !! k
       = None
       ∨ NiceCollection.cache (NiceCollection.find classes fuel self i now_use now_check h).1 !! k
         = NiceCollection.cache self !! k).
Proof.
  intros Hc Ha Hr.
  destruct (find_miss_facts _ _ _ _ _ _ _ _ Hc Ha Hr) as (H1 & -> & H3 & H4 & H5 & H6 & _).
  split; [done|]. split; [apply lookup_ge_None; lia|]. done.
Qed.

Lemma find_miss_witness :
  requests Sample.found_A.2 = [find_one Sample.A]
  ∧ Sample.heap0 !! 6%nat = None.
Proof.
  destruct (find_miss Sample.classes Sample.fuel Sample.users Sample.A 6%nat 0%Q 0%Q
              Sample.heap0) as (H1 & H2 & _); [by vm_compute..|].
  split; [exact H1|exact H2].
Defined.

Lemma find_hit_witness :
  requests Sample.found_A_again.2 = [] ∧ result Sample.found_A_again.2 = Ok 6%nat.
Proof.
  epose proof (find_hit Sample.classes Sample.fuel Sample.found_B.1 Sample.A 6%nat _ 70%Q 70%Q
                 (heap_after Sample.found_B.2)) as H.
  edestruct H as (H1 & H2 & _).
  - by vm_compute.
  - vm_compute. reflexivity.
  - by vm_compute.
  - refine (bool_decide_unpack _ _). by vm_compute.
  - split; [exact H1|exact H2].
Defined.

(** X4.  When the store fails on a miss, [find] raises the store's error
    after exactly one [find_one]; no object of the heap changes and nothing
    is added to the cache. *)
Theorem find_store_failure classes fuel (self : NiceCollection.t) (i : pyval) (e : exn)
    (now_use now_check : Q) (h : heap) :
  NiceCollection.cache self !! i = None →
  hashable h i = true →
  map_Forall (λ _ d, is_Some (NiceCollection.last_used h d)) (NiceCollection.cache self) →
  answer_find_one (NiceCollection.mongo_col self) i = Raise e →
  requests (NiceCollection.find classes fuel self i now_use now_check h).2 = [find_one i]
  ∧ result (NiceCollection.find classes fuel self i now_use now_check h).2 = Raise e
  ∧ heap_after (NiceCollection.find classes fuel self i now_use now_check h).2 = h
  ∧ NiceCollection.cache (NiceCollection.find classes fuel self i now_use now_check h).1
    ⊆ NiceCollection.cache self.
Proof.
  intros Hc Hh Hwf Ha. rewrite find_miss_unfold by done.
  destruct (verify_outcome self now_check h) as [V1 V2].
  destruct (NiceCollection._verify_cache_integrity self now_check h) as [h1 [self1|e1]];
    simpl in *; subst h1.
  - destruct V2 as (Sub & Hcol & _). by rewrite Hcol, Ha.
  - by destruct V2 as [_ []].
Qed.

Lemma find_store_failure_witness :
  result (NiceCollection.find Sample.classes Sample.fuel Sample.users_offline (VInt 8)
            0%Q 0%Q Sample.heap1).2 = Raise (StoreFailure 1).
Proof.
  epose proof (find_store_failure Sample.classes Sample.fuel Sample.users_offline (VInt 8) _
                 0%Q 0%Q Sample.heap1) as H.
  edestruct H as (_ & H2 & _).
  - by vm_compute.
  - by vm_compute.
  - refine (bool_decide_unpack _ _). by vm_compute.
  - vm_compute. reflexivity.
  - exact H2.
Defined.

Lemma wf_cache_old (h h' : heap) (c : gmap pyval loc) :
  (∀ l o, h !! l = Some o → h' !! l = Some o) →
  map_Forall (λ _ d, is_Some (NiceCollection.last_used h d)) c →
  map_Forall (λ _ d, is_Some (NiceCollection.last_used h' d)) c.
Proof.
  intros Old Hwf k d Hk. specialize (Hwf k d Hk). unfold NiceCollection.last_used in *.
  destruct (h !! d) as [[]|] eqn:E; try by destruct Hwf as [? [=]].
  rewrite (Old _ _ E). eauto.
Qed.





(** ** What the constructors assign *)

Lemma grows_length (h h' : heap) : grows h h' → (length h ≤ length h')%nat.
Proof.
  intros G. destruct (decide (length h = 0)%nat) as [->|Hne]; [lia|].
  destruct (lookup_lt_is_Some_2 h (length h - 1)) as [o Ho]; [lia|].
  apply G, lookup_lt_Some in Ho. lia.
Qed.

Lemma grows_grows_but self (h h' : heap) : grows h h' → grows_but self h h'.
Proof. intros G. split; [by apply grows_length|]. intros l o _. apply G. Qed.

Lemma grows_but_refl self (h : heap) : grows_but self h h.
Proof. done. Qed.

Lemma grows_but_trans self (h1 h2 h3 : heap) :
  grows_but self h1 h2 → grows_but self h2 h3 → grows_but self h1 h3.
Proof. intros [L1 G1] [L2 G2]. split; [lia|]. intros l o Hne Hl. by apply G2, G1. Qed.

Lemma grows_but_insert self o (h : heap) : grows_but self h (<[self := o]> h).
Proof.
  split; [by rewrite length_insert|]. intros l o' Hne Hl. by rewrite list_lookup_insert_ne.
Qed.

Lemma frame_grows {A} (m : Py A) (h h' : heap) r :
  (∀ k, frame k m) → m h = (h', r) → grows h h'.
Proof. intros F E l o. by eapply frame_old. Qed.

(** One round of a constructor's loops: a value is computed by something
    that only allocates, then assigned. *)
Lemma assign_step self nm (m : Py pyval) (h h' : heap) n :
  (∀ k, frame k m) → h !! self = Some (ONode n) →
  (m ≫= λ v, setattr self nm v) h = (h', Ok tt) →
  ∃ h1 v, m h = (h1, Ok v) ∧ grows h h1
          ∧ h' = <[self := ONode (with_attrs (insert nm v) n)]> h1.
Proof.
  intros F Hn H. bind_cases H. exists h0, a. split; [done|].
  pose proof (frame_grows _ _ _ _ F E) as G. split; [done|].
  rewrite (setattr_node _ _ _ _ _ (G _ _ Hn)) in H. by injection H as <-.
Qed.

(** A whole loop.  The names assigned are distinct, as the keys of the
    class-level dict they come from are. *)
Lemma assign_loop self (conv : string * FieldBase → Py pyval) fs :
  (∀ nf k, frame k (conv nf)) → NoDup fs.*1 →
  ∀ (h h' : heap) n, h !! self = Some (ONode n) →
  for_each (λ nf, conv nf ≫= λ v, setattr self nf.1 v) fs h = (h', Ok tt) →
  ∃ n', h' !! self = Some (ONode n') ∧ same_header n' n ∧ grows_but self h h'
    ∧ (∀ nm, nm ∉ fs.*1 → attrs n' !! nm = attrs n !! nm)
    ∧ (∀ nf, nf ∈ fs →
         ∃ v ha hb, attrs n' !! nf.1 = Some v ∧ conv nf ha = (hb, Ok v)
                    ∧ grows_but self h ha ∧ (∃ na, ha !! self = Some (ONode na))
                    ∧ grows ha hb ∧ grows_but self hb h').
Proof.
  intros F. induction fs as [|nf fs IH]; intros Hnd h h' n Hn H.
  - injection H as <-. exists n. split; [done|]. split; [done|].
    split; [apply grows_but_refl|]. split; [done|]. by intros nf ?%elem_of_nil.
  - rewrite fmap_cons in Hnd. apply NoDup_cons in Hnd as [Hnotin Hnd].
    simpl in H. bind_cases H. destruct a.
    destruct (assign_step _ _ _ _ _ _ (F nf) Hn E) as (hb & v & Ec & G & ->).
    assert (<[self := ONode (with_attrs (insert nf.1 v) n)]> hb !! self
            = Some (ONode (with_attrs (insert nf.1 v) n))) as Hn1.
    { apply list_lookup_insert_eq. apply G in Hn. by eapply lookup_lt_Some. }
    destruct (IH Hnd _ _ _ Hn1 H) as (n' & Hn' & Hh & G1 & Hout & Hin).
    assert (grows_but self h (<[self := ONode (with_attrs (insert nf.1 v) n)]> hb)) as G0.
    { eapply grows_but_trans; [by apply grows_grows_but|apply grows_but_insert]. }
    exists n'. split; [done|]. split; [by destruct n|].
    split; [by eapply grows_but_trans|]. split.
    + intros nm Hnm. rewrite fmap_cons, not_elem_of_cons in Hnm. destruct Hnm as [Hne Hnm].
      rewrite (Hout _ Hnm). simpl. by rewrite lookup_insert_ne.
    + intros nf0 [->|Hnf0]%elem_of_cons.
      * exists v, h, hb. split; [|split; [done|]].
        { rewrite (Hout _ Hnotin). simpl. by rewrite lookup_insert_eq. }
        split; [apply grows_but_refl|]. split; [eauto|]. split; [done|].
        eapply grows_but_trans; [apply grows_but_insert|done].
      * destruct (Hin _ Hnf0) as (v0 & ha & hb0 & ?&?&?&?&?&?).
        exists v0, ha, hb0. split; [done|]. split; [done|].
        split; [by eapply grows_but_trans|]. done.
Qed.

Lemma two_loops self (conv1 conv2 : string * FieldBase → Py pyval) fs1 fs2 :
  (∀ nf k, frame k (conv1 nf)) → (∀ nf k, frame k (conv2 nf)) →
  NoDup (fs1.*1 ++ fs2.*1) →
  ∀ (h h' : heap) n, h !! self = Some (ONode n) →
  (for_each (λ nf, conv1 nf ≫= λ v, setattr self nf.1 v) fs1;;
   for_each (λ nf, conv2 nf ≫= λ v, setattr self nf.1 v) fs2) h = (h', Ok tt) →
  ∃ n', h' !! self = Some (ONode n') ∧ same_header n' n ∧ grows_but self h h'
    ∧ (∀ nf, nf ∈ fs1 →
         ∃ v ha hb, attrs n' !! nf.1 = Some v ∧ conv1 nf ha = (hb, Ok v)
                    ∧ grows_but self h ha ∧ grows ha hb ∧ grows_but self hb h')
    ∧ (∀ nf, nf ∈ fs2 →
         ∃ v ha hb, attrs n' !! nf.1 = Some v ∧ conv2 nf ha = (hb, Ok v)
                    ∧ grows_but self h ha ∧ grows ha hb ∧ grows_but self hb h').
Proof.
  intros F1 F2 Hnd h h' n Hn H.
  apply NoDup_app in Hnd as (Hnd1 & Hdisj & Hnd2).
  bind_cases H. destruct a.
  destruct (assign_loop self conv1 fs1 F1 Hnd1 _ _ _ Hn E)
    as (n1 & Hn1 & Hh1 & G1 & _ & Hin1).
  destruct (assign_loop self conv2 fs2 F2 Hnd2 _ _ _ Hn1 H)
    as (n2 & Hn2 & Hh2 & G2 & Hout2 & Hin2).
  exists n2. split; [done|].
  split; [unfold same_header in *; intuition congruence|].
  split; [by eapply grows_but_trans|]. split.
  - intros nf Hnf. destruct (Hin1 _ Hnf) as (v & ha & hb & Hv & ? & ? & _ & ? & ?).
    exists v, ha, hb. rewrite Hout2; [|apply Hdisj; by apply list_elem_of_fmap_2].
    split; [done|]. split; [done|]. split; [done|]. split; [done|].
    by eapply grows_but_trans.
  - intros nf Hnf. destruct (Hin2 _ Hnf) as (v & ha & hb & Hv & ? & ? & _ & ? & ?).
    exists v, ha, hb. split; [done|]. split; [done|].
    split; [by eapply grows_but_trans|]. done.
Qed.

Lemma grows_but_app self (h : heap) o h' :
  self = length h → grows_but self (h ++ [o]) h' → grows h h' ∧ (length h < length h')%nat.
Proof.
  intros -> [L G]. rewrite length_app in L. simpl in L. split; [|lia].
  intros l o' Hl. apply G; [apply lookup_lt_Some in Hl; lia|]. by apply lookup_app_l_Some.
Qed.

(** What [NiceNesting.__init__] leaves: the new instance, and for each
    declared field the value it was assigned, with the heaps between which
    the value was converted from the record. *)
Lemma init_assigns classes fuel b cls name data parent alias (h h' : heap) self c :
  NiceNesting__init__ classes (S fuel) b cls name data parent alias h = (h', Ok self) →
  classes !! cls = Some c →
  NoDup ((_fields c).*1 ++ (_nice_nestings c).*1) →
  self = length h ∧ grows h h'
  ∧ ∃ n, h' !! self = Some (ONode n)
    ∧ (∀ nf, nf ∈ _fields c →
         ∃ v ha hb, attrs n !! nf.1 = Some v
           ∧ (data_get data (or_else (real_name nf.2) nf.1) ≫= from_raw nf.2) ha = (hb, Ok v)
           ∧ grows h ha ∧ (length h < length ha)%nat ∧ grows ha hb ∧ grows_but self hb h')
    ∧ (∀ nf, nf ∈ _nice_nestings c →
         ∃ v ha hb, attrs n !! nf.1 = Some v
           ∧ (data_get data (or_else (real_name nf.2) nf.1)
              ≫= λ raw, nesting_from_raw (NiceNesting__init__ classes fuel false)
                          nf.2 raw nf.1 self) ha = (hb, Ok v)
           ∧ grows h ha ∧ (length h < length ha)%nat ∧ grows ha hb ∧ grows_but self hb h').
Proof.
  intros H Hc Hnd. simpl in H. unfold lookup_class in H at 1. rewrite Hc in H.
  erewrite bind_Ok in H by reflexivity.
  destruct (negb _); [done|].
  unfold mbind at 1, Py_bind at 1, alloc in H.
  set (n0 := {| cls_name := cls |}) in *.
  rewrite <- bind_assoc in H. bind_cases H. destruct a.
  unfold mret, Py_ret in H. injection H as <- <-.
  set (conv1 := λ nf : string * FieldBase,
         data_get data (or_else (real_name nf.2) nf.1) ≫= from_raw nf.2).
  set (conv2 := λ nf : string * FieldBase,
         data_get data (or_else (real_name nf.2) nf.1)
         ≫= λ raw, nesting_from_raw (NiceNesting__init__ classes fuel false)
                     nf.2 raw nf.1 (length h)).
  assert ((for_each (λ nf, conv1 nf ≫= λ v, setattr (length h) nf.1 v) (_fields c);;
           for_each (λ nf, conv2 nf ≫= λ v, setattr (length h) nf.1 v) (_nice_nestings c))
            (h ++ [ONode n0]) = (h0, Ok tt)) as E'.
  { rewrite <- E. apply bind_ext.
    - intros h1. apply for_each_ext, Forall_forall. intros nf _ h2.
      unfold conv1. by rewrite bind_assoc.
    - intros [] h1. apply for_each_ext, Forall_forall. intros nf _ h2.
      unfold conv2. by rewrite bind_assoc. }
  assert (∀ nf k, frame k (conv1 nf)) as F1.
  { intros nf k. unfold conv1. apply frame_bind; [apply frame_data_get|].
    intros raw. apply frame_from_raw. }
  assert (∀ nf k, frame k (conv2 nf)) as F2.
  { intros nf k. unfold conv2. apply frame_bind; [apply frame_data_get|].
    intros raw. apply frame_nesting_from_raw. intros. apply frame_NiceNesting__init__. }
  assert ((h ++ [ONode n0]) !! length h = Some (ONode n0)) as Hn0
    by (by rewrite lookup_app_r, Nat.sub_diag).
  destruct (two_loops (length h) conv1 conv2 _ _ F1 F2 Hnd _ _ _ Hn0 E')
    as (n & Hn & _ & G & Hin1 & Hin2).
  split; [done|]. split; [by eapply grows_but_app|].
  exists n. split; [done|]. split.
  - intros nf Hnf. destruct (Hin1 _ Hnf) as (v & ha & hb & ? & ? & Ga & ? & ?).
    destruct (grows_but_app _ _ _ _ eq_refl Ga). by exists v, ha, hb.
  - intros nf Hnf. destruct (Hin2 _ Hnf) as (v & ha & hb & ? & ? & Ga & ? & ?).
    destruct (grows_but_app _ _ _ _ eq_refl Ga). by exists v, ha, hb.
Qed.

Lemma data_get_record (h : heap) d kvs name :
  h !! d = Some (ODict kvs) →
  data_get (VRef d) name h
  = (h, Ok match dict_get (VStr name) kvs with Some v => v | None => VNone end).
Proof.
  intros Hd. unfold data_get, py_get, py_items.
  erewrite bind_Ok; [|erewrite bind_Ok by (by apply load_Some); reflexivity].
  erewrite bind_Ok by (by apply check_hashable_true).
  by destruct (dict_get _ kvs).
Qed.

Lemma default_is_copy (h ha hb h' : heap) self f v :
  default f ha = (hb, Ok v) →
  grows h ha → (length h < length ha)%nat → self = length h → grows_but self hb h' →
  is_copy h h' (_default f) v.
Proof.
  intros E G L -> [_ G']. unfold default in E. unfold is_copy.
  destruct (_default f) as [| | | |l]; try (by injection E).
  intros o Ho. rewrite (copy_ref _ _ _ (G _ _ Ho)) in E. injection E as <- <-.
  exists (length ha). split; [done|]. split; [apply lookup_ge_None; lia|].
  apply G'; [lia|]. by rewrite lookup_app_r, Nat.sub_diag.
Qed.





(** What [minimal] leaves. *)
Lemma minimal_assigns classes fuel cls i now (h h' : heap) self c :
  minimal classes fuel cls i now h = (h', Ok self) →
  classes !! cls = Some c →
  NoDup ((_fields c).*1 ++ (_nice_nestings c).*1) →
  self = length h ∧ grows h h'
  ∧ ∃ n, h' !! self = Some (ONode n)
    ∧ cls_name n = cls ∧ is_document n = true ∧ _parent n = None
    ∧ id n = i ∧ _last_used_at n = now
    ∧ (∀ nf, nf ∈ _fields c →
         ∃ v, attrs n !! nf.1 = Some v ∧ is_copy h h' (_default nf.2) v).
Proof.
  intros H Hc Hnd. unfold minimal in H. unfold lookup_class in H at 1. rewrite Hc in H.
  erewrite bind_Ok in H by reflexivity.
  unfold mbind at 1, Py_bind at 1, alloc in H.
  set (n0 := {| cls_name := cls |}) in *.
  rewrite <- bind_assoc in H. bind_cases H. destruct a.
  assert ((h ++ [ONode n0]) !! length h = Some (ONode n0)) as Hn0
    by (by rewrite lookup_app_r, Nat.sub_diag).
  destruct (two_loops (length h) (λ nf, default nf.2)
              (λ nf, nesting_from_raw (NiceNesting__init__ classes fuel false)
                       nf.2 VNone nf.1 (length h))
              (_fields c) (_nice_nestings c)) with (h := h ++ [ONode n0]) (h' := h0) (n := n0)
    as (n & Hn & Hh & G & Hin1 & _); try done.
  { intros nf k. apply frame_default. }
  { intros nf k. apply frame_nesting_from_raw. intros. apply frame_NiceNesting__init__. }
  unfold set_document_info in H.
  erewrite bind_Ok in H; [|erewrite bind_Ok by (by apply load_node_Some); reflexivity].
  unfold mret, Py_ret in H. injection H as <- <-.
  destruct (grows_but_app _ _ _ _ eq_refl G) as [G0 L0].
  assert (grows_but (length h) h0 (<[length h := ONode
            {| cls_name := cls_name n; is_document := is_document n; _parent := _parent n;
               _name := _name n; _alias := _alias n; attrs := attrs n;
               id := i; _last_used_at := now |}]> h0)) as Gi by apply grows_but_insert.
  split; [done|]. split.
  { intros l o Hl. destruct Gi as [_ Gi]. apply Gi; [apply lookup_lt_Some in Hl; lia|].
    by apply G0. }
  eexists. split; [apply list_lookup_insert_eq; lia|].
  destruct Hh as (?&?&?&?&?&?&?). simpl in *.
  do 5 (split; [done|]).
  intros nf Hnf. destruct (Hin1 _ Hnf) as (v & ha & hb & Hv & E1 & Ga & Gb & G').
  exists v. split; [done|].
  destruct (grows_but_app _ _ _ _ eq_refl Ga) as [Ga0 La].
  eapply (default_is_copy h ha hb); [exact E1|done|done|reflexivity|].
  by eapply grows_but_trans.
Qed.



(** ** The root of a node *)

Lemma document_fuel_attached h l d :
  attached h l d →
  ∃ r n, h !! r = Some (ONode n) ∧ is_document n = true
         ∧ ∀ fuel, (d ≤ S fuel)%nat → document_fuel fuel l h = (h, Ok r).
Proof.
  induction 1 as [l n Hl Hd | l n p d Hl Hd Hp A IH].
  - exists l, n. split; [done|]. split; [done|]. intros fuel _. destruct fuel; simpl;
      (erewrite bind_Ok by (by apply load_node_Some)); by rewrite Hd.
  - destruct IH as (r & nr & Hr & Hrd & IH).
    inversion A as [? pn Hpl Hpd | ? pn ? ? Hpl Hpd]; simplify_eq.
    + exists p, pn. split; [done|]. split; [done|]. intros fuel _.
      destruct fuel; simpl;
        (erewrite bind_Ok by (by apply load_node_Some)); rewrite Hd, Hp;
        (erewrite bind_Ok by (by apply load_Some)); cbv beta iota; by rewrite Hpd.
    + exists r, nr. split; [done|]. split; [done|]. intros fuel Hf.
      destruct fuel as [|fuel]; [lia|]. simpl.
      erewrite bind_Ok by (by apply load_node_Some). rewrite Hd, Hp.
      erewrite bind_Ok by (by apply load_Some). cbv beta iota. rewrite Hpd.
      apply IH. lia.
Qed.

Lemma document_attached h l d :
  attached h l d →
  ∃ r n, document l h = (h, Ok r) ∧ h !! r = Some (ONode n) ∧ is_document n = true.
Proof.
  intros A. pose proof (attached_depth _ _ _ A) as Hlt.
  destruct (document_fuel_attached _ _ _ A) as (r & n & Hr & Hd & Hf).
  exists r, n. split; [|done]. unfold document, get_heap, mbind, Py_bind.
  apply Hf. lia.
Qed.

(** X10.  The [document] of a node is the root of its chain of parents:
    a document is its own; a nesting whose parent is unset has none
    ([ValueError]); a nesting whose parent hangs from a document, however
    deep, has the document of its parent, which is a document of the heap.
    Looking it up changes nothing. *)
Theorem document_resolution (h : heap) :
  (∀ l n, h !! l = Some (ONode n) → is_document n = true → document l h = (h, Ok l))
  ∧ (∀ l n, h !! l = Some (ONode n) → is_document n = false → _parent n = None →
       document l h = (h, Raise ValueError))
  ∧ (∀ l n p d, h !! l = Some (ONode n) → is_document n = false → _parent n = Some p →
       attached h p d →
       ∃ r nr, document p h = (h, Ok r) ∧ document l h = (h, Ok r)
               ∧ h !! r = Some (ONode nr) ∧ is_document nr = true).
Proof.
  split; [|split].
  - intros l n Hl Hd. unfold document, get_heap, mbind, Py_bind.
    destruct (length h); simpl;
      (erewrite bind_Ok by (by apply load_node_Some)); by rewrite Hd.
  - intros l n Hl Hd Hp. unfold document, get_heap, mbind, Py_bind.
    destruct (length h); simpl;
      (erewrite bind_Ok by (by apply load_node_Some)); by rewrite Hd, Hp.
  - intros l n p d Hl Hd Hp A.
    assert (attached h l (S d)) as Al by (by eapply attached_child).
    pose proof (attached_depth _ _ _ Al) as Hlt.
    destruct (document_fuel_attached _ _ _ A) as (r & nr & Hr & Hrd & Hf).
    exists r, nr. unfold document, get_heap, mbind, Py_bind.
    split; [apply Hf; lia|]. split; [|done].
    destruct (length h) as [|fuel] eqn:Hlen; [lia|]. simpl.
    erewrite bind_Ok by (by apply load_node_Some). rewrite Hd, Hp.
    inversion A as [? pn Hpl Hpd | ? pn ? ? Hpl Hpd]; simplify_eq.
    + erewrite bind_Ok by (by apply load_Some). cbv beta iota. rewrite Hpd.
      specialize (Hf 0%nat ltac:(lia)). simpl in Hf.
      erewrite bind_Ok in Hf by (by apply load_node_Some). rewrite Hpd in Hf.
      unfold mret, Py_ret in *. by simplify_eq.
    + erewrite bind_Ok by (by apply load_Some). cbv beta iota. rewrite Hpd.
      destruct fuel as [|fuel]; [lia|]. apply Hf. lia.
Qed.

Lemma document_resolution_witness :
  ∃ r, document 15%nat Sample.heap_nested = (Sample.heap_nested, Ok r)
       ∧ document 17%nat Sample.heap_nested = (Sample.heap_nested, Ok r).
Proof.
  destruct (document_resolution Sample.heap_nested) as (_ & _ & H).
  epose proof (H 17%nat _ 15%nat 1%nat) as H'.
  edestruct H' as (r & nr & H1 & H2 & _).
  - vm_compute. reflexivity.
  - reflexivity.
  - reflexivity.
  - eapply attached_child; [vm_compute; reflexivity|reflexivity|reflexivity|].
    eapply attached_document; [vm_compute; reflexivity|reflexivity].
  - exists r. split; [exact H1|exact H2].
Defined.

(** ** What a scope never does to an instance *)

Lemma nodes_kept_refl (h : heap) : nodes_kept h h.
Proof. intros l n Hl. by exists n. Qed.

Lemma nodes_kept_trans (h1 h2 h3 : heap) :
  nodes_kept h1 h2 → nodes_kept h2 h3 → nodes_kept h1 h3.
Proof.
  intros K1 K2 l n Hl. destruct (K1 _ _ Hl) as (n1 & Hl1 & S1).
  destruct (K2 _ _ Hl1) as (n2 & Hl2 & S2). exists n2. split; [done|].
  unfold same_header in *. intuition congruence.
Qed.

Lemma grows_nodes_kept (h h' : heap) : grows h h' → nodes_kept h h'.
Proof. intros G l n Hl. exists n. split; [by apply G|done]. Qed.

Lemma store_container_kept (h : heap) l o o' :
  h !! l = Some o → (∀ n, o ≠ ONode n) → nodes_kept h (<[l := o']> h).
Proof.
  intros Hl Hne l' n Hl'. exists n. split; [|done].
  rewrite list_lookup_insert_ne; [done|]. intros ->. rewrite Hl in Hl'.
  injection Hl' as ->. by eapply Hne.
Qed.

Lemma store_node_kept (h : heap) l n n' :
  h !! l = Some (ONode n) → same_header n' n → nodes_kept h (<[l := ONode n']> h).
Proof.
  intros Hl Hs l' n0 Hl'. destruct (decide (l' = l)) as [->|Hne].
  - rewrite Hl in Hl'. injection Hl' as <-. exists n'. split; [|done].
    apply list_lookup_insert_eq. by eapply lookup_lt_Some.
  - exists n0. split; [|done]. by rewrite list_lookup_insert_ne.
Qed.

Lemma keeps_nodes_frame {A} (m : Py A) : (∀ k, frame k m) → keeps_nodes m.
Proof. intros F h h' r E. by eapply grows_nodes_kept, frame_grows. Qed.

Lemma keeps_nodes_ret {A} (a : A) : keeps_nodes (mret a).
Proof. intros h h' r [= <- <-]. apply nodes_kept_refl. Qed.

Lemma keeps_nodes_raise {A} e : keeps_nodes (raise e : Py A).
Proof. intros h h' r [= <- <-]. apply nodes_kept_refl. Qed.

Lemma keeps_nodes_bind {A B} (m : Py A) (f : A → Py B) :
  keeps_nodes m → (∀ a, keeps_nodes (f a)) → keeps_nodes (m ≫= f).
Proof.
  intros Hm Hf h h' r H. bind_cases H.
  - eapply nodes_kept_trans; [by eapply Hm|by eapply Hf].
  - by eapply Hm.
Qed.

Lemma keeps_nodes_for_each {A} (f : A → Py unit) xs :
  (∀ x, keeps_nodes (f x)) → keeps_nodes (for_each f xs).
Proof.
  intros Hf. induction xs as [|x xs IH]; simpl; [apply keeps_nodes_ret|].
  apply keeps_nodes_bind; [apply Hf|]. by intros [].
Qed.

Lemma keeps_nodes_for_each_in {A} (f : A → Py unit) xs :
  Forall (λ x, keeps_nodes (f x)) xs → keeps_nodes (for_each f xs).
Proof.
  induction 1 as [|x xs Hx _ IH]; simpl; [apply keeps_nodes_ret|].
  apply keeps_nodes_bind; [apply Hx|]. by intros [].
Qed.

Lemma keeps_nodes_fold_py {A B} (f : A → B → Py B) xs b :
  (∀ x b, keeps_nodes (f x b)) → keeps_nodes (CommandMaker.fold_py f xs b).
Proof.
  intros Hf. revert b. induction xs as [|x xs IH]; intros b; simpl; [apply keeps_nodes_ret|].
  apply keeps_nodes_bind; [apply Hf|]. apply IH.
Qed.

(** Reading the object at [l] and then going on, when what follows keeps
    the nodes on every heap that has that object at [l]. *)
Lemma keeps_nodes_load {A} l (f : pyobj → Py A) :
  (∀ o (h h' : heap) r, h !! l = Some o → f o h = (h', r) → nodes_kept h h') →
  keeps_nodes (load l ≫= f).
Proof.
  intros Hf h h' r H. unfold mbind, Py_bind, load in H.
  destruct (h !! l) as [o|] eqn:Hl; [by eapply Hf|].
  injection H as <- <-. apply nodes_kept_refl.
Qed.

Lemma check_hashable_heap v (h h' : heap) r : check_hashable v h = (h', r) → h' = h.
Proof.
  unfold check_hashable, mbind, Py_bind, get_heap, mret, Py_ret, raise.
  destruct (hashable h v); by intros [= <- <-].
Qed.

Lemma py_eq_heap a b (h h' : heap) r : py_eq a b h = (h', r) → h' = h.
Proof. unfold py_eq. destruct (py_eq_fuel _ _ _ _); by intros [= <- <-]. Qed.

Lemma list_remove_heap el xs (h h' : heap) r : list_remove el xs h = (h', r) → h' = h.
Proof.
  revert h' r. induction xs as [|x xs IH]; intros h' r H; simpl in H; [by injection H|].
  bind_cases H; [|by eapply py_eq_heap]. apply py_eq_heap in E as ->.
  destruct a; [by injection H|]. bind_cases H; [|by eapply IH].
  apply IH in E as ->. by injection H.
Qed.

Lemma keeps_nodes_setattr l name v : keeps_nodes (setattr l name v).
Proof.
  intros h h' r H. unfold setattr, load_node in H.
  rewrite bind_assoc in H. revert H. apply keeps_nodes_load. clear.
  intros o h h' r Hl H. destruct o as [| | |n];
    try (injection H as <- <-; apply nodes_kept_refl).
  injection H as <- <-. eapply store_node_kept; [done|]. by destruct n.
Qed.

Lemma keeps_nodes_py_extend_or_update container els :
  keeps_nodes (py_extend_or_update container els).
Proof.
  unfold py_extend_or_update. destruct container as [| | | |l]; try apply keeps_nodes_ret.
  apply keeps_nodes_load. intros o h h' r Hl H.
  destruct o as [xs|xs|kvs|n]; try (injection H as <- <-; apply nodes_kept_refl).
  - injection H as <- <-. by eapply store_container_kept.
  - revert H. apply keeps_nodes_for_each. clear. intros el h h' r H.
    bind_cases H; [|apply check_hashable_heap in E as ->; apply nodes_kept_refl].
    apply check_hashable_heap in E as ->. revert H. apply keeps_nodes_load. clear.
    intros o h h' r Hl H.
    destruct o; try (injection H as <- <-; apply nodes_kept_refl).
    injection H as <- <-. by eapply store_container_kept.
Qed.

Lemma keeps_nodes_py_remove container el : keeps_nodes (py_remove container el).
Proof.
  unfold py_remove. destruct container as [| | | |l]; try apply keeps_nodes_raise.
  apply keeps_nodes_load. intros o h h' r Hl H.
  destruct o as [xs|xs|kvs|n]; try (injection H as <- <-; apply nodes_kept_refl).
  - bind_cases H; [|apply list_remove_heap in E as ->; apply nodes_kept_refl].
    apply list_remove_heap in E as ->. injection H as <- <-.
    by eapply store_container_kept.
  - bind_cases H; [|apply check_hashable_heap in E as ->; apply nodes_kept_refl].
    apply check_hashable_heap in E as ->.
    case_decide; injection H as <- <-; [|apply nodes_kept_refl].
    by eapply store_container_kept.
Qed.

Lemma keeps_nodes_py_setitem obj key val : keeps_nodes (py_setitem obj key val).
Proof.
  unfold py_setitem. destruct obj as [| | | |l]; try apply keeps_nodes_raise.
  apply keeps_nodes_load. intros o h h' r Hl H.
  destruct o as [xs|xs|kvs|n]; try (injection H as <- <-; apply nodes_kept_refl).
  - destruct key; try (injection H as <- <-; apply nodes_kept_refl).
    case_decide; injection H as <- <-; [|apply nodes_kept_refl].
    by eapply store_container_kept.
  - bind_cases H; [|apply check_hashable_heap in E as ->; apply nodes_kept_refl].
    apply check_hashable_heap in E as ->. injection H as <- <-.
    by eapply store_container_kept.
Qed.

Lemma keeps_nodes_py_pop obj key : keeps_nodes (py_pop obj key).
Proof.
  unfold py_pop. destruct obj as [| | | |l]; try apply keeps_nodes_raise.
  apply keeps_nodes_load. intros o h h' r Hl H.
  destruct o as [xs|xs|kvs|n]; try (injection H as <- <-; apply nodes_kept_refl).
  bind_cases H; [|apply check_hashable_heap in E as ->; apply nodes_kept_refl].
  apply check_hashable_heap in E as ->. injection H as <- <-.
  by eapply store_container_kept.
Qed.

Lemma frame_new_sized n k xs : frame n (new_sized k xs).
Proof. destruct k; [apply frame_new_list|apply frame_new_set]. Qed.

Lemma frame_to_raw n f v : frame n (to_raw f v).
Proof.
  unfold to_raw. destruct f.
  - apply frame_bind; [apply frame_py_eq|]. intros []; apply frame_ret.
  - apply frame_bind; [apply frame_py_iter|]. intros. apply frame_new_sized.
  - apply frame_bind; [apply frame_py_items|]. intros. apply frame_new_dict.
  - apply frame_raise.
  - apply frame_raise.
Qed.

Lemma frame_py_add n a b : frame n (py_add a b).
Proof.
  unfold py_add. destruct a, b; try apply frame_raise; try apply frame_ret.
  apply frame_bind; [apply frame_load|]. intros oa.
  apply frame_bind; [apply frame_load|]. intros ob.
  destruct oa, ob; try apply frame_raise. apply frame_new_list.
Qed.

Lemma frame_list_contains n key xs : frame n (list_contains key xs).
Proof.
  induction xs as [|x xs IH]; simpl; [apply frame_ret|].
  apply frame_bind; [apply frame_py_eq|]. intros []; [apply frame_ret|apply IH].
Qed.

Lemma frame_py_contains n key obj : frame n (py_contains key obj).
Proof.
  unfold py_contains. destruct obj; try apply frame_raise.
  apply frame_bind; [apply frame_load|]. intros [xs|xs|kvs|nd].
  - apply frame_list_contains.
  - apply frame_bind; [apply frame_check_hashable|]. intros. apply frame_ret.
  - apply frame_bind; [apply frame_check_hashable|]. intros. apply frame_ret.
  - apply frame_raise.
Qed.

Lemma frame_document n l : frame n (document l).
Proof.
  unfold document. apply frame_bind; [apply frame_get_heap|]. intros h.
  generalize (length h). intros k. revert l. induction k as [|k IH]; intros l; simpl.
  - frame_auto.
  - frame_auto; apply IH.
Qed.

Lemma frame_build_command n b : frame n (CommandMaker.build_command b).
Proof.
  unfold CommandMaker.build_command, CommandMaker.collapse_all.
  apply frame_bind.
  { case_decide; [apply frame_ret|]. apply frame_bind; [|intros; apply frame_ret].
    case_decide; [apply frame_ret|apply frame_raise]. }
  intros add_. apply frame_bind; [|intros; apply frame_ret].
  case_decide; [apply frame_ret|]. apply frame_bind; [|intros; apply frame_ret].
  case_decide; [apply frame_ret|apply frame_raise].
Qed.

Section ScopeFacts.
Import CommandMaker.
Context (classes : gmap string NiceClass) (fuel : nat).

Lemma keeps_nodes_apply_to_set owner name field route to_set b :
  keeps_nodes (apply_to_set owner name field route to_set b).
Proof.
  unfold apply_to_set. destruct to_set as [v|]; [|apply keeps_nodes_ret].
  assert (keeps_nodes (raw ← to_raw field v; setattr owner name v;;
                       mret (set_setter route raw b))) as Hset.
  { apply keeps_nodes_bind; [apply keeps_nodes_frame; intros; apply frame_to_raw|].
    intros raw. apply keeps_nodes_bind; [apply keeps_nodes_setattr|].
    intros. apply keeps_nodes_ret. }
  destruct v; try exact Hset.
  apply keeps_nodes_bind; [apply keeps_nodes_frame; intros; apply frame_default|].
  intros d. apply keeps_nodes_bind; [apply keeps_nodes_setattr|].
  intros. apply keeps_nodes_ret.
Qed.

Lemma keeps_nodes_apply_to_inc owner name field route to_inc b :
  keeps_nodes (apply_to_inc owner name field route to_inc b).
Proof.
  unfold apply_to_inc.
  assert (keeps_nodes (cur ← getattr (VRef owner) name;
                       new_value ← py_add cur to_inc;
                       raw ← to_raw field new_value;
                       setattr owner name new_value;;
                       mret (set_setter route raw b))) as Hinc.
  { apply keeps_nodes_bind; [apply keeps_nodes_frame; intros; apply frame_getattr|].
    intros cur. apply keeps_nodes_bind; [apply keeps_nodes_frame; intros; apply frame_py_add|].
    intros nv. apply keeps_nodes_bind; [apply keeps_nodes_frame; intros; apply frame_to_raw|].
    intros raw. apply keeps_nodes_bind; [apply keeps_nodes_setattr|].
    intros. apply keeps_nodes_ret. }
  destruct to_inc; try exact Hinc. apply keeps_nodes_ret.
Qed.

Lemma keeps_nodes_apply_to_add owner name field route to_add b :
  keeps_nodes (apply_to_add owner name field route to_add b).
Proof.
  unfold apply_to_add. destruct to_add as [|x xs]; [apply keeps_nodes_ret|].
  apply keeps_nodes_bind; [apply keeps_nodes_frame; intros; apply frame_new_list|].
  intros staged. apply keeps_nodes_bind; [apply keeps_nodes_frame; intros; apply frame_to_raw|].
  intros raw. apply keeps_nodes_bind; [apply keeps_nodes_frame; intros; apply frame_py_iter|].
  intros els. apply keeps_nodes_bind; [apply keeps_nodes_frame; intros; apply frame_getattr|].
  intros c. apply keeps_nodes_bind; [apply keeps_nodes_py_extend_or_update|].
  intros. apply keeps_nodes_ret.
Qed.

Lemma keeps_nodes_apply_to_remove owner name field route to_remove b :
  keeps_nodes (apply_to_remove owner name field route to_remove b).
Proof.
  unfold apply_to_remove. destruct to_remove as [|x xs]; [apply keeps_nodes_ret|].
  apply keeps_nodes_bind; [apply keeps_nodes_frame; intros; apply frame_getattr|].
  intros c. apply keeps_nodes_bind; [apply keeps_nodes_frame; intros; apply frame_new_list|].
  intros staged. apply keeps_nodes_bind; [apply keeps_nodes_frame; intros; apply frame_to_raw|].
  intros raw. apply keeps_nodes_bind; [apply keeps_nodes_frame; intros; apply frame_py_iter|].
  intros els. apply keeps_nodes_bind; [|intros; apply keeps_nodes_ret].
  apply keeps_nodes_for_each. intros. apply keeps_nodes_py_remove.
Qed.

Lemma keeps_nodes_apply_to_update owner name field route to_update b :
  keeps_nodes (apply_to_update owner name field route to_update b).
Proof.
  unfold apply_to_update. destruct to_update as [|x xs]; [apply keeps_nodes_ret|].
  destruct field; try apply keeps_nodes_raise.
  apply keeps_nodes_bind; [apply keeps_nodes_frame; intros; apply frame_getattr|].
  intros d. apply keeps_nodes_fold_py. intros kv b'.
  apply keeps_nodes_bind; [apply keeps_nodes_py_setitem|]. intros. apply keeps_nodes_ret.
Qed.

Lemma keeps_nodes_bind_on {A B} (m : Py A) (f : A → Py B) :
  keeps_nodes m → (∀ a (h h' : heap), m h = (h', Ok a) → keeps_nodes (f a)) →
  keeps_nodes (m ≫= f).
Proof.
  intros Hm Hf h h' r H. bind_cases H.
  - eapply nodes_kept_trans; [by eapply Hm|]. eapply Hf; [exact E|exact H].
  - by eapply Hm.
Qed.

Lemma keeps_nodes_apply_to_pop owner name field route to_pop b :
  keeps_nodes (apply_to_pop owner name field route to_pop b).
Proof.
  unfold apply_to_pop. destruct to_pop as [|x xs]; [apply keeps_nodes_ret|].
  apply keeps_nodes_bind; [apply keeps_nodes_frame; intros; apply frame_getattr|].
  intros d. apply keeps_nodes_bind_on.
  { destruct field; try apply keeps_nodes_raise; apply keeps_nodes_ret. }
  intros trk h h' Htrk.
  assert (∀ key, keeps_nodes (trk key)) as Hk.
  { intros key. destruct field; try discriminate Htrk; injection Htrk as _ <-.
    - apply keeps_nodes_bind; [apply keeps_nodes_frame; intros; apply frame_py_get|].
      intros. apply keeps_nodes_ret.
    - apply keeps_nodes_ret. }
  apply keeps_nodes_fold_py. intros key b'.
  apply keeps_nodes_bind; [apply Hk|]. intros raw_key.
  apply keeps_nodes_bind; [apply keeps_nodes_py_pop|]. intros. apply keeps_nodes_ret.
Qed.

Lemma keeps_nodes_compile_leaf magic b : keeps_nodes (compile_leaf classes magic b).
Proof.
  unfold compile_leaf.
  apply keeps_nodes_bind; [apply keeps_nodes_frame; intros; apply frame_as_nesting|].
  intros [[owner owner_node]|]; [|apply keeps_nodes_raise].
  apply keeps_nodes_bind; [apply keeps_nodes_frame; intros; apply frame_lookup_class|].
  intros c. apply keeps_nodes_bind.
  { destruct (assoc _ (_fields c)); [apply keeps_nodes_ret|].
    destruct (assoc _ (_nice_nestings c)); [apply keeps_nodes_ret|apply keeps_nodes_raise]. }
  intros field.
  apply keeps_nodes_bind; [apply keeps_nodes_frame; intros; apply frame_route_prefix|].
  intros prefix.
  apply keeps_nodes_bind; [apply keeps_nodes_apply_to_set|]. intros b1.
  apply keeps_nodes_bind; [apply keeps_nodes_apply_to_inc|]. intros b2.
  apply keeps_nodes_bind; [apply keeps_nodes_apply_to_add|]. intros b3.
  apply keeps_nodes_bind; [apply keeps_nodes_apply_to_remove|]. intros b4.
  apply keeps_nodes_bind; [apply keeps_nodes_apply_to_update|]. intros b5.
  apply keeps_nodes_apply_to_pop.
Qed.

Lemma keeps_nodes_inject self : keeps_nodes (_inject_nesting_branches self).
Proof.
  induction self as [p IHa IHn] using proxy_ind. rewrite inject_unfold.
  apply keeps_nodes_bind.
  { apply keeps_nodes_for_each. intros kv.
    apply keeps_nodes_bind; [apply keeps_nodes_frame; intros; apply frame_py_contains|].
    intros []; [apply keeps_nodes_ret|apply keeps_nodes_py_setitem]. }
  intros _. apply keeps_nodes_bind; [by apply keeps_nodes_for_each_in|].
  intros _. by apply keeps_nodes_for_each_in.
Qed.

Lemma keeps_nodes_compile self : keeps_nodes (compile classes self).
Proof.
  unfold compile.
  apply keeps_nodes_bind; [apply keeps_nodes_fold_py; intros; apply keeps_nodes_compile_leaf|].
  intros b. apply keeps_nodes_bind; [apply keeps_nodes_inject|]. intros _.
  apply keeps_nodes_bind; [apply keeps_nodes_frame; intros; apply frame_build_command|].
  intros cu. destruct (empty_command cu.1); [apply keeps_nodes_ret|].
  destruct (_underlying self); try apply keeps_nodes_raise.
  apply keeps_nodes_bind; [apply keeps_nodes_frame; intros; apply frame_document|].
  intros doc. apply keeps_nodes_bind; [apply keeps_nodes_frame; intros; apply frame_load_node|].
  intros. apply keeps_nodes_ret.
Qed.

Lemma exec_body_grows body cmd (h h' : heap) cmd' oe :
  exec_body classes fuel body cmd h = (h', cmd', oe) → grows h h'.
Proof.
  intros H l o Hl.
  destruct (exec_body_frame classes fuel (length h) _ _ _ _ _ _ H) as [T _]; [done|].
  by eapply prefix_lookup.
Qed.

Lemma aexit_keeps_nodes mongo_col self exc (h : heap) :
  nodes_kept h (heap_after (__aexit__ classes mongo_col self exc h)).
Proof.
  unfold __aexit__. destruct exc; [apply nodes_kept_refl|].
  destruct (compile classes self h) as [h' r] eqn:E.
  pose proof (keeps_nodes_compile _ _ _ _ E).
  by destruct r as [[[[i c] u]|]|e].
Qed.

Lemma async_with_keeps_nodes mongo_col node body (h : heap) :
  nodes_kept h (heap_after (async_with classes fuel mongo_col node body h)).
Proof.
  unfold async_with.
  destruct (command_maker node h) as [h0 [cmd|e]] eqn:E0.
  - pose proof (grows_nodes_kept _ _ (frame_grows _ _ _ _
                  (λ k, frame_command_maker k node) E0)) as K0.
    destruct (exec_body classes fuel body cmd h0) as [[h1 cmd'] oe] eqn:E1.
    pose proof (grows_nodes_kept _ _ (exec_body_grows _ _ _ _ _ _ E1)) as K1.
    destruct oe as [e|].
    + simpl. by eapply nodes_kept_trans.
    + eapply nodes_kept_trans; [by eapply nodes_kept_trans|apply aexit_keeps_nodes].
  - simpl. by eapply grows_nodes_kept, frame_grows; [intros k; apply frame_command_maker|].
Qed.
End ScopeFacts.

Lemma attached_kept (h h' : heap) l d : nodes_kept h h' → attached h l d → attached h' l d.
Proof.
  intros K. induction 1 as [l n Hl Hd | l n p d Hl Hd Hp A IH].
  - destruct (K _ _ Hl) as (n' & Hl' & Hs). eapply attached_document; [exact Hl'|].
    destruct Hs as (_ & -> & _). done.
  - destruct (K _ _ Hl) as (n' & Hl' & Hs). destruct Hs as (_ & Hs2 & Hs3 & _).
    eapply attached_child; [exact Hl'| | |exact IH]; congruence.
Qed.

Lemma route_prefix_kept (h h' : heap) l d s :
  nodes_kept h h' → attached h l d →
  route_prefix l h = (h, Ok s) → route_prefix l h' = (h', Ok s).
Proof.
  intros K A. revert s. induction A as [l n Hl Hd | l n p d Hl Hd Hp A IH]; intros s H.
  - rewrite (route_prefix_document _ _ _ Hl Hd) in H. injection H as <-.
    destruct (K _ _ Hl) as (n' & Hl' & Hs). destruct Hs as (_ & Hs2 & _).
    eapply route_prefix_document; [exact Hl'|congruence].
  - destruct (route_prefix_unfold _ _ _ _ _ Hl Hd Hp A) as (pre & Hpre & Hr).
    rewrite Hr in H. injection H as <-.
    destruct (K _ _ Hl) as (n' & Hl' & Hs).
    destruct Hs as (_ & Hs2 & Hs3 & Hs4 & Hs5 & _).
    destruct (route_prefix_unfold h' l n' p d) as (pre' & Hpre' & Hr');
      [done|congruence|congruence|by eapply attached_kept|].
    rewrite (IH _ Hpre) in Hpre'. injection Hpre' as <-.
    rewrite Hr'. unfold mongo_name. by rewrite Hs4, Hs5.
Qed.

Lemma document_child (h : heap) l n p d :
  h !! l = Some (ONode n) → is_document n = false → _parent n = Some p →
  attached h p d →
  ∃ r, document p h = (h, Ok r) ∧ document l h = (h, Ok r).
Proof.
  intros Hl Hd Hp A.
  assert (attached h l (S d)) as Al by (by eapply attached_child).
  pose proof (attached_depth _ _ _ Al) as Hlt.
  destruct (document_fuel_attached _ _ _ A) as (r & nr & Hr & Hrd & Hf).
  exists r. unfold document, get_heap, mbind, Py_bind.
  split; [apply Hf; lia|].
  destruct (length h) as [|k] eqn:Hlen; [lia|]. simpl.
  erewrite bind_Ok by (by apply load_node_Some). rewrite Hd, Hp.
  inversion A as [? pn Hpl Hpd | ? pn ? ? Hpl Hpd]; simplify_eq.
  - erewrite bind_Ok by (by apply load_Some). cbv beta iota. rewrite Hpd.
    specialize (Hf 0%nat ltac:(lia)). simpl in Hf.
    erewrite bind_Ok in Hf by (by apply load_node_Some). rewrite Hpd in Hf.
    unfold mret, Py_ret in *. by simplify_eq.
  - erewrite bind_Ok by (by apply load_Some). cbv beta iota. rewrite Hpd.
    destruct k as [|k]; [lia|]. apply Hf. lia.
Qed.

Lemma document_root (h : heap) l n :
  h !! l = Some (ONode n) → is_document n = true → document l h = (h, Ok l).
Proof.
  intros Hl Hd. unfold document, get_heap, mbind, Py_bind.
  destruct (length h); simpl;
    (erewrite bind_Ok by (by apply load_node_Some)); by rewrite Hd.
Qed.

Lemma document_kept (h h' : heap) l d r :
  nodes_kept h h' → attached h l d →
  document l h = (h, Ok r) → document l h' = (h', Ok r).
Proof.
  intros K A. revert r. induction A as [l n Hl Hd | l n p d Hl Hd Hp A IH]; intros r H.
  - rewrite (document_root _ _ _ Hl Hd) in H. injection H as <-.
    destruct (K _ _ Hl) as (n' & Hl' & Hs). destruct Hs as (_ & Hs2 & _).
    eapply document_root; [exact Hl'|congruence].
  - destruct (document_child _ _ _ _ _ Hl Hd Hp A) as (r0 & Hp0 & Hr).
    rewrite Hr in H. injection H as <-.
    destruct (K _ _ Hl) as (n' & Hl' & Hs).
    destruct Hs as (_ & Hs2 & Hs3 & _).
    destruct (document_child h' l n' p d) as (r' & Hp' & Hr');
      [done|congruence|congruence|by eapply attached_kept|].
    rewrite (IH _ Hp0) in Hp'. by injection Hp' as <-.
Qed.



Section RequestFacts.
Import CommandMaker.
Context (classes : gmap string NiceClass) (fuel : nat).

Lemma at_path_underlying path f self (h h' : heap) self' :
  (∀ p (h h' : heap) p', f p h = (h', Ok p') → _underlying p' = _underlying p) →
  at_path classes fuel path f self h = (h', Ok self') → _underlying self' = _underlying self.
Proof.
  intros Hf. destruct path as [|[name|key] path]; simpl; intros H.
  - by eapply Hf.
  - bind_cases H. bind_cases H. by injection H as _ <-.
  - bind_cases H. bind_cases H. by injection H as _ <-.
Qed.

Lemma perform_underlying a p (h h' : heap) p' :
  perform a p h = (h', Ok p') → _underlying p' = _underlying p.
Proof.
  destruct a; simpl; intros H; try (by injection H as _ <-).
  - unfold __setattr__ in H. case_decide; [done|].
    destruct (assoc name (_pseudo_attrs p)); [by injection H as _ <-|].
    bind_cases H. by injection H as _ <-.
  - case_decide; [done|]. bind_cases H. by injection H as _ <-.
  - unfold __setitem__ in H. bind_cases H. destruct a; [done|].
    bind_cases H. by injection H as _ <-.
Qed.

Lemma exec_body_underlying body cmd (h h' : heap) cmd' oe :
  exec_body classes fuel body cmd h = (h', cmd', oe) → _underlying cmd' = _underlying cmd.
Proof.
  revert cmd h. induction body as [|s body IH]; intros cmd h H; simpl in H.
  - by injection H as _ <- _.
  - destruct (exec classes fuel s cmd h) as [h1 [cmd1|e]] eqn:E.
    + rewrite (IH _ _ H). destruct s as [path a|e]; [|done].
      eapply at_path_underlying; [|exact E]. intros. by eapply perform_underlying.
    + by injection H as _ <- _.
Qed.

(** The id an update is addressed to is read, once the changes are
    applied, from the document of the node the scope was opened on. *)
Lemma compile_addressed self (h h' : heap) i c u node d r nr :
  compile classes self h = (h', Ok (Some (i, c, u))) →
  _underlying self = VRef node → attached h node d →
  document node h = (h, Ok r) → h !! r = Some (ONode nr) → id nr = i.
Proof.
  intros H Hu A Hr Hnr. pose proof (keeps_nodes_compile classes self _ _ _ H) as K.
  unfold compile in H. bind_cases H. bind_cases H. bind_cases H.
  destruct (empty_command a1.1); [done|]. rewrite Hu in H.
  bind_cases H. bind_cases H. injection H as _ Hi _ _.
  assert (nodes_kept h h2) as K2.
  { eapply nodes_kept_trans;
      [eapply keeps_nodes_fold_py; [|exact E]; intros; apply keeps_nodes_compile_leaf|].
    eapply nodes_kept_trans; [eapply keeps_nodes_inject; exact E0|].
    eapply keeps_nodes_frame; [|exact E1]. intros. apply frame_build_command. }
  rewrite (document_kept _ _ _ _ _ K2 A Hr) in E2. injection E2 as <- <-.
  destruct (K2 _ _ Hnr) as (n' & Hn' & Hs).
  rewrite (load_node_Some _ _ _ Hn') in E3. injection E3 as _ <-.
  rewrite <- Hi. by destruct Hs as (_ & _ & _ & _ & _ & -> & _).
Qed.
End RequestFacts.



(** ** Staged container operations at commit *)

Section ContainerFacts.
Import CommandMaker.
Context (classes : gmap string NiceClass).

(** The leaf loop once the owner, the field and the route are resolved. *)
Lemma compile_leaf_steps magic b (h : heap) owner n c field prefix :
  _underlying_owner magic = VRef owner → h !! owner = Some (ONode n) →
  classes !! cls_name n = Some c →
  (assoc (_name magic) (_fields c) = Some field
   ∨ assoc (_name magic) (_fields c) = None
     ∧ assoc (_name magic) (_nice_nestings c) = Some field) →
  route_prefix owner h = (h, Ok prefix) →
  compile_leaf classes magic b h
  = (b ← apply_to_set owner (_name magic) field
           (prefix +:+ or_else (real_name field) (_name magic)) (_value magic) b;
     b ← apply_to_inc owner (_name magic) field
           (prefix +:+ or_else (real_name field) (_name magic)) (_to_inc magic) b;
     b ← apply_to_add owner (_name magic) field
           (prefix +:+ or_else (real_name field) (_name magic)) (_to_add magic) b;
     b ← apply_to_remove owner (_name magic) field
           (prefix +:+ or_else (real_name field) (_name magic)) (_to_remove magic) b;
     b ← apply_to_update owner (_name magic) field
           (prefix +:+ or_else (real_name field) (_name magic)) (_to_update magic) b;
     apply_to_pop owner (_name magic) field
       (prefix +:+ or_else (real_name field) (_name magic)) (_to_pop magic) b) h.
Proof.
  intros Ho Hn Hc Hf Hr. unfold compile_leaf.
  rewrite Ho. erewrite bind_Ok by (by apply as_nesting_node). cbv beta iota.
  erewrite bind_Ok by (by apply lookup_class_Some).
  erewrite bind_Ok; [|destruct Hf as [->|[-> ->]]; reflexivity].
  erewrite bind_Ok by exact Hr. reflexivity.
Qed.

Lemma staged_list (h : heap) els :
  new_list els h = (h ++ [OList els], Ok (VRef (length h))).
Proof. reflexivity. Qed.

Lemma to_raw_list (h : heap) l els d fe te rn :
  h !! l = Some (OList els) →
  to_raw (FieldWithContainer list_ d fe te rn) (VRef l) h
  = (h ++ [OList (te <$> els)], Ok (VRef (length h))).
Proof.
  intros Hl. unfold to_raw, py_iter.
  erewrite bind_Ok; [|erewrite bind_Ok by (by apply load_Some); reflexivity].
  reflexivity.
Qed.

Lemma py_iter_list (h : heap) l xs : h !! l = Some (OList xs) → py_iter (VRef l) h = (h, Ok xs).
Proof. intros Hl. unfold py_iter. by erewrite bind_Ok by (by apply load_Some). Qed.

(** The two list objects the compiler makes for a staged list: the
    proxy's own list and its encoding. *)
Lemma encode_staged (h : heap) els d fe te rn {A} (k : list pyval → Py A) :
  (staged ← new_list els;
   raw ← to_raw (FieldWithContainer list_ d fe te rn) staged;
   raw_els ← py_iter raw; k raw_els) h
  = k (te <$> els) (h ++ [OList els; OList (te <$> els)]).
Proof.
  erewrite bind_Ok by apply staged_list.
  erewrite bind_Ok.
  2:{ apply to_raw_list. by rewrite lookup_app_r, Nat.sub_diag. }
  erewrite bind_Ok.
  2:{ apply py_iter_list. rewrite lookup_app_r by done. by rewrite Nat.sub_diag. }
  by rewrite <- app_assoc.
Qed.

Lemma apply_to_add_list owner name d fe te rn route els b (h : heap) n l xs :
  els ≠ [] →
  h !! owner = Some (ONode n) → attrs n !! name = Some (VRef l) →
  h !! l = Some (OList xs) →
  apply_to_add owner name (FieldWithContainer list_ d fe te rn) route els b h
  = (<[l := OList (xs ++ els)]> (h ++ [OList els; OList (te <$> els)]),
     Ok (extend_adder route (te <$> els) b)).
Proof.
  intros Hne Hn Ha Hl. unfold apply_to_add. destruct els as [|x els]; [done|].
  rewrite encode_staged.
  erewrite bind_Ok.
  2:{ eapply getattr_node; [by apply lookup_app_l_Some|done]. }
  unfold py_extend_or_update.
  erewrite bind_Ok; [reflexivity|].
  erewrite bind_Ok; [|apply load_Some; by apply lookup_app_l_Some]. reflexivity.
Qed.
End ContainerFacts.

Section OneStatement.
Import CommandMaker.
Context (classes : gmap string NiceClass) (fuel : nat).

Lemma inject_leaf p (h : heap) :
  _pseudo_attrs p = [] → _pseudo_nestings p = [] →
  _inject_nesting_branches p h = (h, Ok tt).
Proof. intros Ha Hn. rewrite inject_unfold, Ha, Hn. reflexivity. Qed.

(** A scope on a document whose body is one statement [cmd.name.op(...)]
    (or [cmd.name[k] = v]), where the operation only stages something on
    the proxy of [name]: how the scope ends is decided by the compilation of
    that one proxy. *)
Lemma scope_one_attr mongo_col doc n name v0 a sub' (h : heap) :
  h !! doc = Some (ONode n) → is_document n = true →
  name ∉ __slots__ ++ methods →
  attrs n !! name = Some v0 →
  perform a (__init__ name None v0 (VRef doc)) h = (h, Ok sub') →
  _pseudo_attrs sub' = [] → _pseudo_nestings sub' = [] →
  (∀ h1 e, compile_leaf classes sub' no_buckets h = (h1, Raise e) →
     async_with classes fuel mongo_col doc [Do [Attr name] a] h = mkRun h1 [] (Raise e))
  ∧ (∀ h1 b c u n1,
       compile_leaf classes sub' no_buckets h = (h1, Ok b) →
       build_command b h1 = (h1, Ok (c, u)) → empty_command c = false →
       h1 !! doc = Some (ONode n1) → is_document n1 = true →
       async_with classes fuel mongo_col doc [Do [Attr name] a] h
       = mkRun h1 [update_one (id n1) c u] (answer_update_one mongo_col (id n1) c u)).
Proof.
  intros Hn Hd Hname Ha Hp Hla Hln.
  assert (exec_body classes fuel [Do [Attr name] a] (__init__ "" None (VRef doc) VNone) h
          = (h, with_pseudo_attrs [(name, sub')] (__init__ "" None (VRef doc) VNone), None))
    as Hbody.
  { simpl. unfold __getattr__. rewrite decide_False by done. simpl.
    erewrite bind_Ok; [|erewrite bind_Ok by (by eapply getattr_node); reflexivity].
    erewrite bind_Ok by exact Hp. reflexivity. }
  assert (command_maker doc h = (h, Ok (__init__ "" None (VRef doc) VNone))) as Hcmd.
  { unfold command_maker. by erewrite bind_Ok by (by eapply route_prefix_document). }
  assert (_iter_leaves (with_pseudo_attrs [(name, sub')] (__init__ "" None (VRef doc) VNone))
          = [sub']) as Hleaves.
  { rewrite iter_leaves_unfold. simpl. unfold visit. rewrite Hla, Hln. reflexivity. }
  assert (∀ h1, _inject_nesting_branches
                  (with_pseudo_attrs [(name, sub')] (__init__ "" None (VRef doc) VNone)) h1
                = (h1, Ok tt)) as Hinj.
  { intros h1. rewrite inject_unfold. simpl.
    erewrite bind_Ok by reflexivity.
    erewrite bind_Ok; [reflexivity|].
    erewrite bind_Ok by (by apply inject_leaf). reflexivity. }
  split.
  - intros h1 e Hc. rewrite async_with_finish, Hcmd, Hbody. unfold finish, __aexit__, compile.
    rewrite Hleaves. simpl.
    erewrite bind_Raise; [reflexivity|]. by erewrite bind_Raise by exact Hc.
  - intros h1 b c u n1 Hc Hb He Hn1 Hd1.
    rewrite async_with_finish, Hcmd, Hbody. unfold finish, __aexit__, compile.
    rewrite Hleaves. simpl.
    erewrite bind_Ok; [|erewrite bind_Ok by exact Hc; reflexivity].
    erewrite bind_Ok by apply Hinj.
    erewrite bind_Ok by exact Hb. cbn [fst snd]. rewrite He.
    erewrite bind_Ok by (by eapply document_root).
    erewrite bind_Ok by (by apply load_node_Some). reflexivity.
Qed.
End OneStatement.

Lemma build_single_adder route els (h : heap) :
  els ≠ [] →
  CommandMaker.build_command
    (CommandMaker.extend_adder route els CommandMaker.no_buckets) h
  = (h, Ok (mkCommand None None (Some {[ route := CommandMaker.collapse els ]}) None, true)).
Proof.
  intros Hne.
  unfold CommandMaker.build_command, CommandMaker.extend_adder, CommandMaker.no_buckets,
    CommandMaker.defaultdict_get, CommandMaker.collapse_all.
  cbn [CommandMaker.setters CommandMaker.unsetters CommandMaker.adders CommandMaker.removers].
  rewrite lookup_empty, insert_empty. simpl.
  rewrite (decide_False (P := ({[route := els]} : gmap string (list pyval)) = ∅))
    by apply map_non_empty_singleton.
  rewrite (decide_True (P := map_Forall (λ _ value, value ≠ [])
                               ({[route := els]} : gmap string (list pyval))))
    by (by apply map_Forall_singleton).
  rewrite !decide_True by done.
  rewrite (bool_decide_eq_true_2 (({[route := els]} : gmap string (list pyval)) ≠ ∅))
    by apply map_non_empty_singleton.
  rewrite map_fmap_singleton, orb_true_r. reflexivity.
Qed.

Lemma build_single_remover route els (h : heap) :
  els ≠ [] →
  CommandMaker.build_command
    (CommandMaker.extend_remover route els CommandMaker.no_buckets) h
  = (h, Ok (mkCommand None None None (Some {[ route := CommandMaker.collapse els ]}), false)).
Proof.
  intros Hne.
  unfold CommandMaker.build_command, CommandMaker.extend_remover, CommandMaker.no_buckets,
    CommandMaker.defaultdict_get, CommandMaker.collapse_all.
  cbn [CommandMaker.setters CommandMaker.unsetters CommandMaker.adders CommandMaker.removers].
  rewrite lookup_empty, insert_empty. simpl.
  rewrite (decide_False (P := ({[route := els]} : gmap string (list pyval)) = ∅))
    by apply map_non_empty_singleton.
  rewrite (decide_True (P := map_Forall (λ _ value, value ≠ [])
                               ({[route := els]} : gmap string (list pyval))))
    by (by apply map_Forall_singleton).
  rewrite !decide_True by done.
  rewrite !bool_decide_eq_false_2 by (intros H; by apply H).
  rewrite map_fmap_singleton. reflexivity.
Qed.

(** X13.  [cmd.name.extend(els)] and [cmd.name.append(x)] on a list field
    of a document, as the only statement of a scope: the elements are
    appended, in order, to the document's own list; exactly one update goes
    to the store, addressed to the document, with upsert, whose only section
    is [$addToSet], mapping the field's wire name to the encoded element when
    there is one and to their [$each] list when there are several.  Apart
    from the two list objects that hold the staged elements and their
    encoding, nothing else in the heap changes. *)
Theorem list_extend_in_scope classes fuel mongo_col (doc : loc) (n : Nesting) c name
    d fe te rn (l : loc) (xs els : list pyval) (h : heap) :
  h !! doc = Some (ONode n) → is_document n = true →
  classes !! cls_name n = Some c →
  assoc name (_fields c) = Some (FieldWithContainer list_ d fe te rn) →
  name ∉ CommandMaker.__slots__ ++ CommandMaker.methods →
  attrs n !! name = Some (VRef l) → h !! l = Some (OList xs) →
  els ≠ [] →
  CommandMaker.async_with classes fuel mongo_col doc
    [CommandMaker.Do [CommandMaker.Attr name] (CommandMaker.Extend els)] h
  = mkRun (<[l := OList (xs ++ els)]> (h ++ [OList els; OList (te <$> els)]))
      [update_one (id n)
         (mkCommand None None
            (Some {[ or_else rn name := CommandMaker.collapse (te <$> els) ]}) None) true]
      (answer_update_one mongo_col (id n)
         (mkCommand None None
            (Some {[ or_else rn name := CommandMaker.collapse (te <$> els) ]}) None) true)
  ∧ (∀ x, els = [x] →
       CommandMaker.async_with classes fuel mongo_col doc
         [CommandMaker.Do [CommandMaker.Attr name] (CommandMaker.Append x)] h
       = mkRun (<[l := OList (xs ++ [x])]> (h ++ [OList [x]; OList [te x]]))
           [update_one (id n)
              (mkCommand None None
                 (Some {[ or_else rn name := One (te x) ]}) None) true]
           (answer_update_one mongo_col (id n)
              (mkCommand None None
                 (Some {[ or_else rn name := One (te x) ]}) None) true)).
Proof.
  intros Hn Hd Hc Hf Hname Ha Hl Hne.
  assert (l ≠ doc) as Hld by (intros ->; congruence).
  assert (∀ a, CommandMaker.perform a (CommandMaker.__init__ name None (VRef l) (VRef doc)) h
               = (h, Ok (CommandMaker.with_add els
                           (CommandMaker.__init__ name None (VRef l) (VRef doc)))) →
     CommandMaker.async_with classes fuel mongo_col doc
       [CommandMaker.Do [CommandMaker.Attr name] a] h
     = mkRun (<[l := OList (xs ++ els)]> (h ++ [OList els; OList (te <$> els)]))
         [update_one (id n)
            (mkCommand None None
               (Some {[ or_else rn name := CommandMaker.collapse (te <$> els) ]}) None) true]
         (answer_update_one mongo_col (id n)
            (mkCommand None None
               (Some {[ or_else rn name := CommandMaker.collapse (te <$> els) ]}) None) true))
    as Hrun.
  { intros a Hp.
    destruct (scope_one_attr classes fuel mongo_col doc n name (VRef l) a _ h
                Hn Hd Hname Ha Hp eq_refl eq_refl) as [_ Hok].
    eapply Hok; [| |reflexivity| |exact Hd].
    - erewrite compile_leaf_steps;
        [|reflexivity|exact Hn|exact Hc|left; exact Hf|by eapply route_prefix_document].
      cbn [CommandMaker._value CommandMaker._to_inc CommandMaker._to_add
           CommandMaker._to_remove CommandMaker._to_update CommandMaker._to_pop
           CommandMaker._name CommandMaker.with_add CommandMaker.__init__
           CommandMaker.apply_to_set CommandMaker.apply_to_inc real_name].
      erewrite bind_Ok by reflexivity. erewrite bind_Ok by reflexivity.
      erewrite bind_Ok by (by eapply apply_to_add_list).
      reflexivity.
    - apply build_single_adder. by destruct els.
    - rewrite list_lookup_insert_ne by done. by apply lookup_app_l_Some. }
  split; [by apply Hrun|]. intros x ->. by apply Hrun.
Qed.

Lemma list_extend_in_scope_witness :
  requests (CommandMaker.async_with Sample.classes Sample.fuel Sample.empty_store Sample.user
              [CommandMaker.Do [CommandMaker.Attr "items"]
                 (CommandMaker.Append (VStr "Headphones"))] Sample.heap1)
  = [update_one (VInt 7)
       (mkCommand None None (Some {[ "items" := One (VStr "Headphones") ]}) None) true].
Proof.
  epose proof (list_extend_in_scope Sample.classes Sample.fuel Sample.empty_store Sample.user
                 _ Sample.User "items" (VRef 1%nat) Sample.identity Sample.identity None
                 6%nat [] [VStr "Headphones"] Sample.heap1) as H.
  edestruct H as [_ H'].
  - vm_compute. reflexivity.
  - reflexivity.
  - reflexivity.
  - reflexivity.
  - refine (bool_decide_unpack _ _). by vm_compute.
  - reflexivity.
  - reflexivity.
  - discriminate.
  - rewrite (H' _ eq_refl). reflexivity.
Defined.

Lemma py_eq_scalar (h : heap) y x :
  (∀ r, x ≠ VRef r) → py_eq y x h = (h, Ok (bool_decide (y = x))).
Proof.
  intros Hx. unfold py_eq. destruct y, x; try reflexivity. by destruct (Hx l0).
Qed.

Lemma list_remove_present (h : heap) x pre post :
  (∀ r, x ≠ VRef r) → x ∉ pre →
  list_remove x (pre ++ x :: post) h = (h, Ok (pre ++ post)).
Proof.
  intros Hx. induction pre as [|y pre IH]; intros Hpre; simpl.
  - erewrite bind_Ok by (by apply py_eq_scalar). by rewrite bool_decide_eq_true_2.
  - apply not_elem_of_cons in Hpre as [Hne Hpre].
    erewrite bind_Ok by (by apply py_eq_scalar).
    rewrite bool_decide_eq_false_2 by done.
    erewrite bind_Ok by (by apply IH). reflexivity.
Qed.

Lemma list_remove_absent (h : heap) x xs :
  (∀ r, x ≠ VRef r) → x ∉ xs → list_remove x xs h = (h, Raise ValueError).
Proof.
  intros Hx. induction xs as [|y xs IH]; intros Hxs; simpl; [done|].
  apply not_elem_of_cons in Hxs as [Hne Hxs].
  erewrite bind_Ok by (by apply py_eq_scalar).
  rewrite bool_decide_eq_false_2 by done.
  erewrite bind_Raise by (by apply IH). reflexivity.
Qed.

Section RemoveFacts.
Import CommandMaker.

Lemma apply_to_remove_list owner name d fe te rn route x b (h : heap) n l xs :
  h !! owner = Some (ONode n) → attrs n !! name = Some (VRef l) →
  h !! l = Some (OList xs) →
  apply_to_remove owner name (FieldWithContainer list_ d fe te rn) route [x] b h
  = (xs' ← list_remove x xs;
     store l (OList xs');;
     mret (extend_remover route [te x] b)) (h ++ [OList [x]; OList [te x]]).
Proof.
  intros Hn Ha Hl. unfold apply_to_remove.
  erewrite bind_Ok by (by eapply getattr_node).
  rewrite encode_staged. simpl. unfold py_remove.
  unfold mbind, Py_bind, load.
  rewrite (lookup_app_l_Some _ _ _ _ Hl).
  destruct (list_remove x xs _) as [h1 [xs'|e]]; reflexivity.
Qed.
End RemoveFacts.

(** X14.  [cmd.name.remove(x)] on a list field of a document, for an [x]
    that is no container, as the only statement of a scope.  When [x] is in
    the list, its first occurrence (and only that one) is removed from the
    document's own list, and exactly one update goes to the store, without
    upsert, whose only section is [$pull], mapping the field's wire name to
    the encoded element.  When [x] is not in the list, the scope raises
    [ValueError], the list is as it was and nothing is sent. *)
Theorem list_remove_in_scope classes fuel mongo_col (doc : loc) (n : Nesting) c name
    d fe te rn (l : loc) (xs : list pyval) (x : pyval) (h : heap) :
  h !! doc = Some (ONode n) → is_document n = true →
  classes !! cls_name n = Some c →
  assoc name (_fields c) = Some (FieldWithContainer list_ d fe te rn) →
  name ∉ CommandMaker.__slots__ ++ CommandMaker.methods →
  attrs n !! name = Some (VRef l) → h !! l = Some (OList xs) →
  (∀ r, x ≠ VRef r) →
  (∀ pre post, xs = pre ++ x :: post → x ∉ pre →
     CommandMaker.async_with classes fuel mongo_col doc
       [CommandMaker.Do [CommandMaker.Attr name] (CommandMaker.Remove x)] h
     = mkRun (<[l := OList (pre ++ post)]> (h ++ [OList [x]; OList [te x]]))
         [update_one (id n)
            (mkCommand None None None (Some {[ or_else rn name := One (te x) ]})) false]
         (answer_update_one mongo_col (id n)
            (mkCommand None None None (Some {[ or_else rn name := One (te x) ]})) false))
  ∧ (x ∉ xs →
     CommandMaker.async_with classes fuel mongo_col doc
       [CommandMaker.Do [CommandMaker.Attr name] (CommandMaker.Remove x)] h
     = mkRun (h ++ [OList [x]; OList [te x]]) [] (Raise ValueError)).
Proof.
  intros Hn Hd Hc Hf Hname Ha Hl Hx.
  assert (l ≠ doc) as Hld by (intros ->; congruence).
  destruct (scope_one_attr classes fuel mongo_col doc n name (VRef l)
              (CommandMaker.Remove x) _ h Hn Hd Hname Ha eq_refl eq_refl eq_refl)
    as [Herr Hok].
  assert (CommandMaker.compile_leaf classes
            (CommandMaker.remove (CommandMaker.__init__ name None (VRef l) (VRef doc)) x)
            CommandMaker.no_buckets h
          = (xs' ← list_remove x xs;
             store l (OList xs');;
             mret (CommandMaker.extend_remover (or_else rn name) [te x]
                     CommandMaker.no_buckets)) (h ++ [OList [x]; OList [te x]])) as Hleaf.
  { erewrite compile_leaf_steps;
      [|reflexivity|exact Hn|exact Hc|left; exact Hf|by eapply route_prefix_document].
    cbn [CommandMaker._value CommandMaker._to_inc CommandMaker._to_add
         CommandMaker._to_remove CommandMaker._to_update CommandMaker._to_pop
         CommandMaker._name CommandMaker.remove CommandMaker.with_remove
         CommandMaker.__init__ CommandMaker.apply_to_set CommandMaker.apply_to_inc
         CommandMaker.apply_to_add real_name app].
    erewrite bind_Ok by reflexivity. erewrite bind_Ok by reflexivity.
    erewrite bind_Ok by reflexivity.
    unfold mbind at 1, Py_bind at 1.
    rewrite (apply_to_remove_list doc name d fe te rn _ x _ h n l xs Hn Ha Hl).
    unfold mbind, Py_bind. by destruct (list_remove x xs _) as [? [?|?]]. }
  split.
  - intros pre post -> Hpre. eapply Hok; [| |reflexivity| |exact Hd].
    + rewrite Hleaf. erewrite bind_Ok by (by apply list_remove_present). reflexivity.
    + by apply build_single_remover.
    + rewrite list_lookup_insert_ne by done. by apply lookup_app_l_Some.
  - intros Hxs. apply Herr. rewrite Hleaf.
    erewrite bind_Raise by (by apply list_remove_absent). reflexivity.
Qed.

Lemma list_remove_in_scope_witness :
  requests (CommandMaker.async_with Sample.classes Sample.fuel Sample.empty_store Sample.user
              [CommandMaker.Do [CommandMaker.Attr "items"]
                 (CommandMaker.Remove (VStr "Headphones"))]
              (heap_after
                 (CommandMaker.async_with Sample.classes Sample.fuel Sample.empty_store
                    Sample.user
                    [CommandMaker.Do [CommandMaker.Attr "items"]
                       (CommandMaker.Append (VStr "Headphones"))] Sample.heap1)))
  = [update_one (VInt 7)
       (mkCommand None None None (Some {[ "items" := One (VStr "Headphones") ]})) false].
Proof.
  epose proof (list_remove_in_scope Sample.classes Sample.fuel Sample.empty_store Sample.user
                 _ Sample.User "items" (VRef 1%nat) Sample.identity Sample.identity None
                 6%nat [VStr "Headphones"] (VStr "Headphones")
                 (heap_after
                    (CommandMaker.async_with Sample.classes Sample.fuel Sample.empty_store
                       Sample.user
                       [CommandMaker.Do [CommandMaker.Attr "items"]
                          (CommandMaker.Append (VStr "Headphones"))] Sample.heap1))) as H.
  edestruct H as [H' _].
  - vm_compute. reflexivity.
  - reflexivity.
  - reflexivity.
  - reflexivity.
  - refine (bool_decide_unpack _ _). by vm_compute.
  - reflexivity.
  - reflexivity.
  - discriminate.
  - rewrite (H' [] [] eq_refl); [reflexivity|]. apply not_elem_of_nil.
Defined.

Section ItemFacts.
Import CommandMaker.
Context (classes : gmap string NiceClass) (fuel : nat).

(** The same scope, when the one statement itself raises. *)
Lemma scope_one_attr_raises mongo_col doc n name v0 a e (h : heap) :
  h !! doc = Some (ONode n) → is_document n = true →
  name ∉ __slots__ ++ methods →
  attrs n !! name = Some v0 →
  perform a (__init__ name None v0 (VRef doc)) h = (h, Raise e) →
  async_with classes fuel mongo_col doc [Do [Attr name] a] h = mkRun h [] (Raise e).
Proof.
  intros Hn Hd Hname Ha Hp.
  assert (command_maker doc h = (h, Ok (__init__ "" None (VRef doc) VNone))) as Hcmd.
  { unfold command_maker. by erewrite bind_Ok by (by eapply route_prefix_document). }
  assert (exec_body classes fuel [Do [Attr name] a] (__init__ "" None (VRef doc) VNone) h
          = (h, __init__ "" None (VRef doc) VNone, Some e)) as Hbody.
  { simpl. unfold __getattr__. rewrite decide_False by done. simpl.
    erewrite bind_Ok; [|erewrite bind_Ok by (by eapply getattr_node); reflexivity].
    erewrite bind_Raise by exact Hp. reflexivity. }
  rewrite async_with_finish, Hcmd, Hbody. reflexivity.
Qed.

Lemma setitem_stages (h : heap) p key value :
  (∀ r, value = VRef r → ∃ o, h !! r = Some o ∧ ∀ nd, o ≠ ONode nd) →
  hashable h key = true →
  __setitem__ p key value h = (h, Ok (with_update (dict_set key value (_to_update p)) p)).
Proof.
  intros Hv Hk. unfold __setitem__.
  assert (as_nesting value h = (h, Ok None)) as Has.
  { destruct value as [| | | |r]; try reflexivity.
    unfold as_nesting, mbind, Py_bind, load.
    destruct (Hv r eq_refl) as (o & -> & Hne).
    destruct o as [| | |nd]; try reflexivity. by destruct (Hne nd). }
  erewrite bind_Ok by exact Has. cbv beta iota.
  by erewrite bind_Ok by (by apply check_hashable_true).
Qed.

Lemma setitem_instance (h : heap) p key r nd :
  h !! r = Some (ONode nd) →
  __setitem__ p key (VRef r) h = (h, Raise ValueError).
Proof.
  intros Hr. unfold __setitem__.
  by erewrite bind_Ok by (by apply as_nesting_node).
Qed.

Lemma apply_to_update_dict owner name d fi ti rn route k v b (h : heap) n l kvs :
  h !! owner = Some (ONode n) → attrs n !! name = Some (VRef l) →
  h !! l = Some (ODict kvs) → hashable h k = true →
  apply_to_update owner name (FieldWithDict d fi ti rn) route [(k, v)] b h
  = (<[l := ODict (dict_set k v kvs)]> h,
     Ok (set_setter (route +:+ "." +:+ py_str (ti k v).1) (ti k v).2 b)).
Proof.
  intros Hn Ha Hl Hk. unfold apply_to_update.
  erewrite bind_Ok by (by eapply getattr_node).
  simpl. unfold py_setitem.
  erewrite bind_Ok; [reflexivity|].
  erewrite bind_Ok; [reflexivity|].
  erewrite bind_Ok by (by apply load_Some). cbv beta iota.
  erewrite bind_Ok by (by apply check_hashable_true). reflexivity.
Qed.

Lemma apply_to_pop_dict owner name d fi ti rn route k b (h : heap) n l kvs :
  h !! owner = Some (ONode n) → attrs n !! name = Some (VRef l) →
  h !! l = Some (ODict kvs) → hashable h k = true →
  apply_to_pop owner name (FieldWithDict d fi ti rn) route [k] b h
  = (<[l := ODict (dict_pop k kvs)]> h,
     Ok (set_unsetter
           (route +:+ "." +:+
            py_str (ti k match dict_get k kvs with Some v => v | None => VNone end).1) b)).
Proof.
  intros Hn Ha Hl Hk. unfold apply_to_pop.
  erewrite bind_Ok by (by eapply getattr_node).
  erewrite bind_Ok by reflexivity. simpl.
  assert (py_get (VRef l) k h
          = (h, Ok match dict_get k kvs with Some v => v | None => VNone end)) as Hget.
  { unfold py_get, py_items.
    erewrite bind_Ok; [|erewrite bind_Ok by (by apply load_Some); reflexivity].
    erewrite bind_Ok by (by apply check_hashable_true).
    by destruct (dict_get k kvs). }
  erewrite bind_Ok; [reflexivity|].
  erewrite bind_Ok; [|erewrite bind_Ok by exact Hget; reflexivity].
  unfold py_pop.
  erewrite bind_Ok; [reflexivity|].
  erewrite bind_Ok by (by apply load_Some). cbv beta iota.
  erewrite bind_Ok by (by apply check_hashable_true). reflexivity.
Qed.
End ItemFacts.

(** X15.  [cmd.name[k] = v] on a dict field of a document, as the only
    statement of a scope.  When [v] is no instance, the item is set in the
    document's own dict, and exactly one update goes to the store, with
    upsert, whose only section is [$set], mapping the field's wire name, a
    dot and the encoded key to the encoded value; nothing is allocated.  When
    [v] is an instance, the statement itself raises [ValueError]: nothing is
    sent and the heap is as it was. *)
Theorem dict_setitem_in_scope classes fuel mongo_col (doc : loc) (n : Nesting) c name
    d fi ti rn (l : loc) (kvs : list (pyval * pyval)) (k v : pyval) (h : heap) :
  h !! doc = Some (ONode n) → is_document n = true →
  classes !! cls_name n = Some c →
  assoc name (_fields c) = Some (FieldWithDict d fi ti rn) →
  name ∉ CommandMaker.__slots__ ++ CommandMaker.methods →
  attrs n !! name = Some (VRef l) → h !! l = Some (ODict kvs) →
  hashable h k = true →
  ((∀ r, v = VRef r → ∃ o, h !! r = Some o ∧ ∀ nd, o ≠ ONode nd) →
     CommandMaker.async_with classes fuel mongo_col doc
       [CommandMaker.Do [CommandMaker.Attr name] (CommandMaker.SetItem k v)] h
     = mkRun (<[l := ODict (dict_set k v kvs)]> h)
         [update_one (id n)
            (mkCommand
               (Some {[ or_else rn name +:+ "." +:+ py_str (ti k v).1 := (ti k v).2 ]})
               None None None) true]
         (answer_update_one mongo_col (id n)
            (mkCommand
               (Some {[ or_else rn name +:+ "." +:+ py_str (ti k v).1 := (ti k v).2 ]})
               None None None) true))
  ∧ (∀ r nd, v = VRef r → h !! r = Some (ONode nd) →
     CommandMaker.async_with classes fuel mongo_col doc
       [CommandMaker.Do [CommandMaker.Attr name] (CommandMaker.SetItem k v)] h
     = mkRun h [] (Raise ValueError)).
Proof.
  intros Hn Hd Hc Hf Hname Ha Hl Hk.
  assert (l ≠ doc) as Hld by (intros ->; congruence).
  split.
  - intros Hv.
    assert (CommandMaker.perform (CommandMaker.SetItem k v)
              (CommandMaker.__init__ name None (VRef l) (VRef doc)) h
            = (h, Ok (CommandMaker.with_update [(k, v)]
                        (CommandMaker.__init__ name None (VRef l) (VRef doc))))) as Hp.
    { simpl. by rewrite setitem_stages. }
    destruct (scope_one_attr classes fuel mongo_col doc n name (VRef l) _ _ h
                Hn Hd Hname Ha Hp eq_refl eq_refl) as [_ Hok].
    eapply Hok; [| |reflexivity| |exact Hd].
    + erewrite compile_leaf_steps;
        [|reflexivity|exact Hn|exact Hc|left; exact Hf|by eapply route_prefix_document].
      cbn [CommandMaker._value CommandMaker._to_inc CommandMaker._to_add
           CommandMaker._to_remove CommandMaker._to_update CommandMaker._to_pop
           CommandMaker._name CommandMaker.with_update CommandMaker.__init__
           CommandMaker.apply_to_set CommandMaker.apply_to_inc
           CommandMaker.apply_to_add CommandMaker.apply_to_remove real_name].
      do 4 (erewrite bind_Ok by reflexivity).
      erewrite bind_Ok by (by eapply apply_to_update_dict).
      reflexivity.
    + apply build_single_setter.
    + by rewrite list_lookup_insert_ne.
  - intros r nd -> Hr.
    eapply scope_one_attr_raises; [exact Hn|exact Hd|exact Hname|exact Ha|].
    simpl. by eapply setitem_instance.
Qed.

(** X16.  [cmd.name.pop(k)] on a dict field of a document, as the only
    statement of a scope: the item is dropped from the document's own dict
    (which is left as it is when it has no such key), and exactly one
    update goes to the store, without upsert, whose only section is
    [$unset], at the field's wire name, a dot and the encoded key; the key
    is encoded together with the value the dict held for it, [None] when it
    held none.  The update is sent whether or not the key was there. *)
Theorem dict_pop_in_scope classes fuel mongo_col (doc : loc) (n : Nesting) c name
    d fi ti rn (l : loc) (kvs : list (pyval * pyval)) (k : pyval) (h : heap) :
  h !! doc = Some (ONode n) → is_document n = true →
  classes !! cls_name n = Some c →
  assoc name (_fields c) = Some (FieldWithDict d fi ti rn) →
  name ∉ CommandMaker.__slots__ ++ CommandMaker.methods →
  attrs n !! name = Some (VRef l) → h !! l = Some (ODict kvs) →
  hashable h k = true →
  CommandMaker.async_with classes fuel mongo_col doc
    [CommandMaker.Do [CommandMaker.Attr name] (CommandMaker.Pop k)] h
  = mkRun (<[l := ODict (dict_pop k kvs)]> h)
      [update_one (id n)
         (mkCommand None
            (Some {[ or_else rn name +:+ "." +:+
                     py_str (ti k match dict_get k kvs with
                                  | Some v => v
                                  | None => VNone
                                  end).1 := VStr "" ]})
            None None) false]
      (answer_update_one mongo_col (id n)
         (mkCommand None
            (Some {[ or_else rn name +:+ "." +:+
                     py_str (ti k match dict_get k kvs with
                                  | Some v => v
                                  | None => VNone
                                  end).1 := VStr "" ]})
            None None) false).
Proof.
  intros Hn Hd Hc Hf Hname Ha Hl Hk.
  assert (l ≠ doc) as Hld by (intros ->; congruence).
  destruct (scope_one_attr classes fuel mongo_col doc n name (VRef l)
              (CommandMaker.Pop k) _ h Hn Hd Hname Ha eq_refl eq_refl eq_refl)
    as [_ Hok].
  eapply Hok; [| |reflexivity| |exact Hd].
  - erewrite compile_leaf_steps;
      [|reflexivity|exact Hn|exact Hc|left; exact Hf|by eapply route_prefix_document].
    cbn [CommandMaker._value CommandMaker._to_inc CommandMaker._to_add
         CommandMaker._to_remove CommandMaker._to_update CommandMaker._to_pop
         CommandMaker._name CommandMaker.pop CommandMaker.with_pop CommandMaker.__init__
         CommandMaker.apply_to_set CommandMaker.apply_to_inc
         CommandMaker.apply_to_add CommandMaker.apply_to_remove
         CommandMaker.apply_to_update real_name app].
    do 5 (erewrite bind_Ok by reflexivity).
    by eapply apply_to_pop_dict.
  - apply build_single_unsetter.
  - by rewrite list_lookup_insert_ne.
Qed.

(** X17.  Item operations on a field that has no items are refused when
    the scope is left: after [cmd.name[k] = v] on a scalar or list field, and
    after [cmd.name.pop(k)] on one, the scope raises [SyntaxError]; nothing
    is sent to the store and the heap is as it was. *)
Theorem item_operation_refused classes fuel mongo_col (doc : loc) (n : Nesting) c name
    field (v0 k v : pyval) (h : heap) :
  h !! doc = Some (ONode n) → is_document n = true →
  classes !! cls_name n = Some c →
  assoc name (_fields c) = Some field →
  match field with
  | Field _ _ _ _ | FieldWithContainer _ _ _ _ _ => True
  | _ => False
  end →
  name ∉ CommandMaker.__slots__ ++ CommandMaker.methods →
  attrs n !! name = Some v0 →
  hashable h k = true →
  (∀ r, v ≠ VRef r) →
  CommandMaker.async_with classes fuel mongo_col doc
    [CommandMaker.Do [CommandMaker.Attr name] (CommandMaker.SetItem k v)] h
  = mkRun h [] (Raise SyntaxError)
  ∧ CommandMaker.async_with classes fuel mongo_col doc
      [CommandMaker.Do [CommandMaker.Attr name] (CommandMaker.Pop k)] h
    = mkRun h [] (Raise SyntaxError).
Proof.
  intros Hn Hd Hc Hf Hkind Hname Ha Hk Hv.
  split.
  - assert (CommandMaker.perform (CommandMaker.SetItem k v)
              (CommandMaker.__init__ name None v0 (VRef doc)) h
            = (h, Ok (CommandMaker.with_update [(k, v)]
                        (CommandMaker.__init__ name None v0 (VRef doc))))) as Hp.
    { simpl. rewrite setitem_stages; [reflexivity| |done].
      intros r ->. by destruct (Hv r). }
    destruct (scope_one_attr classes fuel mongo_col doc n name v0 _ _ h
                Hn Hd Hname Ha Hp eq_refl eq_refl) as [Herr _].
    apply Herr.
    erewrite compile_leaf_steps;
      [|reflexivity|exact Hn|exact Hc|left; exact Hf|by eapply route_prefix_document].
    cbn [CommandMaker._value CommandMaker._to_inc CommandMaker._to_add
         CommandMaker._to_remove CommandMaker._to_update CommandMaker._to_pop
         CommandMaker._name CommandMaker.with_update CommandMaker.__init__
         CommandMaker.apply_to_set CommandMaker.apply_to_inc
         CommandMaker.apply_to_add CommandMaker.apply_to_remove].
    do 4 (erewrite bind_Ok by reflexivity).
    by destruct field.
  - destruct (scope_one_attr classes fuel mongo_col doc n name v0
                (CommandMaker.Pop k) _ h Hn Hd Hname Ha eq_refl eq_refl eq_refl)
      as [Herr _].
    apply Herr.
    erewrite compile_leaf_steps;
      [|reflexivity|exact Hn|exact Hc|left; exact Hf|by eapply route_prefix_document].
    cbn [CommandMaker._value CommandMaker._to_inc CommandMaker._to_add
         CommandMaker._to_remove CommandMaker._to_update CommandMaker._to_pop
         CommandMaker._name CommandMaker.pop CommandMaker.with_pop CommandMaker.__init__
         CommandMaker.apply_to_set CommandMaker.apply_to_inc
         CommandMaker.apply_to_add CommandMaker.apply_to_remove
         CommandMaker.apply_to_update app].
    do 5 (erewrite bind_Ok by reflexivity).
    unfold CommandMaker.apply_to_pop.
    erewrite bind_Ok by (by eapply getattr_node).
    by destruct field.
Qed.

Lemma dict_setitem_in_scope_witness :
  requests (CommandMaker.async_with Inventory.classes Inventory.fuel Sample.empty_store
              Inventory.stock
              [CommandMaker.Do [CommandMaker.Attr "counts"]
                 (CommandMaker.SetItem (VStr "apples") (VInt 3))] Inventory.heap1)
  = [update_one (VStr "s1")
       (mkCommand (Some {[ "c.apples" := VInt 3 ]}) None None None) true].
Proof.
  epose proof (dict_setitem_in_scope Inventory.classes Inventory.fuel Sample.empty_store
                 Inventory.stock _ Inventory.Stock "counts" (VRef 0%nat) Inventory.id_
                 Inventory.id_ (Some "c") 2%nat [] (VStr "apples") (VInt 3)
                 Inventory.heap1) as H.
  edestruct H as [H' _].
  - vm_compute. reflexivity.
  - reflexivity.
  - reflexivity.
  - reflexivity.
  - refine (bool_decide_unpack _ _). by vm_compute.
  - reflexivity.
  - reflexivity.
  - reflexivity.
  - rewrite H'; [reflexivity|]. intros r [=].
Defined.

Lemma dict_pop_in_scope_witness :
  requests (CommandMaker.async_with Inventory.classes Inventory.fuel Sample.empty_store
              Inventory.stock
              [CommandMaker.Do [CommandMaker.Attr "counts"]
                 (CommandMaker.Pop (VStr "apples"))] Inventory.heap1)
  = [update_one (VStr "s1")
       (mkCommand None (Some {[ "c.apples" := VStr "" ]}) None None) false].
Proof.
  epose proof (dict_pop_in_scope Inventory.classes Inventory.fuel Sample.empty_store
                 Inventory.stock _ Inventory.Stock "counts" (VRef 0%nat) Inventory.id_
                 Inventory.id_ (Some "c") 2%nat [] (VStr "apples") Inventory.heap1) as H.
  rewrite H; cycle 1.
  - vm_compute. reflexivity.
  - reflexivity.
  - reflexivity.
  - reflexivity.
  - refine (bool_decide_unpack _ _). by vm_compute.
  - reflexivity.
  - reflexivity.
  - reflexivity.
  - reflexivity.
Defined.

Lemma item_operation_refused_witness :
  result (CommandMaker.async_with Inventory.classes Inventory.fuel Sample.empty_store
            Inventory.stock
            [CommandMaker.Do [CommandMaker.Attr "label"]
               (CommandMaker.SetItem (VStr "apples") (VInt 3))] Inventory.heap1)
  = Raise SyntaxError.
Proof.
  epose proof (item_operation_refused Inventory.classes Inventory.fuel Sample.empty_store
                 Inventory.stock _ Inventory.Stock "label" _ (VStr "") (VStr "apples")
                 (VInt 3) Inventory.heap1) as H.
  edestruct H as [H' _].
  - vm_compute. reflexivity.
  - reflexivity.
  - reflexivity.
  - reflexivity.
  - exact I.
  - refine (bool_decide_unpack _ _). by vm_compute.
  - reflexivity.
  - reflexivity.
  - discriminate.
  - rewrite H'. reflexivity.
Defined.

(** ** Converters and class bodies *)

(** X18.  Decoding undoes encoding.  For a scalar field whose converters
    are inverse on [v], encoding [v] and decoding the result gives [v] back,
    provided [v] is not encoded as [None] unless it is the default (a value
    equal to the default is written as [None], and [None] is read as the
    default).  For a list field whose element converters are inverse on the
    elements, encoding a list and decoding the result gives a new list with
    the same elements, and leaves the list as it is. *)
Theorem decode_encode (h : heap) :
  (∀ d fr tr rn v,
     (∀ r, v ≠ VRef r) → (∀ r, d ≠ VRef r) →
     fr (tr v) = v → (tr v = VNone → v = d) →
     (to_raw (Field d fr tr rn) v ≫= from_raw (Field d fr tr rn)) h = (h, Ok v))
  ∧ (∀ d fe te rn l xs,
       h !! l = Some (OList xs) → Forall (λ x, fe (te x) = x) xs →
       (to_raw (FieldWithContainer list_ d fe te rn) (VRef l)
        ≫= from_raw (FieldWithContainer list_ d fe te rn)) h
       = (h ++ [OList (te <$> xs); OList xs], Ok (VRef (S (length h))))).
Proof.
  split.
  - intros d fr tr rn v Hv Hd Hinv Hnone. unfold to_raw.
    rewrite bind_assoc. erewrite bind_Ok by (by apply py_eq_scalar).
    case_bool_decide as Heq.
    + subst v. erewrite bind_Ok by reflexivity. unfold from_raw, default.
      destruct d; try reflexivity. by destruct (Hd l).
    + erewrite bind_Ok by reflexivity. unfold from_raw.
      destruct (tr v) eqn:Htr; try (by rewrite <- Hinv).
      by destruct Heq; apply Hnone.
  - intros d fe te rn l xs Hl Hinv.
    assert (fe <$> (te <$> xs) = xs) as Hxs.
    { clear Hl. induction Hinv as [|x xs Hx _ IH]; [done|].
      rewrite !fmap_cons. by rewrite Hx, IH. }
    erewrite bind_Ok by (by apply to_raw_list).
    unfold from_raw.
    erewrite bind_Ok.
    2:{ apply py_iter_list. by rewrite lookup_app_r, Nat.sub_diag. }
    unfold new_sized, new_list.
    erewrite bind_Ok by reflexivity.
    rewrite Hxs, <- app_assoc, length_app, Nat.add_1_r. reflexivity.
Qed.

Lemma filter_fst_subset {A} (P : string * A → Prop) `{∀ x, Decision (P x)}
    (body : list (string * A)) name :
  name ∈ (filter P body).*1 → name ∈ body.*1.
Proof.
  intros ([n f] & -> & Hin)%list_elem_of_fmap.
  apply list_elem_of_filter in Hin as [_ Hin]. by apply (list_elem_of_fmap_2 fst) in Hin.
Qed.

Lemma NoDup_filter_fst {A} (P : string * A → Prop) `{∀ x, Decision (P x)}
    (body : list (string * A)) :
  NoDup body.*1 → NoDup (filter P body).*1.
Proof.
  induction body as [|[n f] body IH]; [done|].
  rewrite fmap_cons. intros [Hn Hnd]%NoDup_cons. rewrite filter_cons.
  case_decide; [|by apply IH]. rewrite fmap_cons. apply NoDup_cons. split; [|by apply IH].
  intros Hin. by apply Hn, (filter_fst_subset P).
Qed.

Lemma assoc_filter {A} (P : string * A → Prop) `{∀ x, Decision (P x)}
    (body : list (string * A)) name f :
  NoDup body.*1 → assoc name body = Some f →
  assoc name (filter P body) = if decide (P (name, f)) then Some f else None.
Proof.
  induction body as [|[n g] body IH]; [done|].
  rewrite fmap_cons. intros [Hn Hnd]%NoDup_cons. simpl. rewrite filter_cons.
  destruct (decide (name = n)) as [->|Hne].
  - intros [= ->]. destruct (decide (P (n, f))) as [HP|HP].
    + simpl. by rewrite decide_True.
    + destruct (assoc n (filter P body)) as [g|] eqn:E; [|done].
      exfalso. apply Hn, (filter_fst_subset P).
      clear -E. induction (filter P body) as [|[m k] l IH]; [done|].
      simpl in E. rewrite fmap_cons. case_decide; [subst; left|right; by apply IH].
  - intros Ha. destruct (decide (P (n, g))).
    + simpl. rewrite decide_False by done. by apply IH.
    + by apply IH.
Qed.

(** X19.  What the metaclass leaves on a class.  Every declared field is
    in exactly one of the two tables, the nesting descriptors
    ([nesting(...)], [field_with_nestings(...)]) in [_nice_nestings] and all
    others in [_fields]; nothing else is in them; the names of the two tables
    are distinct from one another; and a name resolves, in the table of its
    kind, to the descriptor declared under that name, and to nothing in the
    other table. *)
Theorem metaclass_partition (doc : bool) (body : list (string * FieldBase)) :
  (∀ nf, nf ∈ body ↔
         nf ∈ _fields (FieldExtractingMeta doc body)
         ∨ nf ∈ _nice_nestings (FieldExtractingMeta doc body))
  ∧ (∀ nf, nf ∈ _fields (FieldExtractingMeta doc body) → is_nesting_field nf.2 = false)
  ∧ (∀ nf, nf ∈ _nice_nestings (FieldExtractingMeta doc body) →
           is_nesting_field nf.2 = true)
  ∧ (NoDup body.*1 →
     NoDup ((_fields (FieldExtractingMeta doc body)).*1
            ++ (_nice_nestings (FieldExtractingMeta doc body)).*1)
     ∧ ∀ name f, assoc name body = Some f →
         if is_nesting_field f
         then assoc name (_fields (FieldExtractingMeta doc body)) = None
              ∧ assoc name (_nice_nestings (FieldExtractingMeta doc body)) = Some f
         else assoc name (_fields (FieldExtractingMeta doc body)) = Some f
              ∧ assoc name (_nice_nestings (FieldExtractingMeta doc body)) = None).
Proof.
  unfold FieldExtractingMeta. cbn [_fields _nice_nestings].
  split; [|split; [|split]].
  - intros nf. rewrite !list_elem_of_filter.
    destruct (is_nesting_field nf.2).
    + split; [intros Hin; right; by split|intros [[? _]|[_ ?]]; done].
    + split; [intros Hin; left; by split|intros [[_ ?]|[? _]]; done].
  - by intros nf [? _]%list_elem_of_filter.
  - by intros nf [? _]%list_elem_of_filter.
  - intros Hnd. split.
    + apply NoDup_app. split; [by apply NoDup_filter_fst|]. split; [|by apply NoDup_filter_fst].
      intros name ([n f] & -> & Hf)%list_elem_of_fmap ([n' g] & Heq & Hg)%list_elem_of_fmap.
      simpl in Heq. subst n'.
      apply list_elem_of_filter in Hf as [Pf Hf]. apply list_elem_of_filter in Hg as [Pg Hg].
      simpl in *.
      assert (f = g) as ->; [|congruence].
      clear -Hnd Hf Hg. induction body as [|[m k] body IH]; [by apply elem_of_nil in Hf|].
      rewrite fmap_cons in Hnd. apply NoDup_cons in Hnd as [Hm Hnd].
      apply elem_of_cons in Hf as [[= -> ->]|Hf]; apply elem_of_cons in Hg as [[= ?]|Hg];
        try done.
      * by destruct Hm; apply (list_elem_of_fmap_2 fst) in Hg.
      * subst. by destruct Hm; apply (list_elem_of_fmap_2 fst) in Hf.
      * by apply IH.
    + intros name f Ha.
      rewrite (assoc_filter _ _ _ _ Hnd Ha), (assoc_filter _ _ _ _ Hnd Ha). simpl.
      destruct (is_nesting_field f); split; reflexivity.
Qed.

Lemma decode_encode_witness :
  (to_raw (Field (VInt 0) Sample.identity Sample.identity None) (VInt 5)
   ≫= from_raw (Field (VInt 0) Sample.identity Sample.identity None)) Sample.heap0
  = (Sample.heap0, Ok (VInt 5)).
Proof.
  apply (proj1 (decode_encode Sample.heap0)); [discriminate|discriminate|reflexivity|].
  discriminate.
Defined.

Lemma metaclass_partition_witness :
  NoDup ((_fields Sample.User).*1 ++ (_nice_nestings Sample.User).*1)
  ∧ assoc "profile" (_nice_nestings Sample.User) = Some (NestingFactory "Profile" None).
Proof.
  destruct (metaclass_partition true
              [("age", Field (VInt 0) Sample.identity Sample.identity None);
               ("items", FieldWithContainer list_ (VRef 1%nat) Sample.identity
                           Sample.identity None);
               ("grid", Field (VRef 3%nat) Sample.identity Sample.identity None);
               ("profile", NestingFactory "Profile" None);
               ("outer", FieldWithNestings "Outer" (VRef 4%nat) Sample.identity
                           Sample.identity None)]) as (_ & _ & _ & H).
  destruct H as [Hnd Ha]; [refine (bool_decide_unpack _ _); by vm_compute|].
  split; [exact Hnd|]. exact (proj2 (Ha "profile" (NestingFactory "Profile" None) eq_refl)).
Defined.

(** ** Assignments in a scope *)

Section AssignFacts.
Import CommandMaker.
Context (classes : gmap string NiceClass) (fuel : nat).

(** A scope on a document whose body leaves one leaf proxy, directly
    under the root or under one child of the root: how the scope ends is
    decided by the compilation of that leaf. *)
Lemma scope_one_leaf mongo_col doc n body leaf (tree : t) (h h0 : heap) :
  h !! doc = Some (ONode n) → is_document n = true →
  exec_body classes fuel body (__init__ "" None (VRef doc) VNone) h = (h0, tree, None) →
  _underlying tree = VRef doc →
  _iter_leaves tree = [leaf] →
  (∀ h1, _inject_nesting_branches tree h1 = (h1, Ok tt)) →
  (∀ h1 e, compile_leaf classes leaf no_buckets h0 = (h1, Raise e) →
     async_with classes fuel mongo_col doc body h = mkRun h1 [] (Raise e))
  ∧ (∀ h1 b c u n1,
       compile_leaf classes leaf no_buckets h0 = (h1, Ok b) →
       build_command b h1 = (h1, Ok (c, u)) → empty_command c = false →
       h1 !! doc = Some (ONode n1) → is_document n1 = true →
       async_with classes fuel mongo_col doc body h
       = mkRun h1 [update_one (id n1) c u] (answer_update_one mongo_col (id n1) c u)).
Proof.
  intros Hn Hd Hbody Hu Hleaves Hinj.
  assert (command_maker doc h = (h, Ok (__init__ "" None (VRef doc) VNone))) as Hcmd.
  { unfold command_maker. by erewrite bind_Ok by (by eapply route_prefix_document). }
  split.
  - intros h1 e Hc. rewrite async_with_finish, Hcmd, Hbody. unfold finish, __aexit__, compile.
    rewrite Hleaves. simpl.
    erewrite bind_Raise; [reflexivity|]. by erewrite bind_Raise by exact Hc.
  - intros h1 b c u n1 Hc Hb He Hn1 Hd1.
    rewrite async_with_finish, Hcmd, Hbody. unfold finish, __aexit__, compile.
    rewrite Hleaves. simpl.
    erewrite bind_Ok; [|erewrite bind_Ok by exact Hc; reflexivity].
    erewrite bind_Ok by apply Hinj.
    erewrite bind_Ok by exact Hb. cbn [fst snd]. rewrite He, Hu.
    erewrite bind_Ok by (by eapply document_root).
    erewrite bind_Ok by (by apply load_node_Some). reflexivity.
Qed.

Lemma to_raw_scalar (h : heap) d fr tr rn v :
  (∀ r, d ≠ VRef r) →
  to_raw (Field d fr tr rn) v h = (h, Ok (if decide (v = d) then VNone else tr v)).
Proof.
  intros Hd. unfold to_raw. erewrite bind_Ok by (by apply py_eq_scalar).
  by case_bool_decide; [rewrite decide_True|rewrite decide_False].
Qed.

Lemma apply_to_set_scalar owner name d fr tr rn route v b (h : heap) n :
  (∀ r, d ≠ VRef r) → v ≠ VEllipsis →
  h !! owner = Some (ONode n) →
  apply_to_set owner name (Field d fr tr rn) route (Some v) b h
  = (<[owner := ONode (with_attrs (insert name v) n)]> h,
     Ok (set_setter route (if decide (v = d) then VNone else tr v) b)).
Proof.
  intros Hd Hv Hn. unfold apply_to_set.
  assert ((raw ← to_raw (Field d fr tr rn) v; setattr owner name v;;
           mret (set_setter route raw b)) h
          = (<[owner := ONode (with_attrs (insert name v) n)]> h,
             Ok (set_setter route (if decide (v = d) then VNone else tr v) b))) as G.
  { erewrite bind_Ok by (by apply to_raw_scalar).
    erewrite bind_Ok by (by apply setattr_node). reflexivity. }
  by destruct v.
Qed.

Lemma apply_to_set_clear owner name d fr tr rn route b (h : heap) n :
  (∀ r, d ≠ VRef r) →
  h !! owner = Some (ONode n) →
  apply_to_set owner name (Field d fr tr rn) route (Some VEllipsis) b h
  = (<[owner := ONode (with_attrs (insert name d) n)]> h, Ok (set_unsetter route b)).
Proof.
  intros Hd Hn. unfold apply_to_set.
  assert (default (Field d fr tr rn) h = (h, Ok d)) as Hdef.
  { unfold default. destruct d; try reflexivity. by destruct (Hd l). }
  erewrite bind_Ok by exact Hdef.
  erewrite bind_Ok by (by apply setattr_node). reflexivity.
Qed.

Lemma setattr_stages (h : heap) p name value v0 :
  name ∉ __slots__ → _pseudo_attrs p = [] →
  getattr (_underlying p) name h = (h, Ok v0) →
  __setattr__ p name value h
  = (h, Ok (with_pseudo_attrs [(name, __init__ name (Some value) v0 (_underlying p))] p)).
Proof.
  intros Hname Hp Hg. unfold __setattr__. rewrite decide_False by done. rewrite Hp. simpl.
  erewrite bind_Ok by exact Hg. reflexivity.
Qed.
End AssignFacts.



(** X21.  [cmd.part.name = v], where [part] holds a nesting of the
    document and [name] is a scalar field of it, as the only statement of a
    scope: the attribute of the nesting becomes [v], the document itself is
    untouched, and exactly one update is sent, addressed to the document,
    with upsert, whose only section is [$set] at the dotted path made of the
    nesting's wire name and the field's wire name. *)
Theorem nested_assign_in_scope classes fuel mongo_col (doc child : loc) (n nc : Nesting) c
    part name d fr tr rn (v0 v : pyval) (h : heap) :
  h !! doc = Some (ONode n) → is_document n = true →
  attrs n !! part = Some (VRef child) →
  h !! child = Some (ONode nc) → is_document nc = false → _parent nc = Some doc →
  classes !! cls_name nc = Some c →
  assoc name (_fields c) = Some (Field d fr tr rn) →
  attrs nc !! name = Some v0 →
  part ∉ CommandMaker.__slots__ ++ CommandMaker.methods →
  name ∉ CommandMaker.__slots__ →
  (∀ r, d ≠ VRef r) → v ≠ VEllipsis →
  CommandMaker.async_with classes fuel mongo_col doc
    [CommandMaker.Do [CommandMaker.Attr part] (CommandMaker.SetAttr name v)] h
  = mkRun (<[child := ONode (with_attrs (insert name v) nc)]> h)
      [update_one (id n)
         (mkCommand
            (Some {[ mongo_name nc +:+ "." +:+ or_else rn name
                     := if decide (v = d) then VNone else tr v ]})
            None None None) true]
      (answer_update_one mongo_col (id n)
         (mkCommand
            (Some {[ mongo_name nc +:+ "." +:+ or_else rn name
                     := if decide (v = d) then VNone else tr v ]})
            None None None) true).
Proof.
  intros Hn Hd Hpart Hnc Hdc Hpc Hc Hf Ha Hpn Hname Hdflt Hv.
  assert (child ≠ doc) as Hne by (intros ->; congruence).
  set (leaf := CommandMaker.__init__ name (Some v) v0 (VRef child)).
  set (sub := CommandMaker.with_pseudo_attrs [(name, leaf)]
                (CommandMaker.__init__ part None (VRef child) (VRef doc))).
  assert (CommandMaker.exec_body classes fuel
            [CommandMaker.Do [CommandMaker.Attr part] (CommandMaker.SetAttr name v)]
            (CommandMaker.__init__ "" None (VRef doc) VNone) h
          = (h, CommandMaker.with_pseudo_attrs [(part, sub)]
                  (CommandMaker.__init__ "" None (VRef doc) VNone), None)) as Hbody.
  { simpl. unfold CommandMaker.__getattr__. rewrite decide_False by done. simpl.
    erewrite bind_Ok; [|erewrite bind_Ok by (by eapply getattr_node); reflexivity].
    erewrite bind_Ok; [reflexivity|].
    erewrite setattr_stages; [reflexivity|done|done|by eapply getattr_node]. }
  assert (route_prefix child h = (h, Ok (mongo_name nc +:+ "."))) as Hroute.
  { destruct (route_prefix_unfold h child nc doc 0%nat) as (pre & Hpre & Hr);
      [done|done|done|by eapply attached_document|].
    rewrite (route_prefix_document _ _ _ Hn Hd) in Hpre. injection Hpre as <-.
    exact Hr. }
  destruct (scope_one_leaf classes fuel mongo_col doc n _ leaf _ h h Hn Hd Hbody
              eq_refl eq_refl) as [_ Hok].
  { intros h1. rewrite inject_unfold. reflexivity. }
  erewrite (Hok _ _ _ _ n); [reflexivity| | |reflexivity| |exact Hd].
  - erewrite compile_leaf_steps;
      [|reflexivity|exact Hnc|exact Hc|left; exact Hf|exact Hroute].
    subst leaf.
    cbn [CommandMaker._value CommandMaker._to_inc CommandMaker._to_add
         CommandMaker._to_remove CommandMaker._to_update CommandMaker._to_pop
         CommandMaker._name CommandMaker.__init__ real_name].
    erewrite bind_Ok by (by eapply apply_to_set_scalar).
    reflexivity.
  - rewrite <- append_assoc. apply build_single_setter.
  - by rewrite list_lookup_insert_ne.
Qed.

Lemma nested_assign_in_scope_witness :
  requests (CommandMaker.async_with Sample.classes Sample.fuel Sample.empty_store Sample.user
              [CommandMaker.Do [CommandMaker.Attr "profile"]
                 (CommandMaker.SetAttr "bio" (VStr "x"))] Sample.heap1)
  = [update_one (VInt 7) (mkCommand (Some {[ "profile.b" := VStr "x" ]}) None None None) true].
Proof.
  epose proof (nested_assign_in_scope Sample.classes Sample.fuel Sample.empty_store
                 Sample.user 8%nat _ _ Sample.Profile "profile" "bio" (VStr "")
                 Sample.identity Sample.identity (Some "b") (VStr "") (VStr "x")
                 Sample.heap1) as H.
  rewrite H; cycle 1.
  - vm_compute. reflexivity.
  - reflexivity.
  - reflexivity.
  - vm_compute. reflexivity.
  - reflexivity.
  - reflexivity.
  - reflexivity.
  - reflexivity.
  - reflexivity.
  - refine (bool_decide_unpack _ _). by vm_compute.
  - refine (bool_decide_unpack _ _). by vm_compute.
  - discriminate.
  - discriminate.
  - reflexivity.
Defined.

(** ** Nestings made on demand *)

Lemma assoc_elem {A} (name : string) (body : list (string * A)) x :
  assoc name body = Some x → (name, x) ∈ body.
Proof.
  induction body as [|[m y] body IH]; [done|]. simpl.
  case_decide; [intros [= ->]; subst; left|intros Hx; right; by apply IH].
Qed.

Lemma or_else_nonempty (a b : string) : or_else (Some (a +:+ "." +:+ b)) "" = a +:+ "." +:+ b.
Proof.
  unfold or_else. rewrite decide_False; [done|].
  destruct a; [done|]. by rewrite append_cons.
Qed.

Lemma hashable_scalar (h : heap) k : (∀ r, k ≠ VRef r) → hashable h k = true.
Proof. intros Hk. destruct k; try done. by destruct (Hk l). Qed.

Section OnDemand.
Import CommandMaker.
Context (classes : gmap string NiceClass) (fuel : nat).

(** [cmd.part[k]] for a key the dict of nestings does not hold: a proxy
    of a nesting that is constructed on the spot. *)
Lemma getitem_new p part (h h1 : heap) doc n c cls' dd frk trk prn dl kvs k child :
  _underlying_owner p = VRef doc → _underlying p = VRef dl → _name p = part →
  _pseudo_nestings p = [] →
  h !! doc = Some (ONode n) → classes !! cls_name n = Some c →
  assoc part (_nice_nestings c) = Some (FieldWithNestings cls' dd frk trk prn) →
  h !! dl = Some (ODict kvs) → dict_get k kvs = None → (∀ r, k ≠ VRef r) →
  NiceNesting__init__ classes fuel false cls' "" VNone (Some doc)
    (Some (or_else prn part +:+ "." +:+ py_str (trk k))) h = (h1, Ok child) →
  __getitem__ classes fuel p k h
  = (h1, Ok (__init__ (py_str k) None (VRef child) (VRef dl))).
Proof.
  intros Ho Hu Hname Hpn Hn Hc Hf Hdl Hk Hks Hinit. unfold __getitem__.
  rewrite Ho. erewrite bind_Ok by (by apply as_nesting_node). cbv beta iota.
  erewrite bind_Ok by (by apply lookup_class_Some).
  rewrite Hname, Hf.
  erewrite bind_Ok by (by apply check_hashable_true, hashable_scalar).
  rewrite Hpn. simpl. rewrite Hu.
  assert (py_get (VRef dl) k h = (h, Ok VNone)) as Hget.
  { unfold py_get, py_items.
    erewrite bind_Ok; [|erewrite bind_Ok by (by apply load_Some); reflexivity].
    erewrite bind_Ok by (by apply check_hashable_true, hashable_scalar).
    by rewrite Hk. }
  erewrite bind_Ok by exact Hget. cbv beta iota.
  erewrite bind_Ok; [reflexivity|].
  erewrite bind_Ok by exact Hinit. reflexivity.
Qed.

(** Binding the new nesting: [_inject_nesting_branches] on the proxy of
    the dict, when the key is still absent from the dict. *)
Lemma inject_binds p (h : heap) dl kvs k sub :
  _underlying p = VRef dl → _pseudo_attrs p = [] → _pseudo_nestings p = [(k, sub)] →
  h !! dl = Some (ODict kvs) → dict_get k kvs = None → (∀ r, k ≠ VRef r) →
  (∀ h1, _inject_nesting_branches sub h1 = (h1, Ok tt)) →
  _inject_nesting_branches p h
  = (<[dl := ODict (dict_set k (_underlying sub) kvs)]> h, Ok tt).
Proof.
  intros Hu Hpa Hpn Hdl Hk Hks Hsub. rewrite inject_unfold, Hu, Hpa, Hpn. simpl.
  assert (py_contains k (VRef dl) h = (h, Ok false)) as Hc.
  { unfold py_contains. erewrite bind_Ok by (by apply load_Some). cbv beta iota.
    erewrite bind_Ok by (by apply check_hashable_true, hashable_scalar).
    rewrite Hk. reflexivity. }
  assert (py_setitem (VRef dl) k (_underlying sub) h
          = (<[dl := ODict (dict_set k (_underlying sub) kvs)]> h, Ok tt)) as Hs.
  { unfold py_setitem. erewrite bind_Ok by (by apply load_Some). cbv beta iota.
    erewrite bind_Ok by (by apply check_hashable_true, hashable_scalar). reflexivity. }
  erewrite bind_Ok.
  2:{ erewrite bind_Ok; [reflexivity|]. erewrite bind_Ok by exact Hc. exact Hs. }
  erewrite bind_Ok by reflexivity.
  erewrite bind_Ok by apply Hsub. reflexivity.
Qed.
End OnDemand.

Section OnDemandScope.
Import CommandMaker.
Context (classes : gmap string NiceClass) (fuel : nat).

(** As [scope_one_leaf], when binding the new nestings changes the heap. *)
Lemma scope_one_leaf_bound mongo_col doc n body leaf (tree : t) (h h0 h1 h2 : heap) b c u n2 :
  h !! doc = Some (ONode n) → is_document n = true →
  exec_body classes fuel body (__init__ "" None (VRef doc) VNone) h = (h0, tree, None) →
  _underlying tree = VRef doc →
  _iter_leaves tree = [leaf] →
  compile_leaf classes leaf no_buckets h0 = (h1, Ok b) →
  _inject_nesting_branches tree h1 = (h2, Ok tt) →
  build_command b h2 = (h2, Ok (c, u)) → empty_command c = false →
  h2 !! doc = Some (ONode n2) → is_document n2 = true →
  async_with classes fuel mongo_col doc body h
  = mkRun h2 [update_one (id n2) c u] (answer_update_one mongo_col (id n2) c u).
Proof.
  intros Hn Hd Hbody Hu Hleaves Hc Hinj Hb He Hn2 Hd2.
  assert (command_maker doc h = (h, Ok (__init__ "" None (VRef doc) VNone))) as Hcmd.
  { unfold command_maker. by erewrite bind_Ok by (by eapply route_prefix_document). }
  rewrite async_with_finish, Hcmd, Hbody. unfold finish, __aexit__, compile.
  rewrite Hleaves. simpl.
  erewrite bind_Ok; [|erewrite bind_Ok by exact Hc; reflexivity].
  erewrite bind_Ok by exact Hinj.
  erewrite bind_Ok by exact Hb. cbn [fst snd]. rewrite He, Hu.
  erewrite bind_Ok by (by eapply document_root).
  erewrite bind_Ok by (by apply load_node_Some). reflexivity.
Qed.
End OnDemandScope.



(** ** Sets *)

Section SetFacts.
Import CommandMaker.

Lemma apply_to_add_set owner name d fe te rn route x b (h : heap) n l xs :
  (∀ r, x ≠ VRef r) → (∀ r, te x ≠ VRef r) →
  h !! owner = Some (ONode n) → attrs n !! name = Some (VRef l) →
  h !! l = Some (OSet xs) →
  apply_to_add owner name (FieldWithContainer set_ d fe te rn) route [x] b h
  = (<[l := OSet (set_add x xs)]> (h ++ [OList [x]; OSet [te x]]),
     Ok (extend_adder route [te x] b)).
Proof.
  intros Hx Htx Hn Ha Hl. unfold apply_to_add.
  erewrite bind_Ok by apply staged_list.
  assert (to_raw (FieldWithContainer set_ d fe te rn) (VRef (length h)) (h ++ [OList [x]])
          = ((h ++ [OList [x]]) ++ [OSet [te x]], Ok (VRef (length (h ++ [OList [x]])))))
    as Hraw.
  { unfold to_raw.
    erewrite bind_Ok by (apply py_iter_list; by rewrite lookup_app_r, Nat.sub_diag).
    unfold new_sized, new_set. simpl.
    erewrite bind_Ok.
    2:{ erewrite bind_Ok by (by apply check_hashable_true, hashable_scalar). reflexivity. }
    unfold set_add. rewrite decide_False by apply not_elem_of_nil. reflexivity. }
  erewrite bind_Ok by exact Hraw.
  erewrite bind_Ok.
  2:{ unfold py_iter. erewrite bind_Ok; [|apply load_Some; by rewrite lookup_app_r, Nat.sub_diag].
      reflexivity. }
  rewrite <- app_assoc. simpl.
  erewrite bind_Ok.
  2:{ eapply getattr_node; [by apply lookup_app_l_Some|done]. }
  unfold py_extend_or_update.
  erewrite bind_Ok; [reflexivity|].
  erewrite bind_Ok by (apply load_Some; by apply lookup_app_l_Some). cbv beta iota.
  simpl.
  erewrite bind_Ok; [reflexivity|].
  erewrite bind_Ok by (by apply check_hashable_true, hashable_scalar).
  erewrite bind_Ok by (apply load_Some; by apply lookup_app_l_Some). reflexivity.
Qed.
End SetFacts.

(** X23.  [cmd.name.add(x)] on a set field of a document ([x] and its
    encoding no containers), as the only statement of a scope: [x] is added
    to the document's own set, which is left as it is when it holds [x]
    already; either way exactly one update is sent, with upsert, whose only
    section is [$addToSet], mapping the field's wire name to the encoded
    element. *)
Theorem set_add_in_scope classes fuel mongo_col (doc : loc) (n : Nesting) c name
    d fe te rn (l : loc) (xs : list pyval) (x : pyval) (h : heap) :
  h !! doc = Some (ONode n) → is_document n = true →
  classes !! cls_name n = Some c →
  assoc name (_fields c) = Some (FieldWithContainer set_ d fe te rn) →
  name ∉ CommandMaker.__slots__ ++ CommandMaker.methods →
  attrs n !! name = Some (VRef l) → h !! l = Some (OSet xs) →
  (∀ r, x ≠ VRef r) → (∀ r, te x ≠ VRef r) →
  CommandMaker.async_with classes fuel mongo_col doc
    [CommandMaker.Do [CommandMaker.Attr name] (CommandMaker.Add x)] h
  = mkRun (<[l := OSet (if decide (x ∈ xs) then xs else xs ++ [x])]>
             (h ++ [OList [x]; OSet [te x]]))
      [update_one (id n)
         (mkCommand None None (Some {[ or_else rn name := One (te x) ]}) None) true]
      (answer_update_one mongo_col (id n)
         (mkCommand None None (Some {[ or_else rn name := One (te x) ]}) None) true).
Proof.
  intros Hn Hd Hc Hf Hname Ha Hl Hx Htx.
  assert (l ≠ doc) as Hld by (intros ->; congruence).
  destruct (scope_one_attr classes fuel mongo_col doc n name (VRef l)
              (CommandMaker.Add x) _ h Hn Hd Hname Ha eq_refl eq_refl eq_refl)
    as [_ Hok].
  eapply Hok; [| |reflexivity| |exact Hd].
  - erewrite compile_leaf_steps;
      [|reflexivity|exact Hn|exact Hc|left; exact Hf|by eapply route_prefix_document].
    cbn [CommandMaker._value CommandMaker._to_inc CommandMaker._to_add
         CommandMaker._to_remove CommandMaker._to_update CommandMaker._to_pop
         CommandMaker._name CommandMaker.add CommandMaker.with_add CommandMaker.__init__
         CommandMaker.apply_to_set CommandMaker.apply_to_inc real_name app].
    erewrite bind_Ok by reflexivity. erewrite bind_Ok by reflexivity.
    erewrite bind_Ok by (by eapply apply_to_add_set).
    reflexivity.
  - by apply (build_single_adder _ [te x]).
  - rewrite list_lookup_insert_ne by done. by apply lookup_app_l_Some.
Qed.

Lemma set_add_in_scope_witness :
  requests
    (CommandMaker.async_with
       {[ "Tagged" := FieldExtractingMeta true
                        [("tags", FieldWithContainer set_ (VRef 0%nat) Sample.identity
                                    Sample.identity None)] ]}
       1%nat Sample.empty_store 1%nat
       [CommandMaker.Do [CommandMaker.Attr "tags"] (CommandMaker.Add (VInt 1))]
       [OSet [];
        ONode (mkNesting "Tagged" true None "" None {[ "tags" := VRef 2%nat ]} (VInt 9) 0%Q);
        OSet [VInt 1]])
  = [update_one (VInt 9) (mkCommand None None (Some {[ "tags" := One (VInt 1) ]}) None) true].
Proof.
  rewrite (set_add_in_scope _ _ _ 1%nat
             (mkNesting "Tagged" true None "" None {[ "tags" := VRef 2%nat ]} (VInt 9) 0%Q)
             (FieldExtractingMeta true
                [("tags", FieldWithContainer set_ (VRef 0%nat) Sample.identity
                            Sample.identity None)])
             "tags" (VRef 0%nat) Sample.identity Sample.identity None 2%nat [VInt 1] (VInt 1)).
  - reflexivity.
  - reflexivity.
  - reflexivity.
  - reflexivity.
  - reflexivity.
  - refine (bool_decide_unpack _ _). by vm_compute.
  - reflexivity.
  - reflexivity.
  - discriminate.
  - discriminate.
Defined.

(** ** Dicts of nestings read from a record *)

Lemma dict_get_set_same k v kvs : dict_get k (dict_set k v kvs) = Some v.
Proof.
  induction kvs as [|[k' v'] kvs IH]; simpl; [by rewrite decide_True|].
  case_decide; simpl; [subst; by rewrite decide_True|by rewrite decide_False].
Qed.

Lemma dict_get_set_other k k' v kvs :
  k ≠ k' → dict_get k (dict_set k' v kvs) = dict_get k kvs.
Proof.
  intros Hne. induction kvs as [|[k0 v0] kvs IH]; simpl; [by rewrite decide_False|].
  destruct (decide (k' = k0)) as [->|Hk0]; simpl.
  - by rewrite !decide_False.
  - case_decide; [done|exact IH].
Qed.

Section NestLoop.
Context (classes : gmap string NiceClass) (fuel : nat).
Context (cls : string) (frk : pyval → pyval) (wire : string) (parent d : loc).

(** What the loop leaves in the dict under construction: under each
    converted key, a new nesting of the class, whose parent is [parent] and
    whose alias is the wire name, a dot and the key as the record has it. *)
Lemma nest_loop items :
  NoDup (frk <$> items.*1) →
  ∀ (h h' : heap) kvs,
    h !! d = Some (ODict kvs) →
    for_each (λ kv,
      child ← NiceNesting__init__ classes fuel false cls "" kv.2 (Some parent)
                (Some (wire +:+ "." +:+ py_str kv.1));
      check_hashable (frk kv.1);;
      kvs ← py_items (VRef d);
      store d (ODict (dict_set (frk kv.1) (VRef child) kvs))) items h = (h', Ok tt) →
    ∃ kvs', h' !! d = Some (ODict kvs') ∧ grows_but d h h'
      ∧ (∀ k, k ∉ frk <$> items.*1 → dict_get k kvs' = dict_get k kvs)
      ∧ (∀ kv, kv ∈ items →
           ∃ child nc, dict_get (frk kv.1) kvs' = Some (VRef child)
             ∧ h !! child = None ∧ h' !! child = Some (ONode nc)
             ∧ cls_name nc = cls ∧ is_document nc = false
             ∧ _parent nc = Some parent
             ∧ mongo_name nc = wire +:+ "." +:+ py_str kv.1).
Proof.
  induction items as [|kv items IH]; intros Hnd h h' kvs Hd H.
  - injection H as <-. exists kvs. split; [done|]. split; [apply grows_but_refl|].
    split; [done|]. by intros kv ?%elem_of_nil.
  - rewrite !fmap_cons in Hnd. apply NoDup_cons in Hnd as [Hnotin Hnd].
    simpl in H. bind_cases H. destruct a.
    bind_cases E. rename a into child, h1 into h1.
    bind_cases E. apply check_hashable_heap in E1 as ->.
    pose proof (frame_grows _ _ _ _
      (λ n, frame_NiceNesting__init__ n classes fuel false cls "" kv.2 (Some parent)
              (Some (wire +:+ "." +:+ py_str kv.1))) E0) as G1.
    destruct (NiceNesting__init___node _ _ _ _ _ _ _ _ _ _ _ E0) as (-> & nc & Hnc & Hh).
    destruct Hh as (Hh1 & Hh2 & Hh3 & Hh4 & Hh5 & _). simpl in Hh1, Hh2, Hh3, Hh4, Hh5.
    assert (py_items (VRef d) h1 = (h1, Ok kvs)) as Hitems.
    { unfold py_items. by erewrite bind_Ok by (apply load_Some; by apply G1). }
    rewrite (bind_Ok _ _ _ _ _ Hitems) in E. injection E as <-.
    assert (d ≠ length h) as Hdne by (apply lookup_lt_Some in Hd; lia).
    assert (<[d := ODict (dict_set (frk kv.1) (VRef (length h)) kvs)]> h1 !! d
            = Some (ODict (dict_set (frk kv.1) (VRef (length h)) kvs))) as Hd2.
    { apply list_lookup_insert_eq. apply G1 in Hd. by eapply lookup_lt_Some. }
    destruct (IH Hnd _ _ _ Hd2 H) as (kvs' & Hd' & G2 & Hout & Hin).
    assert (grows_but d h (<[d := ODict (dict_set (frk kv.1) (VRef (length h)) kvs)]> h1))
      as G0.
    { eapply grows_but_trans; [by apply grows_grows_but|apply grows_but_insert]. }
    exists kvs'. split; [done|]. split; [by eapply grows_but_trans|]. split.
    + intros k Hk. apply not_elem_of_cons in Hk as [Hne Hk].
      rewrite (Hout _ Hk). by apply dict_get_set_other.
    + intros kv0 [->|Hkv0]%elem_of_cons.
      * exists (length h), nc. rewrite (Hout _ Hnotin), dict_get_set_same.
        split; [done|]. split; [by apply lookup_ge_None|].
        split; [apply G2; [done|]; by rewrite list_lookup_insert_ne|].
        split; [done|]. split; [done|]. split; [done|].
        unfold mongo_name. rewrite Hh4, Hh5. apply or_else_nonempty.
      * destruct (Hin _ Hkv0) as (child & nc0 & Hg & Hfresh & Hrest).
        exists child, nc0. split; [done|]. split; [|done].
        apply lookup_ge_None. apply lookup_ge_None in Hfresh.
        rewrite length_insert in Hfresh. apply grows_length in G1. lia.
Qed.
End NestLoop.



(** ** The body of a scope *)

(** X25.  The body of a scope only stages: whatever its statements, and
    whether it runs to its end or raises, every instance and every container
    of the graph is the same when the body stops as when it started; what
    the body adds to the graph are the nestings it makes on demand.  The
    changes are applied when the scope is left, not before. *)
Theorem body_only_stages classes fuel (body : list CommandMaker.stmt) (cmd : CommandMaker.t)
    (h : heap) :
  grows h (CommandMaker.exec_body classes fuel body cmd h).1.1
  ∧ (length h ≤ length (CommandMaker.exec_body classes fuel body cmd h).1.1)%nat.
Proof.
  destruct (CommandMaker.exec_body classes fuel body cmd h) as [[h' cmd'] oe] eqn:E.
  simpl. split; [by eapply exec_body_grows|].
  by eapply grows_length, exec_body_grows.
Qed.

(** X26.  A scope cannot be opened on a nesting that has no parent:
    [command_maker] raises [ValueError] when it asks for the route prefix,
    before any statement of the body runs; nothing is sent and the heap is as
    it was. *)
Theorem scope_on_detached_nesting classes fuel mongo_col (node : loc) (n : Nesting)
    (body : list CommandMaker.stmt) (h : heap) :
  h !! node = Some (ONode n) → is_document n = false → _parent n = None →
  CommandMaker.async_with classes fuel mongo_col node body h = mkRun h [] (Raise ValueError).
Proof.
  intros Hn Hd Hp. unfold CommandMaker.async_with, CommandMaker.command_maker.
  by erewrite bind_Raise by (by eapply route_prefix_detached).
Qed.

Lemma scope_on_detached_nesting_witness :
  CommandMaker.async_with Sample.classes Sample.fuel Sample.empty_store 0%nat
    Sample.body_replace [ONode (mkNesting "Inner" false None "" None ∅ VNone 0%Q)]
  = mkRun [ONode (mkNesting "Inner" false None "" None ∅ VNone 0%Q)] [] (Raise ValueError).
Proof.
  apply (scope_on_detached_nesting _ _ _ 0%nat
           (mkNesting "Inner" false None "" None ∅ VNone 0%Q)); reflexivity.
Defined.

(** ** Documents read from the store *)

Lemma wrap_and_cache_record classes fuel (self : NiceCollection.t) i rd recs now
    (h h' : heap) r :
  h !! rd = Some (ODict recs) →
  NiceCollection.wrap_and_cache classes fuel self i (VRef rd) now h = (h', r) →
  match dict_get (VStr "_id") recs with
  | Some i' =>
      ∀ self' doc, r = Ok (self', doc) →
        doc = length h
        ∧ (∃ n, h' !! doc = Some (ONode n)
                ∧ cls_name n = NiceCollection.document_wrapper self
                ∧ is_document n = true ∧ _parent n = None
                ∧ id n = i' ∧ _last_used_at n = now)
        ∧ grows h h'
        ∧ self' = (if match NiceCollection.cache_lifetime self with
                      | Some lifetime => Qlt_bool 0 lifetime
                      | None => true
                      end
                   then NiceCollection.with_cache
                          (<[i' := doc]> (NiceCollection.cache self)) self
                   else self)
  | None => ∃ e, r = Raise e
  end.
Proof.
  intros Hrd H. unfold NiceCollection.wrap_and_cache in H.
  erewrite bind_Ok in H by reflexivity.
  destruct (dict_get (VStr "_id") recs) as [i'|] eqn:Hid.
  - intros self' doc ->. bind_cases H. rename a into doc0, h0 into h1.
    destruct (NiceDocument__init___node _ _ _ _ _ i' _ _ _ _ E Hrd Hid)
      as (-> & (n & Hn & Hc & Hdoc & Hp & Hidn & Hlu) & Old).
    erewrite bind_Ok in H by (by apply load_node_Some).
    assert (∀ hx (m : Py (NiceCollection.t * loc)) s,
              (check_hashable (id n);; mret s) h1 = (hx, Ok (self', doc)) →
              hx = h1 ∧ s = (self', doc)) as Hchk.
    { intros hx _ s Hs. bind_cases Hs. apply check_hashable_heap in E0 as ->.
      by injection Hs as <- <-. }
    destruct (NiceCollection.cache_lifetime self) as [lifetime|].
    + destruct (Qlt_bool 0 lifetime).
      * apply Hchk in H as [-> [= <- <-]]; [|exact (mret (self, 0%nat))].
        rewrite Hidn. split; [done|]. split; [eauto 10|]. done.
      * injection H as <- <- <-. split; [done|]. split; [eauto 10|]. done.
    + apply Hchk in H as [-> [= <- <-]]; [|exact (mret (self, 0%nat))].
      rewrite Hidn. split; [done|]. split; [eauto 10|]. done.
  - bind_cases H; [|by eexists].
    unfold NiceDocument__init__ in E. bind_cases E.
    pose proof (frame_grows _ _ _ _
      (λ k, frame_NiceNesting__init__ k classes fuel true
              (NiceCollection.document_wrapper self) "" (VRef rd) None None) E0) as G.
    assert (py_getitem (VRef rd) (VStr "_id") h1 = (h1, Raise KeyError)) as Hget.
    { unfold py_getitem. erewrite bind_Ok by (apply load_Some; by apply G).
      cbv beta iota. by rewrite Hid. }
    by rewrite (bind_Raise _ _ _ _ _ Hget) in E.
Qed.



(** ** Several statements, one update *)

Lemma build_setters (b : CommandMaker.buckets) (h : heap) :
  CommandMaker.setters b ≠ ∅ → CommandMaker.unsetters b = ∅ →
  CommandMaker.adders b = ∅ → CommandMaker.removers b = ∅ →
  CommandMaker.build_command b h
  = (h, Ok (mkCommand (Some (CommandMaker.setters b)) None None None, true)).
Proof.
  intros Hs Hu Ha Hr. unfold CommandMaker.build_command.
  rewrite (decide_False (P := CommandMaker.setters b = ∅)) by done.
  rewrite (decide_True (P := CommandMaker.unsetters b = ∅)) by done.
  rewrite (decide_True (P := CommandMaker.adders b = ∅)) by done.
  rewrite (decide_True (P := CommandMaker.removers b = ∅)) by done.
  rewrite (bool_decide_eq_true_2 (CommandMaker.setters b ≠ ∅)) by done.
  reflexivity.
Qed.


